(** * Daemon: the message lifecycle orchestrator

    A shallow embedding of [packages/daemon/src/daemon.ts] and of the
    generation helpers of [llm.ts] (class [Daemon]: model and tool
    registries, the remote tool client, signing and approvals, the hook
    callback, and the two message pipelines), with the properties of the
    specification stated over it.

    Conventions.
    - A JavaScript string is a [string] holding its UTF-8 bytes.
    - A thrown [Error] is a [JSError]; [`${e}`] is [error_toString].
    - [async] code runs in a state-and-exception monad [M]: the state
      carries the log of network events, the lifecycle container and the
      counters of the identifier source and of the clock.  The fan-out of a
      stage ([Promise.all] over [callTool] promises) is sequenced left to
      right; the interleaving of concurrent sessions is not modelled.
    - A streamed generation is a tree of what the model does
      ([TextStream]): chunks of text, and requests for tools, which the
      streaming adapter answers by running [execute].  The state after
      [messageWithTools] is the state once its subscription is over; the
      container it returns is the one the caller finds when the wait
      ends, which the thirty-second timer may end first.
    - What lies outside the repository (the MCP servers, the model
      provider, [nanoid], the clock, [nacl.sign.detached]) is an oracle:
      a field of [Env]. *)

From Stdlib Require Import Strings.String Strings.Ascii Strings.Byte.
From Stdlib Require Import List Bool Arith NArith ZArith Lia DecimalString.
Import ListNotations.
Set Warnings "-register-all".
Local Open Scope string_scope.
Local Open Scope list_scope.

(* ================================================================== *)
(** ** JavaScript values *)

Module JS.

(** The values that travel as tool arguments and tool results.  A number
    is given by a natural, a safe integer of JavaScript (below [2^53]):
    only [typeof] and [join] look at one. *)
Inductive value : Type :=
| Undefined
| Null
| Bool (b : bool)
| Number (n : N)
| Str (s : string)
| Arr (elems : list value)
| Obj (props : list (string * value))
| Function.

(** An object literal: its own properties in insertion order. *)
Definition object := list (string * value).

(** [typeof v]. *)
Definition typeof (v : value) : string :=
  match v with
  | Undefined => "undefined"
  | Null => "object"
  | Bool _ => "boolean"
  | Number _ => "number"
  | Str _ => "string"
  | Arr _ => "object"
  | Obj _ => "object"
  | Function => "function"
  end.

(** [Array.isArray(v)]. *)
Definition isArray (v : value) : bool :=
  match v with Arr _ => true | _ => false end.

Fixpoint own (o : object) (k : string) : option value :=
  match o with
  | [] => None
  | (k', v) :: rest => if String.eqb k' k then Some v else own rest k
  end.

(** The members every plain object inherits from [Object.prototype]. *)
Definition prototype_functions : list string :=
  [ "constructor"; "hasOwnProperty"; "isPrototypeOf";
    "propertyIsEnumerable"; "toLocaleString"; "toString"; "valueOf";
    "__defineGetter__"; "__defineSetter__";
    "__lookupGetter__"; "__lookupSetter__" ].

Definition inherited (k : string) : value :=
  if existsb (String.eqb k) prototype_functions then Function
  else if String.eqb k "__proto__" then Obj []
  else Undefined.

(** [o[k]] on a plain object. *)
Definition get (o : object) (k : string) : value :=
  match own o k with
  | Some v => v
  | None => inherited k
  end.

(** [{...o, k: v}]: the key keeps its place when [o] has it already. *)
Fixpoint set (o : object) (k : string) (v : value) : object :=
  match o with
  | [] => [(k, v)]
  | (k', v') :: rest =>
      if String.eqb k' k then (k', v) :: rest
      else (k', v') :: set rest k v
  end.

(** [a ?? b] when absence is [None]. *)
Definition nullish {A : Type} (a : option A) (b : A) : A :=
  match a with Some x => x | None => b end.

(** [!s] for a string: only the empty string is falsy. *)
Definition falsy (s : string) : bool := String.eqb s "".

(** [s.endsWith(suffix)]. *)
Definition endsWith (s suffix : string) : bool :=
  let n := String.length s in
  let m := String.length suffix in
  Nat.leb m n && String.eqb (substring (n - m) m s) suffix.

(** A thrown error: the constructor's name and the message. *)
Record JSError : Type := mkError { ename : string; emessage : string }.

Definition Error (msg : string) : JSError := mkError "Error" msg.
Definition TypeError (msg : string) : JSError := mkError "TypeError" msg.

(** [`${e}`] for an error [e]: [Error.prototype.toString], which leaves
    out an empty name or an empty message together with the colon. *)
Definition error_toString (e : JSError) : string :=
  if String.eqb (ename e) "" then emessage e
  else if String.eqb (emessage e) "" then ename e
  else ename e ++ ": " ++ emessage e.

End JS.

(* ================================================================== *)
(** ** Types of [types.ts], as [daemon.ts] uses them *)

(** Modelled from the spec: [types.ts] is not among the sources.
    [Character] has the fields of section 3 that [daemon.ts] and the tests
    read. *)
Record Character : Type := mkCharacter {
  name : string;
  pubkey : string;
  identityPrompt : option string
}.

(** [Keypair] of [@solana/web3.js]: what [daemon.ts] takes from it. *)
Record Keypair : Type := mkKeypair {
  publicKeyBase58 : string;   (* [keypair.publicKey.toBase58()] *)
  secretKey : list byte
}.

(** Modelled from the spec: [ModelProvider] of [types.ts], with the fields
    [daemon.ts] and the tests read. *)
Record ModelProvider : Type := mkModelProvider {
  provider : string;
  models : list string;
  apiKey : string;
  endpoint : string
}.

(** Modelled from the spec: an entry of [ToolProvider.parameters] in
    [types.ts]: name, declared type, description.  The declared type is
    kept a string, as [callTool] compares it. *)
Record ToolParameter : Type := mkToolParameter {
  pname : string;
  ptype : string;
  pdescription : string
}.

(** Modelled from the spec: [ToolProvider] of [types.ts]. *)
Record ToolProvider : Type := mkToolProvider {
  serverUrl : string;
  toolName : string;
  type : string;   (* "context", "action", "postProcess" or "ondemand" *)
  description : string;
  parameters : list ToolParameter
}.

(** Modelled from the spec: [IHook.hookTool] of [types.ts], with the
    fields [Daemon.hook] reads. *)
Record HookTool : Type := mkHookTool {
  hookServerUrl : string;
  hookToolName : string;
  toolArgs : JS.object
}.

(** Modelled from the spec: [IHook] of [types.ts], with the fields
    [Daemon.hook] reads and writes. *)
Record IHook : Type := mkHook {
  daemonTool : string;
  daemonArgs : string;        (* the [payload] of [daemonArgs] *)
  hookTool : HookTool;
  hookOutput : JS.value       (* [Undefined] until the daemon sets it *)
}.

(** The fields of class [Daemon]. *)
Record Daemon : Type := mkDaemon {
  character : Character;
  keypair : option Keypair;    (* the methods test [!this.keypair] *)
  d_models : list ModelProvider;
  d_tools : list ToolProvider
}.

(* ================================================================== *)
(** ** The model registry *)

Definition same_provider (a b : ModelProvider) : bool :=
  String.eqb (provider a) (provider b).

(** [Daemon.addModelProvider], on the [models] array. *)
Definition addModelProvider_models
    (p : ModelProvider) (ms : list ModelProvider) : list ModelProvider :=
  match find (fun q => same_provider q p) ms with
  | Some _ =>
      (* replace the existing provider *)
      map (fun q => if same_provider q p then p else q) ms
  | None => ms ++ [p]
  end.

Definition addModelProvider (p : ModelProvider) (d : Daemon) : Daemon :=
  mkDaemon (character d) (keypair d)
           (addModelProvider_models p (d_models d)) (d_tools d).

(** [Daemon.addSingleToolFromProvider]. *)
Definition addSingleToolFromProvider (t : ToolProvider) (d : Daemon) : Daemon :=
  mkDaemon (character d) (keypair d) (d_models d) (d_tools d ++ [t]).

(* ================================================================== *)
(** ** Base64, as [Buffer] reads and writes it *)

Module Base64.

Definition byte_of_N (n : N) : byte :=
  match Byte.of_N (n mod 256) with
  | Some b => b
  | None => x00
  end.

(** The character of a six-bit group: [A-Z], [a-z], [0-9], [+], [/]. *)
Definition char_of_sextet (n : N) : ascii :=
  if (n <? 26)%N then ascii_of_N (n + 65)
  else if (n <? 52)%N then ascii_of_N (n + 71)
  else if (n <? 62)%N then ascii_of_N (n - 4)
  else if (n =? 62)%N then "+"%char
  else "/"%char.

(** The six-bit group of a character; the decoder also reads the
    URL-safe [-] and [_]. *)
Definition sextet_of_char (c : ascii) : option N :=
  let k := N_of_ascii c in
  if ((65 <=? k) && (k <=? 90))%N then Some (k - 65)%N
  else if ((97 <=? k) && (k <=? 122))%N then Some (k - 71)%N
  else if ((48 <=? k) && (k <=? 57))%N then Some (k + 4)%N
  else if ((k =? 43) || (k =? 45))%N then Some 62%N
  else if ((k =? 47) || (k =? 95))%N then Some 63%N
  else None.

(** [buf.toString("base64")]. *)
Fixpoint encode (bs : list byte) : string :=
  match bs with
  | [] => ""
  | [a] =>
      let x := Byte.to_N a in
      String (char_of_sextet (x / 4))
        (String (char_of_sextet ((x mod 4) * 16)) "==")
  | [a; b] =>
      let x := Byte.to_N a in
      let y := Byte.to_N b in
      String (char_of_sextet (x / 4))
        (String (char_of_sextet ((x mod 4) * 16 + y / 16))
           (String (char_of_sextet ((y mod 16) * 4)) "="))
  | a :: b :: c :: rest =>
      let x := Byte.to_N a in
      let y := Byte.to_N b in
      let z := Byte.to_N c in
      String (char_of_sextet (x / 4))
        (String (char_of_sextet ((x mod 4) * 16 + y / 16))
           (String (char_of_sextet ((y mod 16) * 4 + z / 64))
              (String (char_of_sextet (z mod 64)) (encode rest))))
  end%N.

(** The six-bit groups of the text: the decoder stops at the first
    padding character [=] and skips every other character that is not of
    the alphabet. *)
Fixpoint sextets (s : string) : list N :=
  match s with
  | EmptyString => []
  | String c rest =>
      match sextet_of_char c with
      | Some n => n :: sextets rest
      | None => if Ascii.eqb c "="%char then [] else sextets rest
      end
  end.

Fixpoint bytes_of_sextets (l : list N) : list byte :=
  match l with
  | s0 :: s1 :: s2 :: s3 :: rest =>
      byte_of_N (s0 * 4 + s1 / 16)
      :: byte_of_N ((s1 mod 16) * 16 + s2 / 4)
      :: byte_of_N ((s2 mod 4) * 64 + s3)
      :: bytes_of_sextets rest
  | [s0; s1; s2] =>
      [byte_of_N (s0 * 4 + s1 / 16); byte_of_N ((s1 mod 16) * 16 + s2 / 4)]
  | [s0; s1] => [byte_of_N (s0 * 4 + s1 / 16)]
  | _ => []
  end%N.

(** [Buffer.from(text, "base64")]. *)
Definition decode (text : string) : list byte :=
  bytes_of_sextets (sextets text).

End Base64.

(* ================================================================== *)
(** ** [JSON.stringify] on the approval envelope *)

Module JSON.

Definition hex_digit (n : N) : ascii :=
  if (n <? 10)%N then ascii_of_N (n + 48) else ascii_of_N (n + 87).

Definition dquote : string := String (ascii_of_N 34) "".

(** One character of a quoted JSON string: the quote and the backslash
    take a backslash, control characters their short or [\u00XX] form,
    any other character stands for itself. *)
Definition escape_char (c : ascii) : string :=
  let k := N_of_ascii c in
  if (k =? 34)%N then "\" ++ dquote
  else if (k =? 92)%N then "\\"
  else if (k =? 8)%N then "\b"
  else if (k =? 12)%N then "\f"
  else if (k =? 10)%N then "\n"
  else if (k =? 13)%N then "\r"
  else if (k =? 9)%N then "\t"
  else if (k <? 32)%N then
    "\u00" ++ String (hex_digit (k / 16)) (String (hex_digit (k mod 16)) "")
  else String c "".

Fixpoint escape (s : string) : string :=
  match s with
  | EmptyString => ""
  | String c rest => escape_char c ++ escape rest
  end.

(** [JSON.stringify(s)] for a string [s]. *)
Definition quote (s : string) : string := dquote ++ escape s ++ dquote.

End JSON.

(* ================================================================== *)
(** ** The message lifecycle and its container *)

Definition nl : string := String (ascii_of_N 10) "".

Module Lifecycle.

(** Modelled from the spec: [IMessageLifecycle] of [types.ts], with the
    fields of the object the base stage publishes.  The container holds a
    [Partial<IMessageLifecycle>]: a field is [None] until it is set. *)
Record t : Type := mk {
  daemonPubkey : option string;
  daemonName : option string;
  messageId : option string;
  message : option string;
  createdAt : option string;
  approval : option string;
  channelId : option string;
  identityPrompt : option string;
  context : option (list JS.value);
  tools : option (list string);
  generatedPrompt : option string;
  output : option string;
  hooks : option (list IHook);
  hooksLog : option (list JS.value);
  actionsLog : option (list JS.value);
  postProcessLog : option (list JS.value)
}.

(** The initial value [{}] of the container. *)
Definition empty : t :=
  mk None None None None None None None None
     None None None None None None None None.

(** [{...v, context: x}] and its siblings. *)
Definition with_context (v : t) (x : list JS.value) : t :=
  mk (daemonPubkey v) (daemonName v) (messageId v) (message v)
     (createdAt v) (approval v) (channelId v) (identityPrompt v)
     (Some x) (tools v) (generatedPrompt v) (output v)
     (hooks v) (hooksLog v) (actionsLog v) (postProcessLog v).

Definition with_generatedPrompt (v : t) (x : string) : t :=
  mk (daemonPubkey v) (daemonName v) (messageId v) (message v)
     (createdAt v) (approval v) (channelId v) (identityPrompt v)
     (context v) (tools v) (Some x) (output v)
     (hooks v) (hooksLog v) (actionsLog v) (postProcessLog v).

Definition with_output (v : t) (x : string) : t :=
  mk (daemonPubkey v) (daemonName v) (messageId v) (message v)
     (createdAt v) (approval v) (channelId v) (identityPrompt v)
     (context v) (tools v) (generatedPrompt v) (Some x)
     (hooks v) (hooksLog v) (actionsLog v) (postProcessLog v).

Definition with_actionsLog (v : t) (x : list JS.value) : t :=
  mk (daemonPubkey v) (daemonName v) (messageId v) (message v)
     (createdAt v) (approval v) (channelId v) (identityPrompt v)
     (context v) (tools v) (generatedPrompt v) (output v)
     (hooks v) (hooksLog v) (Some x) (postProcessLog v).

Definition with_hooksLog (v : t) (x : list JS.value) : t :=
  mk (daemonPubkey v) (daemonName v) (messageId v) (message v)
     (createdAt v) (approval v) (channelId v) (identityPrompt v)
     (context v) (tools v) (generatedPrompt v) (output v)
     (hooks v) (Some x) (actionsLog v) (postProcessLog v).

Definition with_postProcessLog (v : t) (x : list JS.value) : t :=
  mk (daemonPubkey v) (daemonName v) (messageId v) (message v)
     (createdAt v) (approval v) (channelId v) (identityPrompt v)
     (context v) (tools v) (generatedPrompt v) (output v)
     (hooks v) (hooksLog v) (actionsLog v) (Some x).

Definition hook_to_js (h : IHook) : JS.value :=
  JS.Obj [ ("daemonTool", JS.Str (daemonTool h));
           ("daemonArgs", JS.Obj [("payload", JS.Str (daemonArgs h))]);
           ("hookTool",
             JS.Obj [ ("hookServerUrl", JS.Str (hookServerUrl (hookTool h)));
                      ("toolName", JS.Str (hookToolName (hookTool h)));
                      ("toolArgs", JS.Obj (toolArgs (hookTool h))) ]);
           ("hookOutput", hookOutput h) ].

Definition field {A : Type} (k : string) (f : A -> JS.value)
    (x : option A) : list (string * JS.value) :=
  match x with
  | Some a => [(k, f a)]
  | None => []
  end.

(** The lifecycle value as the object handed to a tool. *)
Definition to_js (v : t) : JS.value :=
  JS.Obj
    (field "daemonPubkey" JS.Str (daemonPubkey v)
     ++ field "daemonName" JS.Str (daemonName v)
     ++ field "messageId" JS.Str (messageId v)
     ++ field "message" JS.Str (message v)
     ++ field "createdAt" JS.Str (createdAt v)
     ++ field "approval" JS.Str (approval v)
     ++ field "channelId" JS.Str (channelId v)
     ++ field "identityPrompt" JS.Str (identityPrompt v)
     ++ field "context" JS.Arr (context v)
     ++ field "tools" (fun l => JS.Arr (map JS.Str l)) (tools v)
     ++ field "generatedPrompt" JS.Str (generatedPrompt v)
     ++ field "output" JS.Str (output v)
     ++ field "hooks" (fun l => JS.Arr (map hook_to_js l)) (hooks v)
     ++ field "hooksLog" JS.Arr (hooksLog v)
     ++ field "actionsLog" JS.Arr (actionsLog v)
     ++ field "postProcessLog" JS.Arr (postProcessLog v)).

End Lifecycle.

(** [BehaviorSubject<Partial<IMessageLifecycle>>]: the value it was created
    with and every value passed to [next], oldest first. *)
Record BehaviorSubject : Type := mkSubject {
  initial : Lifecycle.t;
  published : list Lifecycle.t
}.

(** [subject.value]: the latest published value. *)
Definition value (s : BehaviorSubject) : Lifecycle.t :=
  last (published s) (initial s).

Definition next (s : BehaviorSubject) (v : Lifecycle.t) : BehaviorSubject :=
  mkSubject (initial s) (published s ++ [v]).

(* ================================================================== *)
(** ** The world outside the daemon *)

Inductive Event : Type :=
| EvConnect (url : string)
    (* a session to [url] is open: [client.connect] resolved *)
| EvCallTool (url : string) (tool : string) (arguments : JS.value)
    (* a tool invocation was sent over the session to [url] *)
| EvClose (url : string)
    (* the session to [url] was closed *)
| EvChat (provider model endpoint apiKey system prompt : string)
    (* a chat completion was requested *)
| EvStream (provider model endpoint apiKey system prompt : string)
      (tools : list string).
    (* a streamed generation was started, with these tools exposed *)

Inductive Outcome (A : Type) : Type :=
| Ok (a : A)
| Throw (e : JS.JSError).
Arguments Ok {A} a.
Arguments Throw {A} e.

(** How a text stream ends. *)
Inductive StreamEnd : Type :=
| Completed
| Failed (e : JS.JSError).

(** What the model does in one streamed generation, as the streaming
    adapter runs it: it sends a chunk of text, or it asks for a tool (the
    adapter then calls the [execute] registered under that name, if there
    is one, with the parameters it decoded, and the model goes on from the
    outcome), or the stream ends.  The bound on the model's steps
    ([maxSteps]) is the adapter's: the tree is what the model does within
    it. *)
Inductive TextStream : Type :=
| Chunk (chunk : string) (rest : TextStream)
| ToolCall (name : string) (parameters : JS.value)
    (resume : option (Outcome string) -> TextStream)
| Finished (fin : StreamEnd).

(** The collaborators, each answering from the events so far. *)
Record Env : Type := mkEnv {
  nanoid_at : nat -> string;          (* the n-th [nanoid()] *)
  now_at : nat -> string;             (* the n-th [new Date().toISOString()] *)
  nacl_sign_detached : list byte -> list byte -> list byte;
  connect_reply : list Event -> string -> option JS.JSError;
  tool_reply : list Event -> string -> string -> JS.value -> Outcome JS.value;
  chat_reply : list Event -> Outcome (option string);
      (* [response.choices[0].message.content] *)
  stream_reply : list Event -> TextStream;
      (* what an iteration of [result.textStream] goes through *)
  timeout_after : list Event -> option nat
      (* the thirty-second timer of [messageWithTools]: [Some n] when it
         runs out after the subscription has published [n] values and
         before it publishes the next, [None] when the subscription is
         over before it runs out *)
}.

Record State : Type := mkState {
  events : list Event;                (* oldest first *)
  lifecycle : option BehaviorSubject; (* the container, once created *)
  ids_drawn : nat;
  clock_reads : nat
}.

Definition initial_state : State := mkState [] None 0 0.

(* ================================================================== *)
(** ** The monad of [async] methods *)

Definition M (A : Type) : Type := State -> Outcome A * State.

Definition ret {A : Type} (a : A) : M A := fun st => (Ok a, st).

Definition bind {A B : Type} (m : M A) (k : A -> M B) : M B :=
  fun st =>
    match m st with
    | (Ok a, st') => k a st'
    | (Throw e, st') => (Throw e, st')
    end.

Definition throw {A : Type} (e : JS.JSError) : M A := fun st => (Throw e, st).

(** [try { m } catch (e) { handler(e) }]. *)
Definition try_catch {A : Type} (m : M A) (handler : JS.JSError -> M A) : M A :=
  fun st =>
    match m st with
    | (Ok a, st') => (Ok a, st')
    | (Throw e, st') => handler e st'
    end.

Definition lift {A : Type} (o : Outcome A) : M A := fun st => (o, st).

Declare Scope async_scope.
Delimit Scope async_scope with async.
Notation "x <- c1 ;; c2" := (bind c1 (fun x => c2))
  (at level 61, c1 at next level, right associativity) : async_scope.
Notation "c1 ;; c2" := (bind c1 (fun _ => c2))
  (at level 61, right associativity) : async_scope.
Local Open Scope async_scope.

(** [await Promise.all(l.map(f))], sequenced left to right: the first
    failure ends the wait, and what the calls after it go on to do is not
    recorded. *)
Fixpoint all {A B : Type} (f : A -> M B) (l : list A) : M (list B) :=
  match l with
  | [] => ret []
  | a :: rest =>
      b <- f a ;;
      bs <- all f rest ;;
      ret (b :: bs)
  end.

Definition log (ev : Event) : M unit :=
  fun st =>
    (Ok tt, mkState (events st ++ [ev]) (lifecycle st)
                    (ids_drawn st) (clock_reads st)).

(** [nanoid()]. *)
Definition nanoid (env : Env) : M string :=
  fun st =>
    (Ok (nanoid_at env (ids_drawn st)),
     mkState (events st) (lifecycle st) (S (ids_drawn st)) (clock_reads st)).

(** [new Date().toISOString()]. *)
Definition now (env : Env) : M string :=
  fun st =>
    (Ok (now_at env (clock_reads st)),
     mkState (events st) (lifecycle st) (ids_drawn st) (S (clock_reads st))).

(** [new BehaviorSubject({})]. *)
Definition new_lifecycle : M unit :=
  fun st =>
    (Ok tt, mkState (events st) (Some (mkSubject Lifecycle.empty []))
                    (ids_drawn st) (clock_reads st)).

(** [lifecycle.value]; the methods read the container after creating it. *)
Definition lifecycle_value : M Lifecycle.t :=
  fun st =>
    match lifecycle st with
    | Some s => (Ok (value s), st)
    | None => (Throw (JS.TypeError "lifecycle is not defined"), st)
    end.

(** [lifecycle.next(v)]. *)
Definition lifecycle_next (v : Lifecycle.t) : M unit :=
  fun st =>
    match lifecycle st with
    | Some s =>
        (Ok tt, mkState (events st) (Some (next s v))
                        (ids_drawn st) (clock_reads st))
    | None => (Throw (JS.TypeError "lifecycle is not defined"), st)
    end.

(* ================================================================== *)
(** ** The MCP client *)

Record Client : Type := mkClient {
  clientName : string;
  transport : option string   (* the URL of the open session, if any *)
}.

(** [new Client({name, version: "1.0.0"}, {capabilities: {}})]. *)
Definition new_Client (name : string) : Client := mkClient name None.

(** [await client.connect(new SSEClientTransport(new URL(url)))]. *)
Definition Client_connect (env : Env) (c : Client) (url : string) : M Client :=
  fun st =>
    match connect_reply env (events st) url with
    | Some e => (Throw e, st)
    | None => (_ <- log (EvConnect url) ;;
               ret (mkClient (clientName c) (Some url))) st
    end.

(** [await client.callTool({name, arguments})]: the SDK rejects a request
    on a client without a transport with "Not connected". *)
Definition Client_callTool (env : Env) (c : Client)
    (name : string) (arguments : JS.value) : M JS.value :=
  match transport c with
  | None => throw (JS.Error "Not connected")
  | Some url =>
      fun st =>
        (_ <- log (EvCallTool url name arguments) ;;
         lift (tool_reply env (events st) url name arguments)) st
  end.

(** [client.close()]. *)
Definition Client_close (c : Client) : M unit :=
  match transport c with
  | None => ret tt
  | Some url => log (EvClose url)
  end.

(* ================================================================== *)
(** ** The remote tool client of the daemon *)

(** The check [callTool] makes on one declared parameter: the error it
    throws, if any. *)
Definition check_parameter (args : JS.object) (parameter : ToolParameter)
    : option JS.JSError :=
  let v := JS.get args (pname parameter) in
  if String.eqb (ptype parameter) "string" then
    if negb (String.eqb (JS.typeof v) "string")
    then Some (JS.Error (pname parameter ++ " must be a string")) else None
  else if String.eqb (ptype parameter) "number" then
    if negb (String.eqb (JS.typeof v) "number")
    then Some (JS.Error (pname parameter ++ " must be a number")) else None
  else if String.eqb (ptype parameter) "boolean" then
    if negb (String.eqb (JS.typeof v) "boolean")
    then Some (JS.Error (pname parameter ++ " must be a boolean")) else None
  else if String.eqb (ptype parameter) "array" then
    if negb (JS.isArray v)
    then Some (JS.Error (pname parameter ++ " must be an array")) else None
  else if String.eqb (ptype parameter) "object" then
    if negb (String.eqb (JS.typeof v) "object")
    then Some (JS.Error (pname parameter ++ " must be an object")) else None
  else None.

(** The loop over [tool.parameters]. *)
Fixpoint check_parameters (args : JS.object) (ps : list ToolParameter)
    : M unit :=
  match ps with
  | [] => ret tt
  | parameter :: rest =>
      match check_parameter args parameter with
      | Some e => throw e
      | None => check_parameters args rest
      end
  end.

(** Ensure URL ends with /sse. *)
Definition sseUrl (url : string) : string :=
  if JS.endsWith url "/sse" then url else url ++ "/sse".

(** [Daemon.callTool]. *)
Definition callTool (env : Env) (tool : ToolProvider) (args : JS.object)
    : M JS.value :=
  let client := new_Client (serverUrl tool) in
  client <- Client_connect env client (sseUrl (serverUrl tool)) ;;
  (* Check that args are valid *)
  _ <- check_parameters args (parameters tool) ;;
  result <- Client_callTool env client (toolName tool) (JS.Obj args) ;;
  _ <- Client_close client ;;
  ret result.

(* ================================================================== *)
(** ** Signing and approvals *)

Definition utf8 (s : string) : list byte := list_byte_of_string s.

(** [Daemon.sign]: the payload is a base64 string. *)
Definition sign (env : Env) (d : Daemon) (payload : string) : Outcome string :=
  match keypair d with
  | None => Throw (JS.Error "Keypair not found")
  | Some kp =>
      let messageBytes := Base64.decode payload in
      let signature := nacl_sign_detached env messageBytes (secretKey kp) in
      Ok (Base64.encode signature)
  end.

(** [JSON.stringify({message, createdAt, messageId, channelId}, null, 0)]. *)
Definition envelope (message createdAt messageId channelId : string) : string :=
  "{" ++ JSON.quote "message" ++ ":" ++ JSON.quote message
  ++ "," ++ JSON.quote "createdAt" ++ ":" ++ JSON.quote createdAt
  ++ "," ++ JSON.quote "messageId" ++ ":" ++ JSON.quote messageId
  ++ "," ++ JSON.quote "channelId" ++ ":" ++ JSON.quote channelId
  ++ "}".

(** [Daemon.generateApproval]. *)
Definition generateApproval (env : Env) (d : Daemon)
    (message createdAt messageId : string) (channelId : option string)
    : Outcome string :=
  match keypair d with
  | None => Throw (JS.Error "Keypair not found")
  | Some _ =>
      let messageBytes :=
        utf8 (envelope message createdAt messageId (JS.nullish channelId "")) in
      sign env d (Base64.encode messageBytes)
  end.

(* ================================================================== *)
(** ** The hook callback *)

(** [Daemon.hook].  The output of the internal tool is kept in a local
    name; the source stores it in [hook.hookOutput] and reads it back. *)
Definition hook (env : Env) (d : Daemon) (h : IHook) : M JS.value :=
  (* Call the internal tool *)
  hookOutput' <-
    (if String.eqb (daemonTool h) "sign"
     then (s <- lift (sign env d (daemonArgs h)) ;; ret (JS.Str s))
     else ret (hookOutput h)) ;;
  (* Create a client for the temp server *)
  let client := new_Client (hookServerUrl (hookTool h)) in
  (* Call the tool *)
  Client_callTool env client (hookToolName (hookTool h))
    (JS.Obj (JS.set (toolArgs (hookTool h)) "daemonOutput" hookOutput')).

(* ================================================================== *)
(** ** Text generation ([llm.ts]) *)

(** [SYSTEM_PROMPT] of [llm.ts], line by line. *)
Definition SYSTEM_PROMPT : string :=
  String.concat nl
    [ "";
      "You are an AI agent operating within a framework that provides you with:";
      "- An identity (who you are and your core traits)";
      "- Context (memories and relevant information)";
      "- Tools (capabilities you can use)";
      "";
      "# Core Principles";
      "1. Maintain consistent personality and behavior aligned with your identity";
      "2. Use provided context to inform your responses";
      "3. Consider past interactions when making decisions";
      "4. Use available tools appropriately to accomplish tasks";
      "";
      "# Input Structure";
      "Each interaction will provide:";
      "- Identity Prompt: Your specific role and personality";
      "- Message: The user's current request/message";
      "- Context: Relevant memories and information";
      "";
      "# Response Protocol";
      "1. First, process your identity and maintain that persona";
      "2. Review provided context and incorporate relevant information";
      "3. Analyze the user's message";
      "4. Formulate a response that:";
      "   - Stays true to your defined identity";
      "   - Incorporates relevant context naturally";
      "   - Uses appropriate tools when needed";
      "   - Maintains conversation history coherence";
      "   - Keep your responses concise";
      "   ";
      "It's *very* important that if you do not know something, then you don't make something up.";
      "";
      "# Memory Usage Guidelines";
      "- Reference provided memories naturally, as a person would recall information";
      "- Don't explicitly mention that you're using RAG or accessing memories";
      "- Integrate past knowledge smoothly into conversations";
      "";
      "# Tool Usage Guidelines";
      "- Use tools when they would genuinely help accomplish the task";
      "- Maintain in-character behavior while using tools";
      "- Only use tools that have been explicitly provided";
      "";
      "Remember: You are not just processing queries - you are embodying a specific identity with consistent traits, memories, and capabilities.";
      "" ].

(** The text [Array.prototype.join] gives an element; a number, being a
    safe integer, prints in decimal. *)
Fixpoint toString (v : JS.value) : string :=
  match v with
  | JS.Undefined => "undefined"
  | JS.Null => "null"
  | JS.Bool b => if b then "true" else "false"
  | JS.Number n => NilZero.string_of_uint (N.to_uint n)
  | JS.Str s => s
  | JS.Arr elems =>
      String.concat ","
        (map (fun x => match x with
                       | JS.Undefined | JS.Null => ""
                       | _ => toString x
                       end) elems)
  | JS.Obj _ => "[object Object]"
  | JS.Function => "function () { [native code] }"
  end.

(** [l.join(sep)]. *)
Definition join (sep : string) (l : list JS.value) : string :=
  String.concat sep
    (map (fun x => match x with
                   | JS.Undefined | JS.Null => ""
                   | _ => toString x
                   end) l).

(** [createPrompt]. *)
Definition createPrompt (daemonName identityPrompt message : string)
    (context : list JS.value) (tools : list string) : string :=
  nl ++ "  # Name" ++ nl
  ++ "  " ++ daemonName ++ nl
  ++ nl
  ++ "  # Identity Prompt" ++ nl
  ++ "  " ++ identityPrompt ++ nl
  ++ nl
  ++ "  # User Message" ++ nl
  ++ "  " ++ message ++ nl
  ++ "  " ++ nl
  ++ "  # Context" ++ nl
  ++ "  " ++ join nl context ++ nl
  ++ nl
  ++ "  # Tools" ++ nl
  ++ "  " ++ String.concat nl tools ++ nl
  ++ "  ".

Definition supported_provider (provider : string) : bool :=
  String.eqb provider "openai" || String.eqb provider "openrouter".

Definition system_or_default (systemPrompt : string) : string :=
  if String.eqb systemPrompt "" then SYSTEM_PROMPT else systemPrompt.

(** [genText]. *)
Definition genText (env : Env)
    (provider model endpoint apiKey systemPrompt prompt : string) : M string :=
  try_catch
    (if supported_provider provider then
       fun st =>
         (_ <- log (EvChat provider model endpoint apiKey
                      (system_or_default systemPrompt) prompt) ;;
          content <- lift (chat_reply env (events st)) ;;
          ret (JS.nullish content "")) st
     else throw (JS.Error ("Unsupported provider: " ++ provider)))
    (fun e => throw (JS.Error ("Error generating text: " ++ JS.error_toString e))).

(* ================================================================== *)
(** ** Reading a tool result *)

(** [s.includes(sub)] on strings. *)
Definition includes (s sub : string) : bool :=
  match index 0 sub s with
  | Some _ => true
  | None => false
  end.

Definition cannot_read {A : Type} (what k : string) : Outcome A :=
  Throw (JS.TypeError
           ("Cannot read properties of " ++ what ++ " (reading '" ++ k ++ "')")).

(** [v.k] for a name [k] that only [Object.prototype] may define, as
    [content] and [text] are: reading it from [undefined] or [null]
    throws, a plain object answers with its own or inherited member, every
    other value with what [Object.prototype] gives. *)
Definition property (v : JS.value) (k : string) : Outcome JS.value :=
  match v with
  | JS.Undefined => cannot_read "undefined" k
  | JS.Null => cannot_read "null" k
  | JS.Obj props => Ok (JS.get props k)
  | _ => Ok (JS.inherited k)
  end.

(** [v[0]]. *)
Definition first (v : JS.value) : Outcome JS.value :=
  match v with
  | JS.Undefined => cannot_read "undefined" "0"
  | JS.Null => cannot_read "null" "0"
  | JS.Arr elems => Ok (nth 0 elems JS.Undefined)
  | JS.Str (String c _) => Ok (JS.Str (String c EmptyString))
  | JS.Obj props => Ok (JS.get props "0")
  | _ => Ok JS.Undefined
  end.

(** [result.content[0].text]. *)
Definition first_text (result : JS.value) : Outcome JS.value :=
  match property result "content" with
  | Ok serverInfo =>
      match first serverInfo with
      | Ok block => property block "text"
      | Throw e => Throw e
      end
  | Throw e => Throw e
  end.

(** [text.includes("Error")]: a string looks for the substring, an array
    for an element; the other values have no such method (a result is
    decoded JSON: none of its objects holds a function). *)
Definition includes_Error (text : JS.value) : Outcome bool :=
  match text with
  | JS.Undefined => cannot_read "undefined" "includes"
  | JS.Null => cannot_read "null" "includes"
  | JS.Str s => Ok (includes s "Error")
  | JS.Arr elems =>
      Ok (existsb (fun x => match x with
                            | JS.Str s => String.eqb s "Error"
                            | _ => false
                            end) elems)
  | _ => Throw (JS.TypeError "serverInfo[0].text.includes is not a function")
  end.

(** [Daemon.addAllToolsByProvider]: the daemon it leaves.  [JSON_parse] is
    [JSON.parse(text) as ToolProvider[]]: the decoded list, or the error of
    the parser. *)
Definition addAllToolsByProvider (env : Env)
    (JSON_parse : string -> Outcome (list ToolProvider))
    (d : Daemon) (url : string) : M Daemon :=
  let client := new_Client url in
  (* Ensure URL ends with /sse *)
  client <- Client_connect env client (sseUrl url) ;;
  result <- Client_callTool env client "getDaemonServerInfo" (JS.Obj []) ;;
  text <- lift (first_text result) ;;
  isError <- lift (includes_Error text) ;;
  if (isError : bool) then throw (JS.Error (toString text))
  else
    toolsList <- lift (JSON_parse (toString text)) ;;
    ret (fold_left (fun d tool => addSingleToolFromProvider tool d)
           toolsList d).

(** The test [execute] makes on a result:
    [Array.isArray(result.content) && result.content.length > 0
     && typeof result.content[0].text === 'string']. *)
Definition result_text (result : JS.value) : Outcome string :=
  match property result "content" with
  | Ok (JS.Arr (block :: _)) =>
      match property block "text" with
      | Ok (JS.Str s) => Ok s
      | Ok _ => Throw (JS.Error "Unexpected result format")
      | Throw e => Throw e
      end
  | Ok _ => Throw (JS.Error "Unexpected result format")
  | Throw e => Throw e
  end.

(** The [execute] that [genTextWithTools] gives the model for tool [t]. *)
Definition execute (env : Env) (t : ToolProvider) (parameters : JS.value)
    : M string :=
  let client := new_Client (serverUrl t) in
  (* Ensure URL ends with /sse *)
  client <- Client_connect env client (sseUrl (serverUrl t)) ;;
  result <- Client_callTool env client (toolName t) parameters ;;
  _ <- Client_close client ;;
  lift (result_text result).

(* ================================================================== *)
(** ** The streaming strategy ([genTextWithTools]) *)

(** An array index: the canonical decimal of a natural below [2^32 - 1]. *)
Definition array_index (k : string) : option N :=
  match NilZero.uint_of_string k with
  | Some u =>
      let n := N.of_uint u in
      if String.eqb (NilZero.string_of_uint (N.to_uint n)) k
         && (n <? 4294967295)%N
      then Some n else None
  | None => None
  end.

Fixpoint insert_index (n : N) (l : list N) : list N :=
  match l with
  | [] => [n]
  | m :: rest =>
      if (n <? m)%N then n :: l
      else if (n =? m)%N then l
      else m :: insert_index n rest
  end.

(** [Object.keys(tSet)] after [tSet[name] = ...] for each of the names in
    turn: a name assigned twice has one key; the keys that are array
    indices come first, in ascending order, the others follow in the order
    of their first assignment.  An assignment to [__proto__] sets the
    prototype and adds no key. *)
Definition own_keys (names : list string) : list string :=
  map (fun n => NilZero.string_of_uint (N.to_uint n))
    (fold_left
       (fun acc k =>
          match array_index k with
          | Some n => insert_index n acc
          | None => acc
          end) names [])
  ++ fold_left
       (fun acc k =>
          match array_index k with
          | Some _ => acc
          | None =>
              if String.eqb k "__proto__" || existsb (String.eqb k) acc
              then acc else acc ++ [k]
          end) names [].

(** The tool whose [execute] is [tSet[name]]: the last one assigned under
    the name. *)
Definition tSet_get (tools : list ToolProvider) (name : string)
    : option ToolProvider :=
  find (fun t => String.eqb (toolName t) name) (rev tools).

(** What an observer of the text stream receives. *)
Inductive Notification : Type :=
| Next (output : string)
| Complete
| Error (e : JS.JSError).

(** The observer given to [subscribe]: its three handlers. *)
Record Observer : Type := mkObserver {
  on_next : string -> M unit;
  on_error : JS.JSError -> M unit;
  on_complete : M unit
}.

(** The observable [genTextWithTools] returns: the tools whose [execute]
    the adapter holds, and the variable [output] of the closure, which
    every subscription reads and writes. *)
Record Observable : Type := mkObservable {
  o_tools : list ToolProvider;
  o_output : string
}.

(** A computation that settles either way: its outcome as a value. *)
Definition attempt {A : Type} (m : M A) : M (Outcome A) :=
  fun st => let '(r, st') := m st in (Ok r, st').

(** A call of a handler of the observer: a handler that throws does not
    stop the stream, its error is reported apart. *)
Definition deliver (handler : M unit) : M unit :=
  try_catch handler (fun _ => ret tt).

(** [streamHandler], run on what the text stream goes through: for each
    chunk [output += chunk] and [observer.next(output)]; at the end
    [observer.complete()], or [observer.error(error)] when the iteration
    throws.  Between two chunks the adapter runs the tools the model asks
    for.  The result is the list of the notifications delivered, with the
    last [output]. *)
Fixpoint streamHandler (env : Env) (tools : list ToolProvider)
    (observer : Observer) (output : string) (textStream : TextStream)
    : M (list Notification * string) :=
  match textStream with
  | Chunk chunk rest =>
      let output := (output ++ chunk)%string in
      _ <- deliver (on_next observer output) ;;
      r <- streamHandler env tools observer output rest ;;
      ret (Next output :: fst r, snd r)
  | ToolCall name parameters resume =>
      match tSet_get tools name with
      | Some t =>
          result <- attempt (execute env t parameters) ;;
          streamHandler env tools observer output (resume (Some result))
      | None => streamHandler env tools observer output (resume None)
      end
  | Finished Completed =>
      _ <- deliver (on_complete observer) ;;
      ret ([Complete], output)
  | Finished (Failed error) =>
      _ <- deliver (on_error observer error) ;;
      ret ([Error error], output)
  end.

(** [observable.subscribe(observer)]: one run of [streamHandler] over an
    iteration of [result.textStream], from the [output] the closure holds.
    It gives the notifications delivered and the observable as the
    subscription leaves it. *)
Definition Observable_subscribe (env : Env) (o : Observable)
    (observer : Observer) : M (list Notification * Observable) :=
  fun st =>
    (r <- streamHandler env (o_tools o) observer (o_output o)
            (stream_reply env (events st)) ;;
     ret (fst r, mkObservable (o_tools o) (snd r))) st.

(** [genTextWithTools]: the tools are keyed by name in [tSet], the
    generation is started with [streamText], and the observable over its
    text stream is returned with [output] empty. *)
Definition genTextWithTools (env : Env)
    (providerName modelId endpoint apiKey systemPrompt prompt : string)
    (tools : list ToolProvider) : M Observable :=
  try_catch
    (if supported_provider providerName then
       _ <- log (EvStream providerName modelId endpoint apiKey
                   (system_or_default systemPrompt) prompt
                   (own_keys (map toolName tools))) ;;
       ret (mkObservable tools "")
     else throw (JS.Error ("Unsupported provider: " ++ providerName)))
    (fun e => throw (JS.Error ("Error generating text: " ++ JS.error_toString e))).

(* ================================================================== *)
(** ** Message options *)

Module LLM.
(** [opts.llm]. *)
Record t : Type := mk {
  provider : string;
  model : string;
  endpoint : option string;
  apiKey : option string;
  systemPrompt : option string
}.
End LLM.

Module Stages.
(** [opts.stages]. *)
Record t : Type := mk {
  context : option bool;
  actions : option bool;
  postProcess : option bool
}.
End Stages.

Module Opts.
Record t : Type := mk {
  channelId : option string;
  stages : option Stages.t;
  toolArgs : option JS.object;   (* key = [serverUrl-toolName] *)
  llm : option LLM.t
}.
End Opts.

(** [o?.f]: the field of an optional record. *)
Definition opt {A B : Type} (o : option A) (f : A -> option B) : option B :=
  match o with
  | Some a => f a
  | None => None
  end.

(* ================================================================== *)
(** ** Choosing the model *)

(** [Object.keys(a)] for an array [a]: its indices, in decimal. *)
Definition Object_keys {A : Type} (a : list A) : list string :=
  map (fun i => NilZero.string_of_uint (Nat.to_uint i)) (seq 0 (length a)).

(** [this.models.find(p => p.provider === provider)]. *)
Definition find_provider (d : Daemon) (provider' : string)
    : option ModelProvider :=
  find (fun p => String.eqb (provider p) provider') (d_models d).

Record Chosen : Type := mkChosen {
  c_provider : string;
  c_model : string;
  c_apiKey : string;
  c_endpoint : string
}.

(** The opening of [message] and of [messageWithTools], up to the last of
    the four checks. *)
Definition chooseLLM (d : Daemon) (opts : option Opts.t) : Outcome Chosen :=
  let llm := opt opts Opts.llm in
  if Nat.eqb (length (Object_keys (d_models d))) 0
     && (match llm with Some _ => false | None => true end)
  then Throw (JS.Error "No model provider added")
  else
    (* Pick and LLM based on Opts or first provider / model in the list *)
    let provider :=
      match opt llm (fun l => Some (LLM.provider l)) with
      | Some p => Some p
      | None => nth_error (Object_keys (d_models d)) 0
      end in
    match provider with
    | None => Throw (JS.Error "No LLM provider chosen")
    | Some provider =>
      if JS.falsy provider then Throw (JS.Error "No LLM provider chosen")
      else
        let model :=
          JS.nullish
            (match opt llm (fun l => Some (LLM.model l)) with
             | Some m => Some m
             | None => opt (find_provider d provider)
                           (fun p => nth_error (models p) 0)
             end) "" in
        if JS.falsy model then Throw (JS.Error "No LLM model chosen")
        else
          let apiKey :=
            JS.nullish
              (match opt llm LLM.apiKey with
               | Some k => Some k
               | None => opt (find_provider d provider)
                             (fun p => Some (apiKey p))
               end) "" in
          if JS.falsy apiKey then Throw (JS.Error "No LLM API key chosen")
          else
            let endpoint :=
              JS.nullish
                (match opt llm LLM.endpoint with
                 | Some e => Some e
                 | None => opt (find_provider d provider)
                               (fun p => Some (endpoint p))
                 end) "" in
            if JS.falsy endpoint then Throw (JS.Error "No LLM endpoint chosen")
            else Ok (mkChosen provider model apiKey endpoint)
    end.

(* ================================================================== *)
(** ** The stages *)

Definition DEFAULT_IDENTITY_PROMPT (name : string) : string :=
  nl ++ "You are " ++ name
  ++ ". Keep your responses concise and to the point." ++ nl ++ "  ".

(** The object published at the base stage.  Its fields are evaluated in
    the order of the literal: [messageId] and [createdAt] first, then the
    arguments of [generateApproval], which read the clock and the
    identifier source again. *)
Definition base_lifecycle (env : Env) (d : Daemon) (message : string)
    (opts : option Opts.t) : M Lifecycle.t :=
  daemonPubkey <-
    match keypair d with
    | Some kp => ret (publicKeyBase58 kp)
    | None =>
        throw (JS.TypeError "Cannot read properties of null (reading 'publicKey')")
    end ;;
  let daemonName := name (character d) in
  messageId <- nanoid env ;;
  createdAt <- now env ;;
  approval_createdAt <- now env ;;
  approval_messageId <- nanoid env ;;
  approval <-
    lift (generateApproval env d message approval_createdAt
            approval_messageId (opt opts Opts.channelId)) ;;
  ret (Lifecycle.mk
         (Some daemonPubkey) (Some daemonName) (Some messageId)
         (Some message) (Some createdAt) (Some approval)
         (opt opts Opts.channelId)
         (Some (JS.nullish (identityPrompt (character d))
                  (DEFAULT_IDENTITY_PROMPT (name (character d)))))
         (Some []) (Some []) (Some "") (Some "")
         (Some []) (Some []) (Some []) (Some [])).

(** [opts?.toolArgs?.[`${tool.serverUrl}-${tool.toolName}`] ?? {}]. *)
Definition args_for (opts : option Opts.t) (tool : ToolProvider) : JS.value :=
  match opt opts Opts.toolArgs with
  | None => JS.Obj []
  | Some toolArgs =>
      match JS.get toolArgs (serverUrl tool ++ "-" ++ toolName tool) with
      | JS.Undefined | JS.Null => JS.Obj []
      | v => v
      end
  end.

(** One fan-out: [callTool] on every registered tool of the role, with
    [{lifecycle: lifecycle.value, args: ...}], then [Promise.all]. *)
Definition callTools (env : Env) (d : Daemon) (role : string)
    (opts : option Opts.t) : M (list JS.value) :=
  v <- lifecycle_value ;;
  all (fun tool =>
         callTool env tool
           [ ("lifecycle", Lifecycle.to_js v); ("args", args_for opts tool) ])
      (filter (fun tool => String.eqb (type tool) role) (d_tools d)).

(** fetchContext *)
Definition fetchContext (env : Env) (d : Daemon) (opts : option Opts.t)
    : M unit :=
  contextResults <- callTools env d "context" opts ;;
  v <- lifecycle_value ;;
  lifecycle_next (Lifecycle.with_context v contextResults).

(** Generate Prompt *)
Definition generatePrompt : M unit :=
  v <- lifecycle_value ;;
  lifecycle_next
    (Lifecycle.with_generatedPrompt v
       (createPrompt
          (JS.nullish (Lifecycle.daemonName v) "")
          (JS.nullish (Lifecycle.identityPrompt v) "")
          (JS.nullish (Lifecycle.message v) "")
          (JS.nullish (Lifecycle.context v) [])
          (JS.nullish (Lifecycle.tools v) []))).

(** The action stage: the action tools, then the hooks of the lifecycle. *)
Definition takeActions (env : Env) (d : Daemon) (opts : option Opts.t)
    : M unit :=
  actionResults <- callTools env d "action" opts ;;
  v <- lifecycle_value ;;
  _ <- lifecycle_next (Lifecycle.with_actionsLog v actionResults) ;;
  v <- lifecycle_value ;;
  hookResults <- all (hook env d) (JS.nullish (Lifecycle.hooks v) []) ;;
  v <- lifecycle_value ;;
  lifecycle_next (Lifecycle.with_hooksLog v hookResults).

(** The post-process stage. *)
Definition postProcessStage (env : Env) (d : Daemon) (opts : option Opts.t)
    : M unit :=
  postProcessResults <- callTools env d "postProcess" opts ;;
  v <- lifecycle_value ;;
  lifecycle_next (Lifecycle.with_postProcessLog v postProcessResults).

Definition when (b : bool) (m : M unit) : M unit :=
  if b then m else ret tt.

Definition stage (opts : option Opts.t) (f : Stages.t -> option bool) : bool :=
  JS.nullish (opt (opt opts Opts.stages) f) true.

(** [return lifecycle]. *)
Definition return_lifecycle : M BehaviorSubject :=
  fun st =>
    match lifecycle st with
    | Some s => (Ok s, st)
    | None => (Throw (JS.TypeError "lifecycle is not defined"), st)
    end.

Definition failed_at_step {A : Type} (e : JS.JSError) : M A :=
  throw (JS.Error ("Failed at step: " ++ JS.error_toString e)).

(* ================================================================== *)
(** ** [Daemon.message] *)

Definition message (env : Env) (d : Daemon) (message : string)
    (opts : option Opts.t) : M BehaviorSubject :=
  try_catch
    (chosen <- lift (chooseLLM d opts) ;;
     let context := stage opts Stages.context in
     let actions := stage opts Stages.actions in
     let postProcess := stage opts Stages.postProcess in
     _ <- new_lifecycle ;;
     (* Base *)
     base <- base_lifecycle env d message opts ;;
     _ <- lifecycle_next base ;;
     _ <- when context (fetchContext env d opts) ;;
     _ <- generatePrompt ;;
     (* Generate Text *)
     v <- lifecycle_value ;;
     output <- genText env (c_provider chosen) (c_model chosen)
                 (c_endpoint chosen) (c_apiKey chosen)
                 (JS.nullish (opt (opt opts Opts.llm) LLM.systemPrompt) "")
                 (JS.nullish (Lifecycle.generatedPrompt v) "") ;;
     _ <- lifecycle_next (Lifecycle.with_output v output) ;;
     _ <- when actions (takeActions env d opts) ;;
     _ <- when postProcess (postProcessStage env d opts) ;;
     return_lifecycle)
    failed_at_step.

(* ================================================================== *)
(** ** [Daemon.messageWithTools] *)

(** The [next] handler of [messageWithTools]:
    [lifecycle.next({...lifecycle.value, output})]. *)
Definition publish_output (output : string) : M unit :=
  v <- lifecycle_value ;;
  lifecycle_next (Lifecycle.with_output v output).

(** The observer [messageWithTools] subscribes.  [next] republishes the
    lifecycle with the new output; [error] rejects the completion promise;
    [complete] runs the action and post-process stages and resolves it (a
    failure in a stage leaves the promise pending). *)
Definition completion_observer (env : Env) (d : Daemon)
    (opts : option Opts.t) : Observer :=
  mkObserver
    publish_output
    (fun error => ret tt)
    (_ <- when (stage opts Stages.actions) (takeActions env d opts) ;;
     when (stage opts Stages.postProcess) (postProcessStage env d opts)).


(** [outputStream.subscribe({next, error, complete})]. *)
Definition subscribe (env : Env) (d : Daemon) (opts : option Opts.t)
    (outputStream : Observable) : M unit :=
  _ <- Observable_subscribe env outputStream (completion_observer env d opts) ;;
  ret tt.

(** The number of values published to the container so far. *)
Definition published_count : M nat :=
  fun st =>
    (Ok (match lifecycle st with
         | Some s => length (published s)
         | None => 0
         end), st).

(** [await Promise.race([completionPromise, timeoutPromise])] inside its
    [try]: the wait ends when the promise settles or when the thirty
    seconds run out, whichever is first; a rejection and the timeout are
    caught and logged.  The subscription goes on after a timeout: the
    state after the wait is the state once the subscription is over, with
    every value it publishes and every event it leaves, and the result
    tells when the timer ran out. *)
Definition await_completion (env : Env) (completion : M unit)
    : M (option nat) :=
  fun st =>
    (_ <- try_catch completion (fun _ => ret tt) ;;
     ret (timeout_after env (events st))) st.

(** The container as the caller finds it when the call returns: with
    the values published by then. *)
Definition seen (before : nat) (timeout : option nat) (s : BehaviorSubject)
    : BehaviorSubject :=
  match timeout with
  | Some n => mkSubject (initial s) (firstn (before + n) (published s))
  | None => s
  end.

Definition messageWithTools (env : Env) (d : Daemon) (message : string)
    (opts : option Opts.t) : M BehaviorSubject :=
  try_catch
    (chosen <- lift (chooseLLM d opts) ;;
     _ <- new_lifecycle ;;
     (* Base *)
     base <- base_lifecycle env d message opts ;;
     _ <- lifecycle_next base ;;
     _ <- when (stage opts Stages.context) (fetchContext env d opts) ;;
     _ <- generatePrompt ;;
     (* Generate Text with Tools *)
     v <- lifecycle_value ;;
     outputStream <-
       genTextWithTools env (c_provider chosen) (c_model chosen)
         (c_endpoint chosen) (c_apiKey chosen)
         (JS.nullish (opt (opt opts Opts.llm) LLM.systemPrompt) "")
         (JS.nullish (Lifecycle.generatedPrompt v) "")
         (filter (fun t => String.eqb (type t) "ondemand") (d_tools d)) ;;
     before <- published_count ;;
     timeout <- await_completion env (subscribe env d opts outputStream) ;;
     lifecycle <- return_lifecycle ;;
     ret (seen before timeout lifecycle))
    failed_at_step.

(* ================================================================== *)
(** ** What the parameter check accepts *)

(** The values a declared type lets through, by their shape: [typeof]
    answers "object" for [null] and for arrays as well, and a declared type
    outside the five is not checked. *)
Definition accepts (declared : string) (v : JS.value) : bool :=
  if String.eqb declared "string" then
    match v with JS.Str _ => true | _ => false end
  else if String.eqb declared "number" then
    match v with JS.Number _ => true | _ => false end
  else if String.eqb declared "boolean" then
    match v with JS.Bool _ => true | _ => false end
  else if String.eqb declared "array" then
    match v with JS.Arr _ => true | _ => false end
  else if String.eqb declared "object" then
    match v with JS.Obj _ | JS.Arr _ | JS.Null => true | _ => false end
  else true.

Definition accepted (args : JS.object) (parameter : ToolParameter) : bool :=
  accepts (ptype parameter) (JS.get args (pname parameter)).

(** Modelled from the spec: "[args[parameter.name]] matches the declared
    primitive type ([string], [number], [boolean], [array], [object])" of
    section 4.1, each of the five names standing for the JSON type of that
    name. *)
Definition matches_declared_type (declared : string) (v : JS.value) : bool :=
  match v with
  | JS.Str _ => String.eqb declared "string"
  | JS.Number _ => String.eqb declared "number"
  | JS.Bool _ => String.eqb declared "boolean"
  | JS.Arr _ => String.eqb declared "array"
  | JS.Obj _ => String.eqb declared "object"
  | _ => false
  end.

(** The five declared types that [callTool] checks. *)
Definition checked_types : list string :=
  [ "string"; "number"; "boolean"; "array"; "object" ].

(** The state after [st] with further events logged. *)
Definition after (st : State) (evs : list Event) : State :=
  mkState (events st ++ evs) (lifecycle st) (ids_drawn st) (clock_reads st).

(* ================================================================== *)
(** ** Invariants of a message call *)

(** [quiet m]: running [m] does not touch the lifecycle container. *)
Definition quiet {A : Type} (m : M A) : Prop :=
  forall st, lifecycle (snd (m st)) = lifecycle st.

(** A lifecycle value whose hooks and hook log are both the empty list. *)
Definition hooks_empty (v : Lifecycle.t) : Prop :=
  Lifecycle.hooks v = Some [] /\ Lifecycle.hooksLog v = Some [].

(** The container exists, [base] was the first value published to it, and
    every value published so far has empty hooks and hook log. *)
Definition Inv (base : Lifecycle.t) (st : State) : Prop :=
  exists s,
    lifecycle st = Some s
    /\ nth_error (published s) 0 = Some base
    /\ Forall hooks_empty (published s).

(** [keeps base m Q]: [m] maintains the invariant, whatever its outcome,
    and a value it returns satisfies [Q]. *)
Definition keeps {A : Type} (base : Lifecycle.t) (m : M A) (Q : A -> Prop)
    : Prop :=
  forall st,
    Inv base st ->
    Inv base (snd (m st)) /\ forall a, fst (m st) = Ok a -> Q a.

(** The state once the container is created. *)
Definition started (st : State) : State :=
  mkState (events st) (Some (mkSubject Lifecycle.empty []))
          (ids_drawn st) (clock_reads st).

(** How a message call ends, from the state [st] it starts in: at a failed
    configuration check, with the state untouched; or at a failure of the
    base stage, with an empty container; or with a container whose first
    value is the base lifecycle and which satisfies the invariant. *)
Definition message_post (env : Env) (d : Daemon) (msg : string)
    (opts : option Opts.t) (st : State)
    (r : Outcome BehaviorSubject * State) : Prop :=
  match chooseLLM d opts with
  | Throw e => r = (Throw (JS.Error ("Failed at step: " ++ JS.error_toString e)), st)
  | Ok _ =>
      match base_lifecycle env d msg opts (started st) with
      | (Throw e, st1) =>
          r = (Throw (JS.Error ("Failed at step: " ++ JS.error_toString e)), st1)
      | (Ok base, _) => Inv base (snd r)
      end
  end.

(** Distinct messages never share a signature under one key. *)
Definition signer_injective (env : Env) : Prop :=
  forall sk m1 m2,
    nacl_sign_detached env m1 sk = nacl_sign_detached env m2 sk -> m1 = m2.

(** Every character, for checks by enumeration. *)
Definition all_ascii : list ascii := map ascii_of_nat (seq 0 256).

(* ================================================================== *)
(** ** Sample data, after the test suite *)

Definition openai_first : ModelProvider :=
  mkModelProvider "openai" ["gpt-4o-mini"] "sk-first" "https://api.openai.com/v1".

Definition openai_second : ModelProvider :=
  mkModelProvider "openai" ["gpt-4-turbo"] "new-api-key" "https://api.openai.com/v1/".

Definition test_character : Character :=
  mkCharacter "TestDaemon" "pubkey58"
    (Some "You are TestDaemon, a helpful assistant for testing.").

Definition test_keypair : Keypair := mkKeypair "pubkey58" [x01; x02; x03].

Definition empty_daemon : Daemon :=
  mkDaemon test_character (Some test_keypair) [] [].

Definition test_daemon : Daemon := addModelProvider openai_first empty_daemon.

Definition sample_ids (n : nat) : string :=
  match n with
  | 0 => "V1StGXR8_Z5jdHi6B-myT"
  | 1 => "Uakgb_J5m9g-0JDMbcJqL"
  | _ => "IRFa-VaY2b0Xk3Z1q9wLp"
  end.

(** A stand-in for the signature: the key followed by the message. *)
Definition sample_signature (msg sk : list byte) : list byte := sk ++ msg.

Definition hello_reply (args : JS.value) : JS.value :=
  JS.Obj [ ("content",
            JS.Arr [ JS.Obj [ ("type", JS.Str "text");
                              ("text", JS.Str "Hello World") ] ]) ].

(** Servers that accept every session and answer every call, a clock that
    does not advance between two readings. *)
Definition sample_env : Env :=
  mkEnv sample_ids
        (fun _ => "2025-04-14T10:00:00.000Z")
        sample_signature
        (fun _ _ => None)
        (fun _ _ _ args => Ok (hello_reply args))
        (fun _ => Ok (Some "Paris"))
        (fun _ => Chunk "Hel" (Chunk "lo " (Chunk "World" (Finished Completed))))
        (fun _ => None).

Definition hello_tool : ToolProvider :=
  mkToolProvider "http://localhost:3000" "hello" "ondemand" "Say hello"
    [ mkToolParameter "name" "string" "The name to say hello to" ].

Definition hello_session : string := "http://localhost:3000/sse".



Definition good_args : JS.object := [ ("name", JS.Str "World") ].

Definition bad_args : JS.object := [ ("name", JS.Number 42) ].

Definition sign_hook : IHook :=
  mkHook "sign" "aGVsbG8="
    (mkHookTool "http://localhost:3000" "onSigned" [ ("requestId", JS.Str "r1") ])
    JS.Undefined.


Definition sample_opts : option Opts.t :=
  Some (Opts.mk None None None
          (Some (LLM.mk "openai" "gpt-4o-mini"
                   (Some "https://api.openai.com/v1") (Some "sk-test") None))).

(** A daemon with a tool of each stage. *)
Definition busy_daemon : Daemon :=
  mkDaemon test_character (Some test_keypair) [openai_first]
    [ mkToolProvider "http://localhost:3002" "recall" "context"
        "Recall memories" [ mkToolParameter "lifecycle" "object" "The lifecycle" ];
      mkToolProvider "http://localhost:3003" "post" "action"
        "Post the answer" [];
      mkToolProvider "http://localhost:3002" "store" "postProcess"
        "Store the exchange" [];
      hello_tool ].

Definition container_of (r : Outcome BehaviorSubject * State) : BehaviorSubject :=
  match lifecycle (snd r) with
  | Some s => s
  | None => mkSubject Lifecycle.empty []
  end.

Definition sample_subject : BehaviorSubject :=
  container_of (message sample_env busy_daemon "Hello" sample_opts initial_state).

Definition sample_base : Lifecycle.t :=
  nth 0 (published sample_subject) Lifecycle.empty.


(* ================================================================== *)
(** ** The ways through a text stream *)

(** One step of a way through a text stream: a chunk, or a tool request
    with what the adapter gave back for it. *)
Inductive Part : Type :=
| Text (chunk : string)
| Called (name : string) (parameters : JS.value)
    (result : option (Outcome string)).

(** [unfolds s parts fin]: [parts], then the end [fin], is a way through
    the stream [s]. *)
Inductive unfolds : TextStream -> list Part -> StreamEnd -> Prop :=
| unfolds_Finished (fin : StreamEnd) : unfolds (Finished fin) [] fin
| unfolds_Chunk (chunk : string) (rest : TextStream) (parts : list Part)
    (fin : StreamEnd) :
    unfolds rest parts fin ->
    unfolds (Chunk chunk rest) (Text chunk :: parts) fin
| unfolds_ToolCall (name : string) (parameters : JS.value)
    (resume : option (Outcome string) -> TextStream)
    (result : option (Outcome string)) (parts : list Part)
    (fin : StreamEnd) :
    unfolds (resume result) parts fin ->
    unfolds (ToolCall name parameters resume)
      (Called name parameters result :: parts) fin.

(** The chunks of a way through a stream. *)
Fixpoint texts (parts : list Part) : list string :=
  match parts with
  | [] => []
  | Text chunk :: rest => chunk :: texts rest
  | Called _ _ _ :: rest => texts rest
  end.

(** The running totals of a list of chunks, from [output]. *)
Fixpoint totals (output : string) (chunks : list string) : list string :=
  match chunks with
  | [] => []
  | chunk :: rest =>
      let output := (output ++ chunk)%string in
      output :: totals output rest
  end.


(* ================================================================== *)
(** ** Specifications of [async] computations *)

(** [triple P m Q E]: from a state that satisfies [P], [m] either returns
    a value [a] in a state that satisfies [Q a], or throws an error [e] in
    a state that satisfies [E e]. *)
Definition triple {A : Type} (P : State -> Prop) (m : M A)
    (Q : A -> State -> Prop) (E : JS.JSError -> State -> Prop) : Prop :=
  forall st,
    P st ->
    match m st with
    | (Ok a, st') => Q a st'
    | (Throw e, st') => E e st'
    end.

(** The events logged since [before] all satisfy [allowed]. *)
Definition since (allowed : Event -> Prop) (before : list Event) (st : State)
    : Prop :=
  exists evs, events st = before ++ evs /\ Forall allowed evs.

(** [emits allowed m]: every event [m] logs satisfies [allowed], and [m]
    removes none. *)
Definition emits {A : Type} (allowed : Event -> Prop) (m : M A) : Prop :=
  forall st, since allowed (events st) (snd (m st)).

(** The container exists and satisfies [K]. *)
Definition on_container (K : BehaviorSubject -> Prop) (st : State) : Prop :=
  exists s, lifecycle st = Some s /\ K s.

(** The value a stage other than generation publishes, from the current
    one: one log or the prompt replaced. *)
Inductive staged (v : Lifecycle.t) : Lifecycle.t -> Prop :=
| staged_context (x : list JS.value) : staged v (Lifecycle.with_context v x)
| staged_generatedPrompt (x : string) :
    staged v (Lifecycle.with_generatedPrompt v x)
| staged_actionsLog (x : list JS.value) :
    staged v (Lifecycle.with_actionsLog v x)
| staged_hooksLog (x : list JS.value) :
    staged v (Lifecycle.with_hooksLog v x)
| staged_postProcessLog (x : list JS.value) :
    staged v (Lifecycle.with_postProcessLog v x).

(** [K] survives the publication of a staged value. *)
Definition stable (K : BehaviorSubject -> Prop) : Prop :=
  forall s v', K s -> staged (value s) v' -> K (next s v').

(** The fields the base stage sets and no stage writes again. *)
Definition identity (v : Lifecycle.t) :=
  (Lifecycle.daemonPubkey v, Lifecycle.daemonName v, Lifecycle.messageId v,
   Lifecycle.message v, Lifecycle.createdAt v, Lifecycle.approval v,
   Lifecycle.channelId v, Lifecycle.identityPrompt v, Lifecycle.tools v).

(** [base] was published first, and every published value has the
    identity fields of [base]. *)
Definition frozen (base : Lifecycle.t) (s : BehaviorSubject) : Prop :=
  nth_error (published s) 0 = Some base
  /\ Forall (fun v => identity v = identity base) (published s).

(** Something was published, and the current output is [out]. *)
Definition output_is (out : string) (s : BehaviorSubject) : Prop :=
  published s <> [] /\ Lifecycle.output (value s) = Some out.

(** The container of a streamed generation that has yielded [chunks]:
    after the values [pre] that were there when the stream began, it holds
    one value per chunk, with the running totals as outputs, and then (once
    the stream has [ended]) values that keep the last total. *)
Definition streamed (base : Lifecycle.t) (pre : list Lifecycle.t)
    (chunks : list string) (ended : bool) (s : BehaviorSubject) : Prop :=
  frozen base s
  /\ output_is (String.concat "" chunks) s
  /\ exists mid post,
       published s = pre ++ mid ++ post
       /\ map Lifecycle.output mid = map Some (totals "" chunks)
       /\ Forall
            (fun v => Lifecycle.output v = Some (String.concat "" chunks))
            post
       /\ (ended = false -> post = []).

(* ================================================================== *)
(** ** The events a message call may log *)

(** The stage of a role is enabled. *)
Definition enabled (opts : option Opts.t) (role : string) : Prop :=
  (role = "context" /\ stage opts Stages.context = true)
  \/ (role = "action" /\ stage opts Stages.actions = true)
  \/ (role = "postProcess" /\ stage opts Stages.postProcess = true).

(** The events of one [callTool]. *)
Definition tool_event (tool : ToolProvider) (args : JS.object) (ev : Event)
    : Prop :=
  match ev with
  | EvConnect url => url = sseUrl (serverUrl tool)
  | EvCallTool url name' arguments =>
      url = sseUrl (serverUrl tool) /\ name' = toolName tool
      /\ arguments = JS.Obj args
  | EvClose url => url = sseUrl (serverUrl tool)
  | _ => False
  end.

(** An event of the fan-out of a stage: a session with a registered tool
    whose stage is enabled, called with the lifecycle and its arguments. *)
Definition stage_event (d : Daemon) (opts : option Opts.t) (ev : Event)
    : Prop :=
  exists tool v,
    In tool (d_tools d) /\ enabled opts (type tool)
    /\ tool_event tool
         [ ("lifecycle", Lifecycle.to_js v); ("args", args_for opts tool) ] ev.

(** The request of a generation for the chosen model. *)
Definition chosen_request (opts : option Opts.t) (chosen : Chosen)
    (provider model endpoint apiKey system : string) : Prop :=
  provider = c_provider chosen /\ model = c_model chosen
  /\ endpoint = c_endpoint chosen /\ apiKey = c_apiKey chosen
  /\ supported_provider provider = true
  /\ system
     = system_or_default
         (JS.nullish (opt (opt opts Opts.llm) LLM.systemPrompt) "").

(** What [message] may log. *)
Definition message_event (d : Daemon) (opts : option Opts.t) (ev : Event)
    : Prop :=
  stage_event d opts ev
  \/ match ev with
     | EvChat provider model endpoint apiKey system _ =>
         exists chosen,
           chooseLLM d opts = Ok chosen
           /\ chosen_request opts chosen provider model endpoint apiKey system
     | _ => False
     end.

(** The events of one [execute] of a tool, whatever the parameters. *)
Definition execute_event (tool : ToolProvider) (ev : Event) : Prop :=
  match ev with
  | EvConnect url => url = sseUrl (serverUrl tool)
  | EvCallTool url name' _ =>
      url = sseUrl (serverUrl tool) /\ name' = toolName tool
  | EvClose url => url = sseUrl (serverUrl tool)
  | _ => False
  end.

(** An event of a tool call of the model: a session with a registered
    tool of type "ondemand". *)
Definition ondemand_event (d : Daemon) (ev : Event) : Prop :=
  exists tool,
    In tool (d_tools d) /\ type tool = "ondemand" /\ execute_event tool ev.

(** What [messageWithTools] may log. *)
Definition messageWithTools_event (d : Daemon) (opts : option Opts.t)
    (ev : Event) : Prop :=
  stage_event d opts ev
  \/ ondemand_event d ev
  \/ match ev with
     | EvStream provider model endpoint apiKey system _ tools =>
         (exists chosen,
            chooseLLM d opts = Ok chosen
            /\ chosen_request opts chosen provider model endpoint apiKey system)
         /\ tools
            = own_keys
                (map toolName
                   (filter (fun t => String.eqb (type t) "ondemand")
                      (d_tools d)))
     | _ => False
     end.

Definition is_generation (ev : Event) : Prop :=
  match ev with
  | EvChat _ _ _ _ _ _ => True
  | EvStream _ _ _ _ _ _ _ => True
  | _ => False
  end.

(** The error [message] and [messageWithTools] throw: the cause, wrapped. *)
Definition wrapped (e : JS.JSError) : Prop :=
  exists cause,
    e = JS.Error ("Failed at step: " ++ JS.error_toString cause).

(** The base lifecycle of a call that starts in state [st]. *)
Definition base_of (env : Env) (d : Daemon) (msg : string)
    (opts : option Opts.t) (st : State) (base : Lifecycle.t) : Prop :=
  exists st1, base_lifecycle env d msg opts (started st) = (Ok base, st1).

(** Where a call that starts in [st] can stop: before the container is
    created, before anything is published, or with the base lifecycle
    published and its identity fields kept. *)
Definition stopped (env : Env) (d : Daemon) (msg : string)
    (opts : option Opts.t) (st st' : State) : Prop :=
  st' = st
  \/ lifecycle st' = Some (mkSubject Lifecycle.empty [])
  \/ exists base,
       base_of env d msg opts st base /\ on_container (frozen base) st'.

(** An event other than the start of a generation. *)
Definition no_generation (ev : Event) : Prop := ~ is_generation ev.

(* ================================================================== *)
(** ** Further sample data *)

(** Servers whose tools fail, a model whose stream breaks after one chunk. *)
Definition failing_env : Env :=
  mkEnv sample_ids
        (fun _ => "2025-04-14T10:00:00.000Z")
        sample_signature
        (fun _ _ => None)
        (fun _ _ _ _ => Throw (JS.Error "tool failed"))
        (fun _ => Ok (Some "Paris"))
        (fun _ => Chunk "Par" (Finished (Failed (JS.Error "stream broke"))))
        (fun _ => None).

(** A daemon with one action tool. *)
Definition action_daemon : Daemon :=
  mkDaemon test_character (Some test_keypair) [openai_first]
    [ mkToolProvider "http://localhost:3003" "post" "action"
        "Post the answer" [] ].

(** A model that asks for the [hello] tool after its first chunk, and a
    wait that ends after one published value. *)
Definition slow_env : Env :=
  mkEnv sample_ids
        (fun _ => "2025-04-14T10:00:00.000Z")
        sample_signature
        (fun _ _ => None)
        (fun _ _ _ args => Ok (hello_reply args))
        (fun _ => Ok (Some "Paris"))
        (fun _ =>
           Chunk "Hel"
             (ToolCall "hello" (JS.Obj good_args)
                (fun result =>
                   Chunk "lo "
                     (Chunk (match result with
                             | Some (Ok text) => text
                             | _ => "?"
                             end)
                        (Finished Completed)))))
        (fun _ => Some 1).

(** What a call returned, if it returned. *)
Definition returned_of (r : Outcome BehaviorSubject * State)
    : BehaviorSubject :=
  match fst r with
  | Ok s => s
  | Throw _ => mkSubject Lifecycle.empty []
  end.

Definition slow_returned : BehaviorSubject :=
  returned_of
    (messageWithTools slow_env busy_daemon "Hello" sample_opts initial_state).

Definition anthropic_opts : option Opts.t :=
  Some (Opts.mk None None None
          (Some (LLM.mk "anthropic" "claude-3" (Some "https://api.anthropic.com")
                   (Some "sk-test") None))).

Definition keyless_daemon : Daemon :=
  mkDaemon test_character None [openai_first] [].

(** The tools a server lists, as text. *)
Definition listed_tools : list ToolProvider :=
  [ hello_tool;
    mkToolProvider "http://localhost:3000" "recall" "context"
      "Recall what was said" [] ].

Definition sample_parse (text : string) : Outcome (list ToolProvider) :=
  if String.eqb text "[hello, recall]" then Ok listed_tools
  else Throw (JS.mkError "SyntaxError" "Unexpected token").

Definition text_result (text : string) : JS.value :=
  JS.Obj [ ("content",
            JS.Arr [ JS.Obj [ ("type", JS.Str "text");
                              ("text", JS.Str text) ] ]) ].

(** A server that lists its tools, and one that reports a failure. *)
Definition listing_env : Env :=
  mkEnv sample_ids (fun _ => "2025-04-14T10:00:00.000Z") sample_signature
        (fun _ _ => None)
        (fun _ _ _ _ => Ok (text_result "[hello, recall]"))
        (fun _ => Ok (Some "Paris"))
        (fun _ => Finished Completed)
        (fun _ => None).

Definition refusing_env : Env :=
  mkEnv sample_ids (fun _ => "2025-04-14T10:00:00.000Z") sample_signature
        (fun _ _ => None)
        (fun _ _ _ _ => Ok (text_result "Internal Error: no tools"))
        (fun _ => Ok (Some "Paris"))
        (fun _ => Finished Completed)
        (fun _ => None).

(* ================================================================== *)
(** * Properties *)

(* ================================================================== *)
(** ** The model registry *)

Lemma same_provider_eq (q p : ModelProvider) :
  same_provider q p = true <-> provider q = provider p.
Proof. unfold same_provider. apply String.eqb_eq. Qed.

Lemma find_same_provider_some (p : ModelProvider) (ms : list ModelProvider) :
  In (provider p) (map provider ms) ->
  exists q, find (fun q => same_provider q p) ms = Some q.
Proof.
  induction ms as [|m ms IH]; simpl; intros H.
  - contradiction.
  - destruct (same_provider m p) eqn:E.
    + now exists m.
    + destruct H as [H|H].
      * apply same_provider_eq in H. congruence.
      * auto.
Qed.

Lemma find_same_provider_none (p : ModelProvider) (ms : list ModelProvider) :
  ~ In (provider p) (map provider ms) ->
  find (fun q => same_provider q p) ms = None.
Proof.
  intros H. destruct (find _ ms) as [q|] eqn:E; [|reflexivity].
  apply find_some in E. destruct E as [Hin Hq].
  apply same_provider_eq in Hq. exfalso. apply H.
  rewrite <- Hq. now apply in_map.
Qed.

Lemma replace_keeps_names (p : ModelProvider) (ms : list ModelProvider) :
  map provider (map (fun q => if same_provider q p then p else q) ms)
  = map provider ms.
Proof.
  induction ms as [|m ms IH]; simpl; [reflexivity|].
  rewrite IH. f_equal.
  destruct (same_provider m p) eqn:E; [|reflexivity].
  symmetry. now apply same_provider_eq.
Qed.

(** C10: registering a provider whose name the registry already holds
    replaces the entries of that name in place: the length and the list of
    names are unchanged (so no duplicate appears), every entry of that name
    is now the new registration and every other entry is untouched.
    Registering a name the registry does not hold appends the provider, and
    the length grows by one. *)
Theorem addModelProvider_replaces_or_appends
    (p : ModelProvider) (d : Daemon) :
  (In (provider p) (map provider (d_models d)) ->
     length (d_models (addModelProvider p d)) = length (d_models d)
     /\ map provider (d_models (addModelProvider p d))
        = map provider (d_models d)
     /\ (NoDup (map provider (d_models d)) ->
         NoDup (map provider (d_models (addModelProvider p d))))
     /\ forall i q,
          nth_error (d_models d) i = Some q ->
          nth_error (d_models (addModelProvider p d)) i
          = Some (if String.eqb (provider q) (provider p) then p else q))
  /\ (~ In (provider p) (map provider (d_models d)) ->
     d_models (addModelProvider p d) = d_models d ++ [p]
     /\ length (d_models (addModelProvider p d)) = S (length (d_models d))).
Proof.
  simpl. unfold addModelProvider_models. split; intros H.
  - destruct (find_same_provider_some p (d_models d) H) as [q0 ->].
    pose proof (replace_keeps_names p (d_models d)) as Hnames.
    repeat split.
    + now rewrite length_map.
    + exact Hnames.
    + intros Hnd. now rewrite Hnames.
    + intros i q Hq. rewrite nth_error_map, Hq. reflexivity.
  - rewrite (find_same_provider_none p (d_models d) H). split.
    + reflexivity.
    + rewrite length_app. simpl. lia.
Qed.

(** The registry of the test suite: a second registration of "openai"
    keeps its length, the first registration on an empty registry appends. *)
Lemma addModelProvider_replaces_or_appends_witness :
  (In (provider openai_second) (map provider (d_models test_daemon))
   /\ length (d_models (addModelProvider openai_second test_daemon))
      = length (d_models test_daemon))
  /\ (~ In (provider openai_first) (map provider (d_models empty_daemon))
      /\ d_models (addModelProvider openai_first empty_daemon)
         = d_models empty_daemon ++ [openai_first]).
Proof.
  assert (H1 : In (provider openai_second) (map provider (d_models test_daemon)))
    by (simpl; now left).
  assert (H2 : ~ In (provider openai_first) (map provider (d_models empty_daemon)))
    by (simpl; tauto).
  destruct (addModelProvider_replaces_or_appends openai_second test_daemon)
    as [Hreplace _].
  destruct (addModelProvider_replaces_or_appends openai_first empty_daemon)
    as [_ Happend].
  split; split.
  - exact H1.
  - apply (Hreplace H1).
  - exact H2.
  - apply (Happend H2).
Defined.

Example replace_existing_model_provider :
  d_models (addModelProvider openai_second test_daemon) = [openai_second].
Proof. reflexivity. Qed.

(* ================================================================== *)
(** ** Strings *)

Lemma string_app_nil_r (s : string) : (s ++ "")%string = s.
Proof. induction s as [|c s IH]; simpl; [reflexivity | now rewrite IH]. Qed.

Lemma string_app_assoc (a b c : string) :
  ((a ++ b) ++ c)%string = (a ++ (b ++ c))%string.
Proof. induction a as [|x a IH]; simpl; [reflexivity | now rewrite IH]. Qed.


Lemma concat_empty_cons (x : string) (xs : list string) :
  String.concat "" (x :: xs) = (x ++ String.concat "" xs)%string.
Proof.
  destruct xs as [|y ys]; simpl.
  - now rewrite string_app_nil_r.
  - reflexivity.
Qed.

(* ================================================================== *)
(** ** The output stream *)





Lemma concat_empty_app (l l' : list string) :
  String.concat "" (l ++ l')
  = (String.concat "" l ++ String.concat "" l')%string.
Proof.
  induction l as [|c l IH]; [reflexivity|].
  change ((c :: l) ++ l') with (c :: (l ++ l')).
  now rewrite !concat_empty_cons, IH, string_app_assoc.
Qed.


Lemma attempt_ok {A : Type} (m : M A) (st : State) :
  attempt m st = (Ok (fst (m st)), snd (m st)).
Proof. unfold attempt. now destruct (m st). Qed.



(* ================================================================== *)
(** ** Choosing the model *)

Lemma Object_keys_first {A : Type} (a : A) (l : list A) :
  nth_error (Object_keys (a :: l)) 0 = Some "0".
Proof. reflexivity. Qed.

Lemma chooseLLM_no_provider (d : Daemon) (opts : option Opts.t) :
  d_models d = [] ->
  opt opts Opts.llm = None ->
  chooseLLM d opts = Throw (JS.Error "No model provider added").
Proof.
  intros Hmodels Hllm. unfold chooseLLM. rewrite Hmodels, Hllm. reflexivity.
Qed.

(** Without an override the provider is the first key of the [models]
    array, the index "0", and no registered provider has that name. *)
Lemma chooseLLM_first_key (d : Daemon) (opts : option Opts.t) :
  d_models d <> [] ->
  opt opts Opts.llm = None ->
  find_provider d "0" = None ->
  chooseLLM d opts = Throw (JS.Error "No LLM model chosen").
Proof.
  intros Hmodels Hllm Hfind. unfold chooseLLM. rewrite Hllm.
  destruct (d_models d) as [|m ms] eqn:E; [congruence|].
  rewrite Object_keys_first.
  change (Nat.eqb (length (Object_keys (m :: ms))) 0) with false.
  cbn [andb opt JS.falsy String.eqb Ascii.eqb Bool.eqb].
  rewrite Hfind. reflexivity.
Qed.

(** A choice that succeeds has passed the four checks. *)
Lemma chooseLLM_ok_nonempty (d : Daemon) (opts : option Opts.t) (c : Chosen) :
  chooseLLM d opts = Ok c ->
  c_provider c <> "" /\ c_model c <> "" /\ c_apiKey c <> ""
  /\ c_endpoint c <> "".
Proof.
  unfold chooseLLM.
  destruct (_ && _); [discriminate|].
  destruct (match opt (opt opts Opts.llm) _ with Some _ => _ | None => _ end)
    as [p|]; [|discriminate].
  destruct (JS.falsy p) eqn:Hp; [discriminate|].
  destruct (JS.falsy (JS.nullish _ "")) eqn:Hm in |- *; [discriminate|].
  destruct (JS.falsy (JS.nullish _ "")) eqn:Hk in |- *; [discriminate|].
  destruct (JS.falsy (JS.nullish _ "")) eqn:He in |- *; [discriminate|].
  intros E. injection E as <-. simpl.
  unfold JS.falsy in *.
  repeat split; apply String.eqb_neq; assumption.
Qed.

(** With an override that names a registered provider, the key and the
    endpoint the override leaves out come from that provider. *)
Lemma chooseLLM_override_by_name (d : Daemon) (opts : option Opts.t)
    (l : LLM.t) (p : ModelProvider) :
  opt opts Opts.llm = Some l ->
  LLM.apiKey l = None ->
  LLM.endpoint l = None ->
  find_provider d (LLM.provider l) = Some p ->
  LLM.provider l <> "" -> LLM.model l <> "" ->
  apiKey p <> "" -> endpoint p <> "" ->
  chooseLLM d opts
  = Ok (mkChosen (LLM.provider l) (LLM.model l) (apiKey p) (endpoint p)).
Proof.
  intros Hl Hk He Hfind Hp Hm Hpk Hpe. unfold chooseLLM.
  rewrite Hl. rewrite andb_false_r. cbn [opt JS.nullish].
  rewrite Hk, He, Hfind. cbn [opt JS.nullish]. unfold JS.falsy.
  rewrite (proj2 (String.eqb_neq _ _) Hp), (proj2 (String.eqb_neq _ _) Hm),
          (proj2 (String.eqb_neq _ _) Hpk), (proj2 (String.eqb_neq _ _) Hpe).
  reflexivity.
Qed.

(** The pipelines stop at the first failed check, with nothing done. *)
Lemma message_stops_at_choice (env : Env) (d : Daemon) (msg : string)
    (opts : option Opts.t) (st : State) (e : JS.JSError) :
  chooseLLM d opts = Throw e ->
  message env d msg opts st
  = (Throw (JS.Error ("Failed at step: " ++ JS.error_toString e)), st)
  /\ messageWithTools env d msg opts st
     = (Throw (JS.Error ("Failed at step: " ++ JS.error_toString e)), st).
Proof.
  intros H. unfold message, messageWithTools, try_catch, bind, lift.
  rewrite H. split; reflexivity.
Qed.

(** C8: with no model provider registered and no [llm] override, [message]
    (and [messageWithTools]) fails with the configuration error, and the
    state is the one it started from: no lifecycle container was created, no
    value published, no session opened, no tool or model called. *)
Theorem message_without_provider_fails (env : Env) (d : Daemon)
    (msg : string) (opts : option Opts.t) (st : State) :
  d_models d = [] ->
  opt opts Opts.llm = None ->
  message env d msg opts st
  = (Throw (JS.Error "Failed at step: Error: No model provider added"), st)
  /\ messageWithTools env d msg opts st
     = (Throw (JS.Error "Failed at step: Error: No model provider added"), st).
Proof.
  intros Hmodels Hllm.
  exact (message_stops_at_choice env d msg opts st _
           (chooseLLM_no_provider d opts Hmodels Hllm)).
Qed.

(** C5, as the code behaves: a daemon with registered providers, none of
    them named "0", and no [llm] override.  The provider resolves to "0",
    the first key of the [models] array; the model lookup finds no provider
    of that name, and both pipelines fail at the second check, whatever the
    first registered provider holds. *)
Theorem message_default_provider_is_an_index (env : Env) (d : Daemon)
    (msg : string) (opts : option Opts.t) (st : State) :
  d_models d <> [] ->
  opt opts Opts.llm = None ->
  find_provider d "0" = None ->
  message env d msg opts st
  = (Throw (JS.Error "Failed at step: Error: No LLM model chosen"), st)
  /\ messageWithTools env d msg opts st
     = (Throw (JS.Error "Failed at step: Error: No LLM model chosen"), st).
Proof.
  intros Hmodels Hllm Hfind.
  exact (message_stops_at_choice env d msg opts st _
           (chooseLLM_first_key d opts Hmodels Hllm Hfind)).
Qed.

(* ================================================================== *)
(** ** The remote tool client *)

(** The check of one parameter lets through exactly the accepted values,
    and its error starts with the parameter's name. *)
Lemma check_parameter_accepted (args : JS.object) (p : ToolParameter) :
  (accepted args p = true -> check_parameter args p = None)
  /\ (accepted args p = false ->
      exists what,
        check_parameter args p
        = Some (JS.Error (pname p ++ " must be " ++ what))).
Proof.
  unfold accepted, accepts, check_parameter.
  destruct (String.eqb (ptype p) "string").
  { destruct (JS.get args (pname p)); simpl; split; intros H;
      try discriminate; try reflexivity; now exists "a string". }
  destruct (String.eqb (ptype p) "number").
  { destruct (JS.get args (pname p)); simpl; split; intros H;
      try discriminate; try reflexivity; now exists "a number". }
  destruct (String.eqb (ptype p) "boolean").
  { destruct (JS.get args (pname p)); simpl; split; intros H;
      try discriminate; try reflexivity; now exists "a boolean". }
  destruct (String.eqb (ptype p) "array").
  { destruct (JS.get args (pname p)); simpl; split; intros H;
      try discriminate; try reflexivity; now exists "an array". }
  destruct (String.eqb (ptype p) "object").
  { destruct (JS.get args (pname p)); simpl; split; intros H;
      try discriminate; try reflexivity; now exists "an object". }
  split; intros H; [reflexivity | discriminate].
Qed.

Lemma check_parameters_pass (args : JS.object) (ps : list ToolParameter)
    (st : State) :
  Forall (fun q => accepted args q = true) ps ->
  check_parameters args ps st = (Ok tt, st).
Proof.
  induction 1 as [|q ps Hq _ IH]; simpl.
  - reflexivity.
  - now rewrite (proj1 (check_parameter_accepted args q) Hq).
Qed.

(** The loop stops at the first parameter that is not accepted. *)
Lemma check_parameters_first (args : JS.object)
    (pre post : list ToolParameter) (p : ToolParameter) (st : State) :
  Forall (fun q => accepted args q = true) pre ->
  accepted args p = false ->
  exists what,
    check_parameters args (pre ++ p :: post) st
    = (Throw (JS.Error (pname p ++ " must be " ++ what)), st).
Proof.
  intros Hpre Hp.
  destruct (proj2 (check_parameter_accepted args p) Hp) as [what Hwhat].
  exists what.
  induction Hpre as [|q pre Hq _ IH]; simpl.
  - now rewrite Hwhat.
  - now rewrite (proj1 (check_parameter_accepted args q) Hq).
Qed.

(** [callTool], once the session is open. *)
Lemma callTool_connected (env : Env) (tool : ToolProvider) (args : JS.object)
    (st : State) :
  connect_reply env (events st) (sseUrl (serverUrl tool)) = None ->
  callTool env tool args st
  = (_ <- check_parameters args (parameters tool) ;;
     result <- Client_callTool env
                 (mkClient (serverUrl tool) (Some (sseUrl (serverUrl tool))))
                 (toolName tool) (JS.Obj args) ;;
     _ <- Client_close
            (mkClient (serverUrl tool) (Some (sseUrl (serverUrl tool)))) ;;
     ret result)
      (after st [EvConnect (sseUrl (serverUrl tool))]).
Proof.
  intros Hc. unfold callTool, Client_connect, bind at 1. rewrite Hc.
  reflexivity.
Qed.



(** What the check refuses never matches its declared type; what it
    lets through without a match is [null] or an array for a parameter
    declared [object], or a value for a declared type that is none of the
    five. *)
Lemma accepts_matches_declared_type (declared : string) (v : JS.value) :
  (accepts declared v = false -> matches_declared_type declared v = false)
  /\ (accepts declared v = true ->
      matches_declared_type declared v = false ->
      (declared = "object" /\ (v = JS.Null \/ exists elems, v = JS.Arr elems))
      \/ ~ In declared checked_types).
Proof.
  unfold accepts, matches_declared_type, checked_types.
  destruct (String.eqb_spec declared "string") as [->|H1].
  { split; intros H; destruct v; simpl in *; try discriminate; reflexivity. }
  destruct (String.eqb_spec declared "number") as [->|H2].
  { split; intros H; destruct v; simpl in *; try discriminate; reflexivity. }
  destruct (String.eqb_spec declared "boolean") as [->|H3].
  { split; intros H; destruct v; simpl in *; try discriminate; reflexivity. }
  destruct (String.eqb_spec declared "array") as [->|H4].
  { split; intros H; destruct v; simpl in *; try discriminate; reflexivity. }
  destruct (String.eqb_spec declared "object") as [->|H5].
  { split; intros H; destruct v; simpl in *; try discriminate;
      try reflexivity; intros _; left; split; try reflexivity;
      [now left | right; now eexists]. }
  split; [discriminate|]. intros _ _. right. simpl. intuition congruence.
Qed.


Lemma Client_callTool_connected (env : Env) (name' url tool : string)
    (arguments : JS.value) (st : State) :
  Client_callTool env (mkClient name' (Some url)) tool arguments st
  = (tool_reply env (events st) url tool arguments,
     after st [EvCallTool url tool arguments]).
Proof. reflexivity. Qed.

(** C4, as the code behaves: what [callTool] does with the session it
    opened.  It closes the session after a successful invocation only.  When
    a parameter is rejected, the connect is the last event of the call; when
    the invocation fails, the invocation is: in both the session stays
    open. *)
Theorem callTool_closes_only_on_success (env : Env) (tool : ToolProvider)
    (args : JS.object) (st : State) :
  let url := sseUrl (serverUrl tool) in
  connect_reply env (events st) url = None ->
  (forall pre p post,
     parameters tool = pre ++ p :: post ->
     Forall (fun q => accepted args q = true) pre ->
     accepted args p = false ->
     exists e,
       callTool env tool args st = (Throw e, after st [EvConnect url]))
  /\ (Forall (fun q => accepted args q = true) (parameters tool) ->
      forall e,
        tool_reply env (events st ++ [EvConnect url]) url (toolName tool)
          (JS.Obj args) = Throw e ->
        callTool env tool args st
        = (Throw e,
           after st [EvConnect url; EvCallTool url (toolName tool) (JS.Obj args)]))
  /\ (Forall (fun q => accepted args q = true) (parameters tool) ->
      forall result,
        tool_reply env (events st ++ [EvConnect url]) url (toolName tool)
          (JS.Obj args) = Ok result ->
        callTool env tool args st
        = (Ok result,
           after st [EvConnect url; EvCallTool url (toolName tool) (JS.Obj args);
                     EvClose url])).
Proof.
  intros url Hc. split; [|split].
  - intros pre p post Hps Hpre Hp.
    destruct (check_parameters_first args pre post p
                (after st [EvConnect url]) Hpre Hp) as [what Hwhat].
    eexists. rewrite (callTool_connected env tool args st Hc).
    unfold bind at 1. fold url. rewrite Hps, Hwhat. reflexivity.
  - intros Hall e He.
    rewrite (callTool_connected env tool args st Hc).
    unfold bind at 1. rewrite (check_parameters_pass _ _ _ Hall).
    unfold bind at 1. rewrite Client_callTool_connected.
    fold url. simpl events. rewrite He.
    unfold after. simpl. now rewrite <- app_assoc.
  - intros Hall result Hr.
    rewrite (callTool_connected env tool args st Hc).
    unfold bind at 1. rewrite (check_parameters_pass _ _ _ Hall).
    unfold bind at 1. rewrite Client_callTool_connected.
    fold url. simpl events. rewrite Hr.
    unfold after, bind, Client_close, log, ret. simpl.
    now rewrite <- !app_assoc.
Qed.

(** The rejected call of the sample leaves its session open; the accepted
    call closes it. *)
Lemma callTool_closes_only_on_success_witness :
  (exists e,
     callTool sample_env hello_tool bad_args initial_state
     = (Throw e, after initial_state [EvConnect hello_session]))
  /\ callTool sample_env hello_tool good_args initial_state
     = (Ok (hello_reply (JS.Obj good_args)),
        after initial_state
          [EvConnect hello_session;
           EvCallTool hello_session "hello" (JS.Obj good_args);
           EvClose hello_session]).
Proof.
  destruct (callTool_closes_only_on_success sample_env hello_tool bad_args
              initial_state eq_refl) as (Hreject & _ & _).
  destruct (callTool_closes_only_on_success sample_env hello_tool good_args
              initial_state eq_refl) as (_ & _ & Hok).
  split.
  - apply (Hreject []
             (mkToolParameter "name" "string" "The name to say hello to") []).
    + reflexivity.
    + constructor.
    + reflexivity.
  - apply Hok.
    + repeat constructor.
    + reflexivity.
Defined.

(* ================================================================== *)
(** ** The hook callback *)

(** C2, as the code behaves: [hook] never opens a session.  It builds a
    client and invokes the callback tool on it without connecting, so the
    request is rejected: every hook fails, with no event of any kind, either
    in signing (no keypair) or with "Not connected". *)
Theorem hook_never_opens_session (env : Env) (d : Daemon) (h : IHook)
    (st : State) :
  exists e,
    hook env d h st = (Throw e, st)
    /\ (e = JS.Error "Not connected" \/ e = JS.Error "Keypair not found").
Proof.
  unfold hook, bind, lift, ret, Client_callTool, new_Client, throw. simpl.
  destruct (String.eqb (daemonTool h) "sign").
  - unfold sign. destruct (keypair d).
    + eexists. split; [reflexivity | now left].
    + eexists. split; [reflexivity | now right].
  - eexists. split; [reflexivity | now left].
Qed.

Example hook_sample :
  hook sample_env test_daemon sign_hook initial_state
  = (Throw (JS.Error "Not connected"), initial_state).
Proof. reflexivity. Qed.

(* ================================================================== *)
(** ** Base64 *)

Ltac euclid := zify; Z.to_euclidean_division_equations; lia.

Lemma sextet_table :
  forallb (fun k =>
             match Base64.sextet_of_char (Base64.char_of_sextet (N.of_nat k)) with
             | Some m => N.eqb m (N.of_nat k)
             | None => false
             end) (seq 0 64) = true.
Proof. vm_compute. reflexivity. Qed.

Lemma sextet_of_char_of_sextet (n : N) :
  (n < 64)%N ->
  Base64.sextet_of_char (Base64.char_of_sextet n) = Some n.
Proof.
  intros Hn.
  pose proof (proj1 (forallb_forall _ _) sextet_table (N.to_nat n)) as H.
  cbv beta in H. rewrite N2Nat.id in H.
  destruct (Base64.sextet_of_char (Base64.char_of_sextet n)) as [m|].
  - f_equal. apply N.eqb_eq. apply H. apply in_seq. lia.
  - assert (false = true) by (apply H; apply in_seq; lia). discriminate.
Qed.

Lemma byte_of_N_to_N (b : byte) : Base64.byte_of_N (Byte.to_N b) = b.
Proof.
  unfold Base64.byte_of_N.
  pose proof (Byte.to_N_bounded b) as Hb.
  rewrite N.mod_small by lia.
  now rewrite Byte.of_to_N.
Qed.

Lemma list_ind3 {A : Type} (P : list A -> Prop) :
  P [] ->
  (forall a, P [a]) ->
  (forall a b, P [a; b]) ->
  (forall a b c l, P l -> P (a :: b :: c :: l)) ->
  forall l, P l.
Proof.
  intros H0 H1 H2 H3.
  fix IH 1. intros [|a [|b [|c l]]].
  - exact H0.
  - apply H1.
  - apply H2.
  - apply H3. apply IH.
Qed.

Lemma padding_is_no_sextet : Base64.sextet_of_char "="%char = None.
Proof. reflexivity. Qed.

Ltac recompose b :=
  transitivity (Base64.byte_of_N (Byte.to_N b));
  [f_equal; euclid | apply byte_of_N_to_N].

Lemma decode_encode (bs : list byte) : Base64.decode (Base64.encode bs) = bs.
Proof.
  unfold Base64.decode.
  induction bs as [|a|a b|a b c rest IH] using list_ind3.
  - reflexivity.
  - pose proof (Byte.to_N_bounded a) as Ha.
    cbn [Base64.encode Base64.sextets].
    rewrite !sextet_of_char_of_sextet by euclid.
    rewrite padding_is_no_sextet.
    change (Ascii.eqb "="%char "="%char) with true.
    cbn [Base64.bytes_of_sextets].
    f_equal. recompose a.
  - pose proof (Byte.to_N_bounded a) as Ha.
    pose proof (Byte.to_N_bounded b) as Hb.
    cbn [Base64.encode Base64.sextets].
    rewrite !sextet_of_char_of_sextet by euclid.
    rewrite padding_is_no_sextet.
    change (Ascii.eqb "="%char "="%char) with true.
    cbn [Base64.bytes_of_sextets].
    f_equal; [recompose a | f_equal; recompose b].
  - pose proof (Byte.to_N_bounded a) as Ha.
    pose proof (Byte.to_N_bounded b) as Hb.
    pose proof (Byte.to_N_bounded c) as Hc.
    cbn [Base64.encode Base64.sextets].
    rewrite !sextet_of_char_of_sextet by euclid.
    cbn [Base64.bytes_of_sextets]. rewrite IH.
    f_equal; [recompose a | f_equal; [recompose b | f_equal; recompose c]].
Qed.

(* ================================================================== *)
(** ** The JSON envelope *)

Lemma string_app_inv_head (a x y : string) :
  (a ++ x)%string = (a ++ y)%string -> x = y.
Proof.
  induction a as [|c a IH]; simpl; intros H.
  - exact H.
  - injection H as H. auto.
Qed.

(** Two texts that start a common text: one is a prefix of the other. *)
Lemma app_eq_prefix (a b x y : string) :
  (a ++ x)%string = (b ++ y)%string ->
  String.prefix a b = true \/ String.prefix b a = true.
Proof.
  revert b. induction a as [|c a IH]; intros b H.
  - left. now destruct b.
  - destruct b as [|c' b].
    + now right.
    + simpl in H. injection H as Hc H. subst c'.
      simpl. destruct (ascii_dec c c) as [_|n]; [|now elim n].
      exact (IH b H).
Qed.

Lemma in_all_ascii (c : ascii) : In c all_ascii.
Proof.
  unfold all_ascii. rewrite <- (ascii_nat_embedding c).
  apply in_map. apply in_seq. pose proof (nat_ascii_bounded c). lia.
Qed.

Lemma escape_char_table :
  forallb (fun c1 =>
    forallb (fun c2 =>
      implb (String.prefix (JSON.escape_char c1) (JSON.escape_char c2))
            (Ascii.eqb c1 c2)) all_ascii) all_ascii = true.
Proof. vm_compute. reflexivity. Qed.

Lemma escape_char_prefix_free (c1 c2 : ascii) :
  String.prefix (JSON.escape_char c1) (JSON.escape_char c2) = true -> c1 = c2.
Proof.
  intros H.
  pose proof (proj1 (forallb_forall _ _) escape_char_table c1 (in_all_ascii c1))
    as H1. cbv beta in H1.
  pose proof (proj1 (forallb_forall _ _) H1 c2 (in_all_ascii c2)) as H2.
  cbv beta in H2. rewrite H in H2. simpl in H2. now apply Ascii.eqb_eq.
Qed.

Lemma escape_char_head_table :
  forallb (fun c =>
    match JSON.escape_char c with
    | String h _ => negb (Ascii.eqb h (ascii_of_N 34))
    | EmptyString => false
    end) all_ascii = true.
Proof. vm_compute. reflexivity. Qed.

Lemma escape_char_head (c : ascii) (x y : string) :
  (JSON.dquote ++ x)%string <> (JSON.escape_char c ++ y)%string.
Proof.
  pose proof (proj1 (forallb_forall _ _) escape_char_head_table c
                (in_all_ascii c)) as H. cbv beta in H.
  destruct (JSON.escape_char c) as [|h t]; [discriminate|].
  simpl. intros E. injection E as Eh _. subst h.
  simpl in H. discriminate.
Qed.

(** An escaped text is read back up to its closing quote. *)
Lemma escape_parse (s1 : string) :
  forall s2 r1 r2,
    (JSON.escape s1 ++ JSON.dquote ++ r1)%string
    = (JSON.escape s2 ++ JSON.dquote ++ r2)%string ->
    s1 = s2 /\ r1 = r2.
Proof.
  induction s1 as [|c1 s1 IH]; intros [|c2 s2] r1 r2 H.
  - split; [reflexivity | now injection H].
  - exfalso. cbn [JSON.escape] in H. rewrite string_app_assoc in H.
    exact (escape_char_head _ _ _ H).
  - exfalso. cbn [JSON.escape] in H. rewrite string_app_assoc in H.
    symmetry in H. exact (escape_char_head _ _ _ H).
  - cbn [JSON.escape] in H. rewrite !string_app_assoc in H.
    assert (c1 = c2) as <-.
    { destruct (app_eq_prefix _ _ _ _ H) as [P|P];
        apply escape_char_prefix_free in P; congruence. }
    apply string_app_inv_head in H.
    destruct (IH _ _ _ H) as [-> ->]. now split.
Qed.

Lemma quote_parse (s1 s2 r1 r2 : string) :
  (JSON.quote s1 ++ r1)%string = (JSON.quote s2 ++ r2)%string ->
  s1 = s2 /\ r1 = r2.
Proof.
  unfold JSON.quote. rewrite !string_app_assoc. intros H.
  apply string_app_inv_head in H.
  exact (escape_parse _ _ _ _ H).
Qed.

Lemma envelope_inj (m t i c m' t' i' c' : string) :
  envelope m t i c = envelope m' t' i' c' ->
  m = m' /\ t = t' /\ i = i' /\ c = c'.
Proof.
  unfold envelope. intros H.
  apply string_app_inv_head in H.
  apply quote_parse in H. destruct H as [_ H].
  apply string_app_inv_head in H.
  apply quote_parse in H. destruct H as [-> H].
  apply string_app_inv_head in H.
  apply quote_parse in H. destruct H as [_ H].
  apply string_app_inv_head in H.
  apply quote_parse in H. destruct H as [-> H].
  apply string_app_inv_head in H.
  apply quote_parse in H. destruct H as [_ H].
  apply string_app_inv_head in H.
  apply quote_parse in H. destruct H as [-> H].
  apply string_app_inv_head in H.
  apply quote_parse in H. destruct H as [_ H].
  apply string_app_inv_head in H.
  apply quote_parse in H. destruct H as [-> H].
  repeat split.
Qed.

(* ================================================================== *)
(** ** Computations that leave the container alone *)

Lemma quiet_ret {A : Type} (a : A) : quiet (ret a).
Proof. intros st. reflexivity. Qed.

Lemma quiet_throw {A : Type} (e : JS.JSError) : quiet (@throw A e).
Proof. intros st. reflexivity. Qed.

Lemma quiet_lift {A : Type} (o : Outcome A) : quiet (lift o).
Proof. intros st. reflexivity. Qed.

Lemma quiet_log (ev : Event) : quiet (log ev).
Proof. intros st. reflexivity. Qed.

Lemma quiet_bind {A B : Type} (m : M A) (k : A -> M B) :
  quiet m -> (forall a, quiet (k a)) -> quiet (bind m k).
Proof.
  intros Hm Hk st. unfold bind. specialize (Hm st).
  destruct (m st) as [[a|e] st1]; simpl in *.
  - now rewrite Hk.
  - exact Hm.
Qed.

Lemma quiet_try_catch {A : Type} (m : M A) (h : JS.JSError -> M A) :
  quiet m -> (forall e, quiet (h e)) -> quiet (try_catch m h).
Proof.
  intros Hm Hh st. unfold try_catch. specialize (Hm st).
  destruct (m st) as [[a|e] st1]; simpl in *.
  - exact Hm.
  - now rewrite Hh.
Qed.

Lemma quiet_all {A B : Type} (f : A -> M B) (l : list A) :
  (forall a, quiet (f a)) -> quiet (all f l).
Proof.
  intros Hf. induction l as [|a l IH]; simpl.
  - apply quiet_ret.
  - apply quiet_bind; [apply Hf|]. intros b.
    apply quiet_bind; [exact IH|]. intros bs. apply quiet_ret.
Qed.

Lemma quiet_history {A : Type} (f : list Event -> M A) :
  (forall evs, quiet (f evs)) -> quiet (fun st => f (events st) st).
Proof. intros H st. apply H. Qed.

Lemma quiet_check_parameters (args : JS.object) (ps : list ToolParameter) :
  quiet (check_parameters args ps).
Proof.
  induction ps as [|p ps IH]; simpl.
  - apply quiet_ret.
  - destruct (check_parameter args p); [apply quiet_throw | exact IH].
Qed.

Lemma quiet_Client_callTool (env : Env) (c : Client) (name' : string)
    (arguments : JS.value) :
  quiet (Client_callTool env c name' arguments).
Proof.
  unfold Client_callTool. destruct (transport c) as [url|].
  - apply (quiet_history
             (fun evs => _ <- log (EvCallTool url name' arguments) ;;
                         lift (tool_reply env evs url name' arguments))).
    intros evs. apply quiet_bind; [apply quiet_log|].
    intros _. apply quiet_lift.
  - apply quiet_throw.
Qed.

Lemma quiet_callTool (env : Env) (tool : ToolProvider) (args : JS.object) :
  quiet (callTool env tool args).
Proof.
  unfold callTool. apply quiet_bind.
  - intros st. unfold Client_connect.
    destruct (connect_reply env (events st) _); reflexivity.
  - intros client. apply quiet_bind; [apply quiet_check_parameters|].
    intros _. apply quiet_bind; [apply quiet_Client_callTool|].
    intros result. apply quiet_bind; [|intros _; apply quiet_ret].
    unfold Client_close. destruct (transport client);
      [apply quiet_log | apply quiet_ret].
Qed.

Lemma quiet_hook (env : Env) (d : Daemon) (h : IHook) : quiet (hook env d h).
Proof.
  unfold hook. apply quiet_bind.
  - destruct (String.eqb (daemonTool h) "sign"); [|apply quiet_ret].
    apply quiet_bind; [apply quiet_lift | intros s; apply quiet_ret].
  - intros out. apply quiet_Client_callTool.
Qed.

Lemma quiet_genText (env : Env) (p m e k sys prompt : string) :
  quiet (genText env p m e k sys prompt).
Proof.
  unfold genText. apply quiet_try_catch; [|intros err; apply quiet_throw].
  destruct (supported_provider p); [|apply quiet_throw].
  apply (quiet_history
           (fun evs => _ <- log _ ;; content <- lift (chat_reply env evs) ;;
                       ret (JS.nullish content ""))).
  intros evs. apply quiet_bind; [apply quiet_log|]. intros _.
  apply quiet_bind; [apply quiet_lift|]. intros c. apply quiet_ret.
Qed.

Lemma quiet_genTextWithTools (env : Env) (p m e k sys prompt : string)
    (tools : list ToolProvider) :
  quiet (genTextWithTools env p m e k sys prompt tools).
Proof.
  unfold genTextWithTools.
  apply quiet_try_catch; [|intros err; apply quiet_throw].
  destruct (supported_provider p); [|apply quiet_throw].
  apply quiet_bind; [apply quiet_log | intros u; apply quiet_ret].
Qed.

Lemma quiet_execute (env : Env) (t : ToolProvider) (parameters : JS.value) :
  quiet (execute env t parameters).
Proof.
  unfold execute. apply quiet_bind.
  - intros st. unfold Client_connect.
    destruct (connect_reply env (events st) _); reflexivity.
  - intros client. apply quiet_bind; [apply quiet_Client_callTool|].
    intros result. apply quiet_bind; [|intros u; apply quiet_lift].
    unfold Client_close. destruct (transport client);
      [apply quiet_log | apply quiet_ret].
Qed.

Lemma quiet_attempt {A : Type} (m : M A) : quiet m -> quiet (attempt m).
Proof.
  intros Hm st. unfold attempt. specialize (Hm st).
  now destruct (m st).
Qed.

Lemma quiet_base_lifecycle (env : Env) (d : Daemon) (msg : string)
    (opts : option Opts.t) :
  quiet (base_lifecycle env d msg opts).
Proof.
  unfold base_lifecycle. apply quiet_bind.
  - destruct (keypair d); [apply quiet_ret | apply quiet_throw].
  - intros pk. repeat (apply quiet_bind; [intros st; reflexivity | intros ?]).
    apply quiet_ret.
Qed.

(* ================================================================== *)
(** ** The invariant of a message call *)

Section Keeps.

Variable base : Lifecycle.t.

Lemma Inv_same (st st' : State) :
  lifecycle st' = lifecycle st -> Inv base st -> Inv base st'.
Proof. intros E (s & Hs & H). exists s. rewrite E. now split. Qed.

Lemma keeps_quiet {A : Type} (m : M A) :
  quiet m -> keeps base m (fun _ => True).
Proof.
  intros Hq st HI. split; [|trivial].
  exact (Inv_same st _ (Hq st) HI).
Qed.

Lemma keeps_weaken {A : Type} (m : M A) (Q Q' : A -> Prop) :
  keeps base m Q -> (forall a, Q a -> Q' a) -> keeps base m Q'.
Proof.
  intros H HQ st HI. destruct (H st HI) as [H1 H2]. split; auto.
Qed.

Lemma keeps_ret {A : Type} (a : A) (Q : A -> Prop) :
  Q a -> keeps base (ret a) Q.
Proof.
  intros Ha st HI. split; [exact HI|].
  intros a' E. simpl in E. now injection E as <-.
Qed.

Lemma keeps_bind {A B : Type} (m : M A) (k : A -> M B)
    (Q1 : A -> Prop) (Q : B -> Prop) :
  keeps base m Q1 ->
  (forall a, Q1 a -> keeps base (k a) Q) ->
  keeps base (bind m k) Q.
Proof.
  intros Hm Hk st HI. unfold bind.
  destruct (Hm st HI) as [HI1 HQ1].
  destruct (m st) as [[a|e] st1]; simpl in *.
  - exact (Hk a (HQ1 a eq_refl) st1 HI1).
  - split; [exact HI1 | discriminate].
Qed.

Lemma keeps_try_catch {A : Type} (m : M A) (h : JS.JSError -> M A)
    (Q : A -> Prop) :
  keeps base m Q -> (forall e, keeps base (h e) Q) ->
  keeps base (try_catch m h) Q.
Proof.
  intros Hm Hh st HI. unfold try_catch.
  destruct (Hm st HI) as [HI1 HQ1].
  destruct (m st) as [[a|e] st1]; simpl in *.
  - split; [exact HI1 | exact HQ1].
  - exact (Hh e st1 HI1).
Qed.

Lemma keeps_when (b : bool) (m : M unit) :
  keeps base m (fun _ => True) -> keeps base (when b m) (fun _ => True).
Proof.
  intros H. destruct b; simpl; [exact H | now apply keeps_ret].
Qed.

(** Reading the container yields a value with empty hooks. *)
Lemma keeps_lifecycle_value : keeps base lifecycle_value hooks_empty.
Proof.
  intros st HI. split.
  - apply (Inv_same st); [|exact HI].
    unfold lifecycle_value. cbv beta.
    destruct (lifecycle st) eqn:E; simpl; congruence.
  - destruct HI as (s & Hs & Hfirst & Hall).
    unfold lifecycle_value. cbv beta. rewrite Hs. simpl.
    intros v E. injection E as <-. unfold value.
    destruct (published s) as [|v0 vs] eqn:Ep; [discriminate|].
    rewrite <- Ep in *.
    apply Forall_forall with (x := last (published s) (initial s)) in Hall.
    + exact Hall.
    + rewrite Ep. destruct (exists_last (l := v0 :: vs)) as (l' & x & E');
        [discriminate|]. rewrite E', last_last. apply in_or_app.
      right. now left.
Qed.

(** Publishing a value with empty hooks maintains the invariant. *)
Lemma keeps_lifecycle_next (v : Lifecycle.t) :
  hooks_empty v -> keeps base (lifecycle_next v) (fun _ => True).
Proof.
  intros Hv st (s & Hs & Hfirst & Hall). split; [|trivial].
  unfold lifecycle_next. cbv beta. rewrite Hs. simpl.
  exists (next s v). split; [reflexivity|]. simpl. split.
  - destruct (published s); [discriminate | exact Hfirst].
  - apply Forall_app. split; [exact Hall | now constructor].
Qed.

End Keeps.

Lemma quiet_lifecycle_value : quiet lifecycle_value.
Proof.
  intros st. unfold lifecycle_value.
  destruct (lifecycle st) eqn:E; simpl; congruence.
Qed.

Lemma quiet_callTools (env : Env) (d : Daemon) (role : string)
    (opts : option Opts.t) :
  quiet (callTools env d role opts).
Proof.
  unfold callTools. apply quiet_bind; [apply quiet_lifecycle_value|].
  intros v. apply quiet_all. intros tool. apply quiet_callTool.
Qed.

Section Stages.

Variable env : Env.
Variable d : Daemon.
Variable opts : option Opts.t.
Variable base : Lifecycle.t.

(** Republishing the current value with one stage's field replaced. *)
Lemma keeps_republish (f : Lifecycle.t -> Lifecycle.t) :
  (forall v, hooks_empty v -> hooks_empty (f v)) ->
  keeps base (v <- lifecycle_value ;; lifecycle_next (f v)) (fun _ => True).
Proof.
  intros Hf. eapply keeps_bind; [apply keeps_lifecycle_value|].
  intros v Hv. apply keeps_lifecycle_next. now apply Hf.
Qed.

Lemma keeps_fetchContext :
  keeps base (fetchContext env d opts) (fun _ => True).
Proof.
  unfold fetchContext.
  eapply keeps_bind; [apply keeps_quiet, quiet_callTools|].
  intros results _.
  apply (keeps_republish (fun v => Lifecycle.with_context v results)).
  now intros v Hv.
Qed.

Lemma keeps_generatePrompt : keeps base generatePrompt (fun _ => True).
Proof.
  unfold generatePrompt.
  apply (keeps_republish
           (fun v => Lifecycle.with_generatedPrompt v
                       (createPrompt
                          (JS.nullish (Lifecycle.daemonName v) "")
                          (JS.nullish (Lifecycle.identityPrompt v) "")
                          (JS.nullish (Lifecycle.message v) "")
                          (JS.nullish (Lifecycle.context v) [])
                          (JS.nullish (Lifecycle.tools v) [])))).
  now intros v Hv.
Qed.

(** The action stage finds no hook to dispatch and publishes an empty
    hook log. *)
Lemma keeps_takeActions :
  keeps base (takeActions env d opts) (fun _ => True).
Proof.
  unfold takeActions.
  eapply keeps_bind; [apply keeps_quiet, quiet_callTools|].
  intros results _.
  eapply keeps_bind; [apply keeps_lifecycle_value|]. intros v Hv.
  eapply keeps_bind;
    [apply (keeps_lifecycle_next base (Lifecycle.with_actionsLog v results));
     exact Hv|].
  intros _ _.
  eapply keeps_bind; [apply keeps_lifecycle_value|]. intros v' [Hh Hl].
  rewrite Hh. cbn [JS.nullish all].
  eapply keeps_bind; [apply (keeps_ret base [] (fun r => r = [])); reflexivity|].
  intros hookResults ->.
  apply (keeps_republish (fun v => Lifecycle.with_hooksLog v [])).
  intros w [Hw _]. now split.
Qed.

Lemma keeps_postProcessStage :
  keeps base (postProcessStage env d opts) (fun _ => True).
Proof.
  unfold postProcessStage.
  eapply keeps_bind; [apply keeps_quiet, quiet_callTools|].
  intros results _.
  apply (keeps_republish (fun v => Lifecycle.with_postProcessLog v results)).
  now intros v Hv.
Qed.

Lemma keeps_deliver (handler : M unit) :
  keeps base handler (fun _ => True) ->
  keeps base (deliver handler) (fun _ => True).
Proof.
  intros H. unfold deliver. apply keeps_try_catch; [exact H|].
  intros e. now apply keeps_ret.
Qed.

Lemma keeps_streamHandler (tools : list ToolProvider)
    (textStream : TextStream) :
  forall output,
    keeps base
      (streamHandler env tools (completion_observer env d opts) output
         textStream)
      (fun _ => True).
Proof.
  induction textStream as [chunk rest IH|name' parameters resume IH|fin];
    intros output; cbn [streamHandler].
  - eapply keeps_bind.
    + apply keeps_deliver. cbn [completion_observer on_next].
      unfold publish_output. eapply keeps_bind; [apply keeps_lifecycle_value|]. intros v Hv.
      apply (keeps_lifecycle_next base
               (Lifecycle.with_output v (output ++ chunk)%string)).
      exact Hv.
    + intros u _. eapply keeps_bind; [apply IH|].
      intros r _. now apply keeps_ret.
  - destruct (tSet_get tools name') as [t|]; [|apply IH].
    eapply keeps_bind; [apply keeps_quiet, quiet_attempt, quiet_execute|].
    intros result _. apply IH.
  - destruct fin as [|e]; cbn [completion_observer on_complete on_error].
    + eapply keeps_bind with (Q1 := fun _ => True);
        [|intros u _; now apply keeps_ret].
      apply keeps_deliver.
      eapply keeps_bind; [apply keeps_when, keeps_takeActions|].
      intros u _. apply keeps_when, keeps_postProcessStage.
    + eapply keeps_bind with (Q1 := fun _ => True);
        [|intros u _; now apply keeps_ret].
      apply keeps_deliver. now apply keeps_ret.
Qed.

Lemma keeps_subscribe (outputStream : Observable) :
  keeps base (subscribe env d opts outputStream) (fun _ => True).
Proof.
  intros st HI.
  assert (H : keeps base
                (_ <- (r <- streamHandler env (o_tools outputStream)
                              (completion_observer env d opts)
                              (o_output outputStream)
                              (stream_reply env (events st)) ;;
                       ret (fst r, mkObservable (o_tools outputStream) (snd r))) ;;
                 ret tt)
                (fun _ => True)).
  { eapply keeps_bind with (Q1 := fun _ => True);
      [|intros u _; now apply keeps_ret].
    eapply keeps_bind; [apply keeps_streamHandler|].
    intros r _. now apply keeps_ret. }
  exact (H st HI).
Qed.

Lemma keeps_await_completion (completion : M unit) :
  keeps base completion (fun _ => True) ->
  keeps base (await_completion env completion) (fun _ => True).
Proof.
  intros Hc st HI.
  assert (H : keeps base
                (_ <- try_catch completion (fun _ => ret tt) ;;
                 ret (timeout_after env (events st)))
                (fun _ => True)).
  { eapply keeps_bind with (Q1 := fun _ => True);
      [|intros u _; now apply keeps_ret].
    apply keeps_try_catch; [exact Hc|]. intros e. now apply keeps_ret. }
  exact (H st HI).
Qed.

Lemma keeps_return_lifecycle : keeps base return_lifecycle (fun _ => True).
Proof.
  apply keeps_quiet. intros st. unfold return_lifecycle.
  destruct (lifecycle st) eqn:E; simpl; congruence.
Qed.

End Stages.

(* ================================================================== *)
(** ** The two pipelines *)

Lemma base_lifecycle_hooks_empty (env : Env) (d : Daemon) (msg : string)
    (opts : option Opts.t) (st st' : State) (base : Lifecycle.t) :
  base_lifecycle env d msg opts st = (Ok base, st') -> hooks_empty base.
Proof.
  unfold base_lifecycle, bind, nanoid, now, lift, ret, throw.
  destruct (keypair d); [|discriminate].
  destruct (generateApproval _ _ _ _ _ _); [|discriminate].
  intros E. injection E as <- _. now split.
Qed.

Lemma pipeline (env : Env) (d : Daemon) (msg : string) (opts : option Opts.t)
    (rest : Chosen -> M BehaviorSubject) (st : State) :
  (forall chosen base, keeps base (rest chosen) (fun _ => True)) ->
  message_post env d msg opts st
    (try_catch
       (chosen <- lift (chooseLLM d opts) ;;
        _ <- new_lifecycle ;;
        base <- base_lifecycle env d msg opts ;;
        _ <- lifecycle_next base ;;
        rest chosen)
       failed_at_step st).
Proof.
  intros Hrest. unfold message_post.
  destruct (chooseLLM d opts) as [chosen|e]; [|reflexivity].
  pose proof (quiet_base_lifecycle env d msg opts (started st)) as Hq.
  cbv beta iota delta [try_catch bind lift new_lifecycle].
  change (mkState (events st) (Some (mkSubject Lifecycle.empty []))
                  (ids_drawn st) (clock_reads st)) with (started st).
  destruct (base_lifecycle env d msg opts (started st)) as [[base|e] st1] eqn:Hb;
    [|reflexivity].
  simpl in Hq. unfold lifecycle_next at 1. rewrite Hq.
  match goal with
  | |- context [rest chosen ?st2] =>
      assert (HI : Inv base st2);
      [| destruct (Hrest chosen base st2 HI) as [HI' _];
         destruct (rest chosen st2) as [[a|e] st3]; exact HI']
  end.
  eexists. split; [reflexivity|]. simpl. split; [reflexivity|].
  constructor; [|constructor].
  exact (base_lifecycle_hooks_empty _ _ _ _ _ _ _ Hb).
Qed.

Lemma message_ends (env : Env) (d : Daemon) (msg : string)
    (opts : option Opts.t) (st : State) :
  message_post env d msg opts st (message env d msg opts st).
Proof.
  unfold message. cbv zeta. apply pipeline. intros chosen base.
  eapply keeps_bind; [apply keeps_when, keeps_fetchContext|]. intros _ _.
  eapply keeps_bind; [apply keeps_generatePrompt|]. intros _ _.
  eapply keeps_bind; [apply keeps_lifecycle_value|]. intros v Hv.
  eapply keeps_bind; [apply keeps_quiet, quiet_genText|]. intros output _.
  eapply keeps_bind;
    [apply (keeps_lifecycle_next base (Lifecycle.with_output v output));
     exact Hv|].
  intros _ _.
  eapply keeps_bind; [apply keeps_when, keeps_takeActions|]. intros _ _.
  eapply keeps_bind; [apply keeps_when, keeps_postProcessStage|]. intros _ _.
  apply keeps_return_lifecycle.
Qed.

Lemma messageWithTools_ends (env : Env) (d : Daemon) (msg : string)
    (opts : option Opts.t) (st : State) :
  message_post env d msg opts st (messageWithTools env d msg opts st).
Proof.
  unfold messageWithTools. apply pipeline. intros chosen base.
  eapply keeps_bind; [apply keeps_when, keeps_fetchContext|]. intros _ _.
  eapply keeps_bind; [apply keeps_generatePrompt|]. intros _ _.
  eapply keeps_bind; [apply keeps_lifecycle_value|]. intros v Hv.
  eapply keeps_bind; [apply keeps_quiet, quiet_genTextWithTools|].
  intros outputStream _.
  eapply keeps_bind; [apply keeps_quiet; intros st'; reflexivity|].
  intros before _.
  eapply keeps_bind; [apply keeps_await_completion, keeps_subscribe|].
  intros timeout _.
  eapply keeps_bind; [apply keeps_return_lifecycle|].
  intros s _. now apply keeps_ret.
Qed.

(* ================================================================== *)
(** ** Approvals *)

Lemma encode_inj (a b : list byte) :
  Base64.encode a = Base64.encode b -> a = b.
Proof.
  intros H. rewrite <- (decode_encode a), <- (decode_encode b). now rewrite H.
Qed.

Lemma utf8_inj (a b : string) : utf8 a = utf8 b -> a = b.
Proof.
  unfold utf8. intros H.
  rewrite <- (string_of_list_byte_of_string a),
          <- (string_of_list_byte_of_string b).
  now rewrite H.
Qed.

(** The approval is the signature of the envelope's UTF-8 bytes, in
    base64: the payload handed to [sign] decodes to those bytes. *)
Lemma generateApproval_ok (env : Env) (d : Daemon)
    (message createdAt messageId : string) (channelId : option string)
    (kp : Keypair) :
  keypair d = Some kp ->
  generateApproval env d message createdAt messageId channelId
  = Ok (Base64.encode
          (nacl_sign_detached env
             (utf8 (envelope message createdAt messageId
                      (JS.nullish channelId "")))
             (secretKey kp))).
Proof.
  intros Hk. unfold generateApproval, sign. rewrite Hk.
  now rewrite decode_encode.
Qed.

(** Under an injective signer an approval determines the message, the
    time, the identifier and the channel it was made for. *)
Lemma generateApproval_inj (env : Env) (d : Daemon)
    (m t i m' t' i' : string) (c c' : option string) (a : string) :
  signer_injective env ->
  generateApproval env d m t i c = Ok a ->
  generateApproval env d m' t' i' c' = Ok a ->
  m = m' /\ t = t' /\ i = i' /\ JS.nullish c "" = JS.nullish c' "".
Proof.
  intros Hinj H1 H2.
  destruct (keypair d) as [kp|] eqn:Hk.
  - rewrite (generateApproval_ok env d m t i c kp Hk) in H1.
    rewrite (generateApproval_ok env d m' t' i' c' kp Hk) in H2.
    injection H1 as H1. injection H2 as H2. rewrite <- H2 in H1.
    apply encode_inj, Hinj, utf8_inj in H1.
    exact (envelope_inj _ _ _ _ _ _ _ _ H1).
  - unfold generateApproval in H1. rewrite Hk in H1. discriminate.
Qed.

Lemma base_lifecycle_fields (env : Env) (d : Daemon) (msg : string)
    (opts : option Opts.t) (st st' : State) (base : Lifecycle.t) :
  base_lifecycle env d msg opts st = (Ok base, st') ->
  Lifecycle.message base = Some msg
  /\ Lifecycle.messageId base = Some (nanoid_at env (ids_drawn st))
  /\ Lifecycle.createdAt base = Some (now_at env (clock_reads st))
  /\ Lifecycle.channelId base = opt opts Opts.channelId
  /\ exists a,
       Lifecycle.approval base = Some a
       /\ generateApproval env d msg
            (now_at env (S (clock_reads st)))
            (nanoid_at env (S (ids_drawn st)))
            (opt opts Opts.channelId) = Ok a.
Proof.
  unfold base_lifecycle, bind, nanoid, now, lift, ret, throw.
  destruct (keypair d) as [kp|] eqn:Hk; [|discriminate]. simpl.
  destruct (generateApproval _ _ _ _ _ _) as [a|e] eqn:Ha; [|discriminate].
  intros E. injection E as <- _. simpl.
  repeat split. now exists a.
Qed.

(** The first value of the container a message call leaves behind. *)
Lemma first_published (env : Env) (d : Daemon) (msg : string)
    (opts : option Opts.t) (st : State)
    (r : Outcome BehaviorSubject * State) (s : BehaviorSubject)
    (base : Lifecycle.t) :
  message_post env d msg opts st r ->
  lifecycle st = None ->
  lifecycle (snd r) = Some s ->
  nth_error (published s) 0 = Some base ->
  exists st1, base_lifecycle env d msg opts (started st) = (Ok base, st1).
Proof.
  unfold message_post. intros Hpost Hnone Hs Hfirst.
  destruct (chooseLLM d opts) as [chosen|e].
  - pose proof (quiet_base_lifecycle env d msg opts (started st)) as Hq.
    destruct (base_lifecycle env d msg opts (started st)) as [[base'|e] st1].
    + destruct Hpost as (s' & Hs' & Hfirst' & _).
      assert (s' = s) as -> by congruence.
      assert (base' = base) as -> by congruence.
      now exists st1.
    + subst r. simpl in Hq, Hs. rewrite Hq in Hs. injection Hs as <-.
      discriminate.
  - subst r. simpl in Hs. congruence.
Qed.

(** C1, as the code behaves: the approval of the base lifecycle is not
    made over the lifecycle's own identifier and time.  In both pipelines
    the base lifecycle takes its [messageId] from one [nanoid()] and its
    [createdAt] from one reading of the clock, and [generateApproval] is
    called with a second reading and a second [nanoid()].  So the approval
    is the signature of an envelope with the second identifier; whenever the
    two identifiers differ, it is not the signature of the lifecycle's own
    fields (for a signer under which distinct messages have distinct
    signatures). *)
Theorem base_approval_signs_fresh_draws (env : Env) (d : Daemon)
    (msg : string) (opts : option Opts.t) (st : State)
    (s : BehaviorSubject) (base : Lifecycle.t) :
  lifecycle st = None ->
  lifecycle (snd (message env d msg opts st)) = Some s
  \/ lifecycle (snd (messageWithTools env d msg opts st)) = Some s ->
  nth_error (published s) 0 = Some base ->
  let channelId := opt opts Opts.channelId in
  let messageId := nanoid_at env (ids_drawn st) in
  let createdAt := now_at env (clock_reads st) in
  Lifecycle.message base = Some msg
  /\ Lifecycle.messageId base = Some messageId
  /\ Lifecycle.createdAt base = Some createdAt
  /\ Lifecycle.channelId base = channelId
  /\ exists approval,
       Lifecycle.approval base = Some approval
       /\ generateApproval env d msg
            (now_at env (S (clock_reads st)))
            (nanoid_at env (S (ids_drawn st))) channelId = Ok approval
       /\ (signer_injective env ->
           nanoid_at env (S (ids_drawn st)) <> messageId ->
           generateApproval env d msg createdAt messageId channelId
           <> Ok approval).
Proof.
  intros Hnone Hs Hfirst channelId messageId createdAt.
  assert (exists st1,
             base_lifecycle env d msg opts (started st) = (Ok base, st1))
    as [st1 Hb].
  { destruct Hs as [Hs|Hs].
    - exact (first_published env d msg opts st _ s base
               (message_ends env d msg opts st) Hnone Hs Hfirst).
    - exact (first_published env d msg opts st _ s base
               (messageWithTools_ends env d msg opts st) Hnone Hs Hfirst). }
  destruct (base_lifecycle_fields env d msg opts _ _ _ Hb)
    as (Hm & Hi & Ht & Hc & a & Ha & Hg).
  simpl in Hi, Ht, Hg.
  repeat (split; [assumption|]).
  exists a. repeat (split; [assumption|]).
  intros Hinj Hne Hown.
  destruct (generateApproval_inj env d _ _ _ _ _ _ _ _ a Hinj Hg Hown)
    as (_ & _ & Hid & _).
  exact (Hne Hid).
Qed.

Lemma sample_signer_injective : signer_injective sample_env.
Proof. intros sk m1 m2 H. exact (app_inv_head sk m1 m2 H). Qed.

(** The sample call: the lifecycle is numbered with the first identifier,
    the approval is made over the second. *)
Lemma base_approval_signs_fresh_draws_witness :
  Lifecycle.messageId sample_base = Some "V1StGXR8_Z5jdHi6B-myT"
  /\ exists approval,
       Lifecycle.approval sample_base = Some approval
       /\ generateApproval sample_env busy_daemon "Hello"
            "2025-04-14T10:00:00.000Z" "Uakgb_J5m9g-0JDMbcJqL" None
          = Ok approval
       /\ generateApproval sample_env busy_daemon "Hello"
            "2025-04-14T10:00:00.000Z" "V1StGXR8_Z5jdHi6B-myT" None
          <> Ok approval.
Proof.
  destruct (base_approval_signs_fresh_draws sample_env busy_daemon "Hello"
              sample_opts initial_state sample_subject sample_base)
    as (_ & Hid & _ & _ & approval & Ha & Hsigned & Hown).
  - reflexivity.
  - left. vm_compute. reflexivity.
  - vm_compute. reflexivity.
  - split; [exact Hid|].
    exists approval. split; [exact Ha|]. split; [exact Hsigned|].
    apply Hown; [exact sample_signer_injective | discriminate].
Defined.

(** C7: an omitted [channelId] and an empty one give the same approval:
    both are the signature, in base64, of the UTF-8 bytes of the envelope
    whose [channelId] is the empty string. *)
Theorem generateApproval_channelId_default (env : Env) (d : Daemon)
    (message createdAt messageId : string) :
  generateApproval env d message createdAt messageId None
  = generateApproval env d message createdAt messageId (Some "")
  /\ generateApproval env d message createdAt messageId None
     = match keypair d with
       | Some kp =>
           Ok (Base64.encode
                 (nacl_sign_detached env
                    (utf8 (envelope message createdAt messageId ""))
                    (secretKey kp)))
       | None => Throw (JS.Error "Keypair not found")
       end.
Proof.
  split; [reflexivity|].
  destruct (keypair d) as [kp|] eqn:Hk.
  - exact (generateApproval_ok env d message createdAt messageId None kp Hk).
  - unfold generateApproval. now rewrite Hk.
Qed.

(** C6: the hooks of a lifecycle stay empty.  In both pipelines, every
    value published to the container of the call has [hooks] and [hooksLog]
    equal to the empty list, whatever the message, the options, the
    registered tools and the answers of the servers and of the model; so the
    list the hook loop iterates over is empty. *)
Theorem hooks_stay_empty (env : Env) (d : Daemon) (msg : string)
    (opts : option Opts.t) (st : State) (s : BehaviorSubject) :
  lifecycle st = None ->
  lifecycle (snd (message env d msg opts st)) = Some s
  \/ lifecycle (snd (messageWithTools env d msg opts st)) = Some s ->
  Forall hooks_empty (published s)
  /\ JS.nullish (Lifecycle.hooks (value s)) [] = [].
Proof.
  intros Hnone Hs.
  assert (Forall hooks_empty (published s)
          /\ (published s = [] -> initial s = Lifecycle.empty))
    as [Hall Hinit].
  { assert (exists r, message_post env d msg opts st r
                      /\ lifecycle (snd r) = Some s) as (r & Hpost & Hr).
    { destruct Hs as [Hs|Hs]; eexists; (split; [|exact Hs]).
      - apply message_ends.
      - apply messageWithTools_ends. }
    unfold message_post in Hpost.
    destruct (chooseLLM d opts) as [chosen|e].
    - pose proof (quiet_base_lifecycle env d msg opts (started st)) as Hq.
      destruct (base_lifecycle env d msg opts (started st)) as [[base|e] st1].
      + destruct Hpost as (s' & Hs' & Hfirst & Hall).
        assert (s' = s) as -> by congruence.
        split; [exact Hall|]. intros E. rewrite E in Hfirst. discriminate.
      + subst r. simpl in Hq, Hr. rewrite Hq in Hr. injection Hr as <-.
        split; [constructor | reflexivity].
    - subst r. simpl in Hr. congruence. }
  split; [exact Hall|].
  unfold value. destruct (published s) as [|v vs] eqn:Ep.
  - simpl. now rewrite Hinit.
  - destruct (exists_last (l := v :: vs)) as (l' & x & E'); [discriminate|].
    rewrite E', last_last. rewrite E' in Hall.
    apply Forall_app in Hall. destruct Hall as [_ Hx].
    inversion Hx as [|? ? [Hh _] _]. now rewrite Hh.
Qed.

(** The sample call runs a tool of each stage and publishes seven values,
    all with empty hooks. *)
Lemma hooks_stay_empty_witness :
  length (published sample_subject) = 7
  /\ Forall hooks_empty (published sample_subject).
Proof.
  split; [reflexivity|].
  apply (hooks_stay_empty sample_env busy_daemon "Hello" sample_opts
           initial_state sample_subject).
  - reflexivity.
  - left. vm_compute. reflexivity.
Defined.

(** The sample daemon has a valid provider registered, and a call without
    an override still fails at the model check. *)
Lemma message_default_provider_is_an_index_witness :
  d_models test_daemon = [openai_first]
  /\ message sample_env test_daemon "Hello" None initial_state
     = (Throw (JS.Error "Failed at step: Error: No LLM model chosen"),
        initial_state).
Proof.
  split; [reflexivity|].
  apply (message_default_provider_is_an_index sample_env test_daemon "Hello"
           None initial_state).
  - discriminate.
  - reflexivity.
  - reflexivity.
Defined.

(** The daemon of the test suite that has no provider. *)
Lemma message_without_provider_fails_witness :
  message sample_env empty_daemon "Hello" None initial_state
  = (Throw (JS.Error "Failed at step: Error: No model provider added"),
     initial_state).
Proof.
  apply (message_without_provider_fails sample_env empty_daemon "Hello" None
           initial_state); reflexivity.
Defined.

(* ================================================================== *)
(** * Further properties *)

(* ================================================================== *)
(** ** The model registry, continued *)

Lemma find_provider_replace (p : ModelProvider) (ms : list ModelProvider)
    (n : string) :
  find (fun q => String.eqb (provider q) n)
       (map (fun q => if same_provider q p then p else q) ms)
  = match find (fun q => String.eqb (provider q) n) ms with
    | Some q => Some (if same_provider q p then p else q)
    | None => None
    end.
Proof.
  induction ms as [|m ms IH]; simpl; [reflexivity|].
  destruct (same_provider m p) eqn:E.
  - apply same_provider_eq in E. rewrite E.
    destruct (String.eqb (provider p) n) eqn:En.
    + now rewrite (proj2 (same_provider_eq m p) E).
    + exact IH.
  - destruct (String.eqb (provider m) n); [now rewrite E | exact IH].
Qed.

Lemma find_app_last {A : Type} (f : A -> bool) (l : list A) (a : A) :
  find f (l ++ [a])
  = match find f l with
    | Some x => Some x
    | None => if f a then Some a else None
    end.
Proof.
  induction l as [|x l IH]; simpl; [reflexivity|].
  destruct (f x); [reflexivity | exact IH].
Qed.

(** X1: a lookup by name after a registration returns the provider just
    registered, and lookups by any other name are unchanged. *)
Theorem addModelProvider_lookup (p : ModelProvider) (d : Daemon) :
  find_provider (addModelProvider p d) (provider p) = Some p
  /\ forall n,
       n <> provider p ->
       find_provider (addModelProvider p d) n = find_provider d n.
Proof.
  unfold find_provider. simpl. unfold addModelProvider_models.
  destruct (find (fun q => same_provider q p) (d_models d)) as [q0|] eqn:E.
  - split.
    + rewrite find_provider_replace.
      change (fun q => String.eqb (provider q) (provider p))
        with (fun q => same_provider q p).
      rewrite E. apply find_some in E. now rewrite (proj2 E).
    + intros n Hn. rewrite find_provider_replace.
      destruct (find (fun q => String.eqb (provider q) n) (d_models d))
        as [q|] eqn:Eq; [|reflexivity].
      apply find_some in Eq. destruct Eq as [_ Eq].
      apply String.eqb_eq in Eq.
      destruct (same_provider q p) eqn:Es; [|reflexivity].
      apply same_provider_eq in Es. congruence.
  - split.
    + rewrite find_app_last.
      change (fun q => String.eqb (provider q) (provider p))
        with (fun q => same_provider q p).
      rewrite E. now rewrite String.eqb_refl.
    + intros n Hn. rewrite find_app_last.
      destruct (find (fun q => String.eqb (provider q) n) (d_models d));
        [reflexivity|].
      now rewrite (proj2 (String.eqb_neq (provider p) n))
        by (intros H; now apply Hn).
Qed.

Lemma addModelProvider_lookup_witness :
  find_provider (addModelProvider openai_second test_daemon) "openai"
  = Some openai_second
  /\ find_provider (addModelProvider openai_second test_daemon) "openrouter"
     = find_provider test_daemon "openrouter".
Proof.
  destruct (addModelProvider_lookup openai_second test_daemon) as [H1 H2].
  split; [exact H1 | apply H2; discriminate].
Defined.

Lemma replace_fixes_registered (p : ModelProvider) (ms : list ModelProvider) :
  Forall (fun q => same_provider q p = true -> q = p) ms ->
  map (fun q => if same_provider q p then p else q) ms = ms.
Proof.
  induction 1 as [|q ms Hq _ IH]; simpl; [reflexivity|].
  rewrite IH. destruct (same_provider q p) eqn:E; [|reflexivity].
  now rewrite (Hq eq_refl).
Qed.

Lemma same_provider_refl (p : ModelProvider) : same_provider p p = true.
Proof. apply String.eqb_refl. Qed.

(** X2: registering the same provider a second time changes nothing. *)
Theorem addModelProvider_idempotent (p : ModelProvider) (d : Daemon) :
  addModelProvider p (addModelProvider p d) = addModelProvider p d.
Proof.
  unfold addModelProvider. simpl. f_equal.
  assert (Hall : Forall (fun q => same_provider q p = true -> q = p)
                        (addModelProvider_models p (d_models d))).
  { unfold addModelProvider_models.
    destruct (find (fun q => same_provider q p) (d_models d)) eqn:E.
    - apply Forall_forall. intros q Hq Hs.
      apply in_map_iff in Hq. destruct Hq as (q' & Hq' & _).
      destruct (same_provider q' p) eqn:E'; [now symmetry|].
      subst q'. congruence.
    - apply Forall_app. split.
      + apply Forall_forall. intros q Hq Hs.
        pose proof (find_none _ _ E q Hq) as Hn. simpl in Hn. congruence.
      + now constructor. }
  unfold addModelProvider_models at 1.
  destruct (find (fun q => same_provider q p)
              (addModelProvider_models p (d_models d))) as [q|] eqn:E.
  - now apply replace_fixes_registered.
  - exfalso.
    assert (Hin : In p (addModelProvider_models p (d_models d))).
    { unfold addModelProvider_models.
      destruct (find (fun q => same_provider q p) (d_models d)) as [q0|] eqn:E0.
      - apply find_some in E0. destruct E0 as [Hin Hs].
        apply in_map_iff. exists q0. now rewrite Hs.
      - apply in_or_app. right. now left. }
    pose proof (find_none _ _ E p Hin) as Hn. simpl in Hn.
    now rewrite same_provider_refl in Hn.
Qed.

Lemma NoDup_snoc {A : Type} (l : list A) (a : A) :
  NoDup l -> ~ In a l -> NoDup (l ++ [a]).
Proof.
  induction 1 as [|x l Hx Hl IH]; simpl; intros Ha.
  - constructor; [tauto | constructor].
  - constructor.
    + intros Hin. apply in_app_or in Hin. simpl in Hin.
      destruct Hin as [Hin|[Hin|[]]]; [tauto | subst; tauto].
    + apply IH. tauto.
Qed.

Lemma addModelProvider_keeps_NoDup (p : ModelProvider) (d : Daemon) :
  NoDup (map provider (d_models d)) ->
  NoDup (map provider (d_models (addModelProvider p d))).
Proof.
  intros Hnd. simpl. unfold addModelProvider_models.
  destruct (find (fun q => same_provider q p) (d_models d)) as [q|] eqn:E.
  - now rewrite replace_keeps_names.
  - rewrite map_app. simpl. apply NoDup_snoc; [exact Hnd|].
    intros Hin. apply in_map_iff in Hin. destruct Hin as (q & Hq & Hin).
    pose proof (find_none _ _ E q Hin) as Hn. simpl in Hn.
    apply same_provider_eq in Hq. congruence.
Qed.

(** X3: a registry filled through [addModelProvider] alone never holds two
    providers of one name, whatever the registrations and their order. *)
Theorem registry_names_unique (ps : list ModelProvider) (d : Daemon) :
  NoDup (map provider (d_models d)) ->
  NoDup (map provider
           (d_models (fold_left (fun d p => addModelProvider p d) ps d))).
Proof.
  revert d. induction ps as [|p ps IH]; intros d Hnd; simpl.
  - exact Hnd.
  - apply IH. now apply addModelProvider_keeps_NoDup.
Qed.

Lemma registry_names_unique_witness :
  NoDup (map provider
           (d_models (fold_left (fun d p => addModelProvider p d)
                        [openai_first; openai_second; openai_first]
                        empty_daemon))).
Proof.
  apply registry_names_unique. simpl. constructor.
Defined.

(* ================================================================== *)
(** ** The session endpoint *)






(* ================================================================== *)
(** ** The remote tool client, continued *)

Lemma first_rejected (args : JS.object) (ps : list ToolParameter) :
  (exists p, In p ps /\ accepted args p = false) ->
  exists pre p post,
    ps = pre ++ p :: post
    /\ Forall (fun q => accepted args q = true) pre
    /\ accepted args p = false.
Proof.
  induction ps as [|q ps IH]; intros (p & Hin & Hp).
  - contradiction.
  - destruct (accepted args q) eqn:Eq.
    + destruct Hin as [->|Hin]; [congruence|].
      destruct IH as (pre & p' & post & -> & Hpre & Hp'); [now exists p|].
      exists (q :: pre), p', post. repeat split; [now constructor | exact Hp'].
    + exists [], q, ps. repeat split; [constructor | exact Eq].
Qed.

(** X5: [callTool] never sends an invocation when some declared parameter
    is rejected, wherever that parameter stands in the schema and whether or
    not the session opens: the call fails, and the only event it can leave
    is the opening of the session. *)
Theorem callTool_rejected_never_invokes (env : Env) (tool : ToolProvider)
    (args : JS.object) (st : State) :
  (exists p, In p (parameters tool) /\ accepted args p = false) ->
  exists e,
    fst (callTool env tool args st) = Throw e
    /\ (snd (callTool env tool args st) = st
        \/ snd (callTool env tool args st)
           = after st [EvConnect (sseUrl (serverUrl tool))]).
Proof.
  intros Hrej.
  destruct (first_rejected args (parameters tool) Hrej)
    as (pre & p & post & Hps & Hpre & Hp).
  destruct (connect_reply env (events st) (sseUrl (serverUrl tool)))
    as [e|] eqn:Hc.
  - assert (E : callTool env tool args st = (Throw e, st)).
    { unfold callTool, bind, Client_connect. now rewrite Hc. }
    rewrite E. exists e. split; [reflexivity | now left].
  - destruct (check_parameters_first args pre post p
                (after st [EvConnect (sseUrl (serverUrl tool))]) Hpre Hp)
      as [what Hwhat].
    assert (E : callTool env tool args st
                = (Throw (JS.Error (pname p ++ " must be " ++ what)),
                   after st [EvConnect (sseUrl (serverUrl tool))])).
    { rewrite (callTool_connected env tool args st Hc).
      unfold bind at 1. now rewrite Hps, Hwhat. }
    rewrite E. eexists. split; [reflexivity | now right].
Qed.

Lemma callTool_rejected_never_invokes_witness :
  exists e,
    fst (callTool sample_env hello_tool bad_args initial_state) = Throw e
    /\ (snd (callTool sample_env hello_tool bad_args initial_state)
        = initial_state
        \/ snd (callTool sample_env hello_tool bad_args initial_state)
           = after initial_state [EvConnect (sseUrl (serverUrl hello_tool))]).
Proof.
  apply callTool_rejected_never_invokes.
  exists (mkToolParameter "name" "string" "The name to say hello to").
  split; [now left | reflexivity].
Defined.

(** X6: every declared parameter is required.  An argument map that has
    no entry for a parameter declared string, number, boolean, array or
    object is rejected with the error naming that parameter (the name not
    being one every object inherits). *)
Theorem missing_argument_rejected (args : JS.object) (p : ToolParameter) :
  JS.own args (pname p) = None ->
  JS.inherited (pname p) = JS.Undefined ->
  In (ptype p) ["string"; "number"; "boolean"; "array"; "object"] ->
  exists what,
    check_parameter args p
    = Some (JS.Error (pname p ++ " must be " ++ what)).
Proof.
  intros Hown Hinh Hty.
  apply (proj2 (check_parameter_accepted args p)).
  unfold accepted, JS.get. rewrite Hown, Hinh.
  simpl in Hty.
  destruct Hty as [<-|[<-|[<-|[<-|[<-|[]]]]]]; reflexivity.
Qed.

Lemma missing_argument_rejected_witness :
  exists what,
    check_parameter []
      (mkToolParameter "name" "string" "The name to say hello to")
    = Some (JS.Error ("name" ++ " must be " ++ what)).
Proof.
  apply (missing_argument_rejected []
           (mkToolParameter "name" "string" "The name to say hello to")).
  - reflexivity.
  - reflexivity.
  - simpl. now left.
Defined.

(* ================================================================== *)
(** ** Signing, continued *)

(** X7: [sign] signs the bytes its payload encodes and returns the
    signature in base64: for every byte sequence, signing its base64 text
    gives exactly the base64 text of the detached signature of those bytes
    under the daemon's secret key. *)
Theorem sign_signs_decoded_bytes (env : Env) (d : Daemon) (kp : Keypair)
    (bytes : list byte) :
  keypair d = Some kp ->
  sign env d (Base64.encode bytes)
  = Ok (Base64.encode (nacl_sign_detached env bytes (secretKey kp))).
Proof.
  intros Hk. unfold sign. now rewrite Hk, decode_encode.
Qed.

Lemma sign_signs_decoded_bytes_witness :
  sign sample_env test_daemon (Base64.encode [x68; x69])
  = Ok (Base64.encode
          (nacl_sign_detached sample_env [x68; x69]
             (secretKey test_keypair))).
Proof.
  apply (sign_signs_decoded_bytes sample_env test_daemon test_keypair
           [x68; x69]).
  reflexivity.
Defined.

(** The decoder skips what is not of the alphabet and stops at the
    padding: a payload with line breaks is signed as the same bytes. *)
Example sign_skips_line_breaks :
  sign sample_env test_daemon ("aG" ++ nl ++ "k=")
  = sign sample_env test_daemon "aGk="
  /\ Base64.decode "aGk=anVuaw==" = [x68; x69].
Proof. split; vm_compute; reflexivity. Qed.

(** X8: an approval is bound to its four fields.  Whatever the signing
    function, what [generateApproval] has signed is the UTF-8 text of the
    envelope, returned in base64; and the signed bytes of two calls are the
    same exactly when the calls were made for the same message, time and
    identifier, and for the same channel, an omitted channel counting as
    the empty one: the quoting of the envelope leaves no way to move text
    from one field into another. *)
Theorem approval_binds_fields (d : Daemon) (kp : Keypair)
    (m t i m' t' i' : string) (c c' : option string) :
  keypair d = Some kp ->
  let signed := utf8 (envelope m t i (JS.nullish c "")) in
  let signed' := utf8 (envelope m' t' i' (JS.nullish c' "")) in
  (forall env,
     generateApproval env d m t i c
     = Ok (Base64.encode (nacl_sign_detached env signed (secretKey kp))))
  /\ (forall env,
        generateApproval env d m' t' i' c'
        = Ok (Base64.encode (nacl_sign_detached env signed' (secretKey kp))))
  /\ (signed = signed'
      <-> m = m' /\ t = t' /\ i = i' /\ JS.nullish c "" = JS.nullish c' "").
Proof.
  intros Hk signed signed'. split; [|split].
  - intros env. exact (generateApproval_ok env d m t i c kp Hk).
  - intros env. exact (generateApproval_ok env d m' t' i' c' kp Hk).
  - split.
    + intros H. apply utf8_inj, envelope_inj in H. exact H.
    + intros (-> & -> & -> & E). unfold signed, signed'. now rewrite E.
Qed.

Lemma approval_binds_fields_witness :
  let signed := utf8 (envelope "Hello" "t" "id" (JS.nullish None "")) in
  let signed' := utf8 (envelope "Hello" "t" "id2" (JS.nullish (Some "") "")) in
  (forall env,
     generateApproval env test_daemon "Hello" "t" "id" None
     = Ok (Base64.encode
             (nacl_sign_detached env signed (secretKey test_keypair))))
  /\ (forall env,
        generateApproval env test_daemon "Hello" "t" "id2" (Some "")
        = Ok (Base64.encode
                (nacl_sign_detached env signed' (secretKey test_keypair))))
  /\ (signed = signed'
      <-> "Hello" = "Hello" /\ "t" = "t" /\ "id" = "id2"
          /\ JS.nullish None "" = JS.nullish (Some "") "").
Proof.
  apply (approval_binds_fields test_daemon test_keypair
           "Hello" "t" "id" "Hello" "t" "id2" None (Some "")).
  reflexivity.
Defined.

(* ================================================================== *)
(** ** Rules for specifications *)

Lemma triple_conseq {A : Type} (P P' : State -> Prop) (m : M A)
    (Q Q' : A -> State -> Prop) (E E' : JS.JSError -> State -> Prop) :
  triple P m Q E ->
  (forall st, P' st -> P st) ->
  (forall a st, Q a st -> Q' a st) ->
  (forall e st, E e st -> E' e st) ->
  triple P' m Q' E'.
Proof.
  intros H HP HQ HE st Hst. specialize (H st (HP st Hst)).
  destruct (m st) as [[a|e] st']; auto.
Qed.

Lemma triple_conj {A : Type} (P1 P2 : State -> Prop) (m : M A)
    (Q1 Q2 : A -> State -> Prop) (E1 E2 : JS.JSError -> State -> Prop) :
  triple P1 m Q1 E1 -> triple P2 m Q2 E2 ->
  triple (fun st => P1 st /\ P2 st) m
    (fun a st => Q1 a st /\ Q2 a st) (fun e st => E1 e st /\ E2 e st).
Proof.
  intros H1 H2 st [Hp1 Hp2]. specialize (H1 st Hp1). specialize (H2 st Hp2).
  destruct (m st) as [[a|e] st']; now split.
Qed.

Lemma triple_ret {A : Type} (a : A) (Q : A -> State -> Prop)
    (E : JS.JSError -> State -> Prop) :
  triple (Q a) (ret a) Q E.
Proof. intros st H. exact H. Qed.

Lemma triple_throw {A : Type} (e : JS.JSError) (Q : A -> State -> Prop)
    (E : JS.JSError -> State -> Prop) :
  triple (E e) (@throw A e) Q E.
Proof. intros st H. exact H. Qed.

Lemma triple_lift {A : Type} (o : Outcome A) (P : State -> Prop) :
  triple P (lift o) (fun a st => o = Ok a /\ P st)
    (fun e st => o = Throw e /\ P st).
Proof. intros st H. unfold lift. destruct o; now split. Qed.

Lemma triple_bind {A B : Type} (P : State -> Prop) (m : M A) (k : A -> M B)
    (Q1 : A -> State -> Prop) (Q : B -> State -> Prop)
    (E : JS.JSError -> State -> Prop) :
  triple P m Q1 E ->
  (forall a, triple (Q1 a) (k a) Q E) ->
  triple P (bind m k) Q E.
Proof.
  intros Hm Hk st Hst. unfold bind. specialize (Hm st Hst).
  destruct (m st) as [[a|e] st1].
  - exact (Hk a st1 Hm).
  - exact Hm.
Qed.

Lemma triple_try_catch {A : Type} (P : State -> Prop) (m : M A)
    (h : JS.JSError -> M A) (Q : A -> State -> Prop)
    (E1 E : JS.JSError -> State -> Prop) :
  triple P m Q E1 ->
  (forall e, triple (E1 e) (h e) Q E) ->
  triple P (try_catch m h) Q E.
Proof.
  intros Hm Hh st Hst. unfold try_catch. specialize (Hm st Hst).
  destruct (m st) as [[a|e] st1].
  - exact Hm.
  - exact (Hh e st1 Hm).
Qed.

Lemma triple_when (I : State -> Prop) (b : bool) (m : M unit) :
  triple I m (fun _ => I) (fun _ => I) ->
  triple I (when b m) (fun _ => I) (fun _ => I).
Proof.
  intros H. destruct b; [exact H|].
  exact (triple_ret tt (fun _ => I) (fun _ => I)).
Qed.

Lemma triple_all {A B : Type} (I : State -> Prop) (f : A -> M B)
    (l : list A) :
  (forall a, triple I (f a) (fun _ => I) (fun _ => I)) ->
  triple I (all f l) (fun _ => I) (fun _ => I).
Proof.
  intros Hf. induction l as [|a l IH]; simpl.
  - exact (triple_ret [] (fun _ => I) (fun _ => I)).
  - eapply triple_bind; [apply Hf|]. intros b.
    eapply triple_bind; [apply IH|]. intros bs.
    exact (triple_ret (b :: bs) (fun _ => I) (fun _ => I)).
Qed.

(** An invariant of the container holds across a quiet computation. *)
Lemma triple_quiet {A : Type} (K : option BehaviorSubject -> Prop) (m : M A) :
  quiet m ->
  triple (fun st => K (lifecycle st)) m
    (fun _ st => K (lifecycle st)) (fun _ st => K (lifecycle st)).
Proof.
  intros Hq st H. specialize (Hq st).
  destruct (m st) as [[a|e] st']; simpl in Hq; now rewrite Hq.
Qed.

Lemma triple_quiet_on {A : Type} (K : BehaviorSubject -> Prop) (m : M A) :
  quiet m ->
  triple (on_container K) m
    (fun _ => on_container K) (fun _ => on_container K).
Proof.
  intros Hq.
  exact (triple_quiet (fun o => exists s, o = Some s /\ K s) m Hq).
Qed.

(** What is known of the events holds across a computation, given what
    it emits. *)
Lemma triple_emits {A : Type} (allowed : Event -> Prop)
    (before : list Event) (m : M A) :
  emits allowed m ->
  triple (since allowed before) m
    (fun _ => since allowed before) (fun _ => since allowed before).
Proof.
  intros Hm st (evs & Hevs & Hall). destruct (Hm st) as (evs' & Hevs' & Hall').
  assert (H : since allowed before (snd (m st))).
  { exists (evs ++ evs'). rewrite Hevs', Hevs, app_assoc. split; [reflexivity|].
    apply Forall_app. now split. }
  destruct (m st) as [[a|e] st']; exact H.
Qed.

(* ================================================================== *)
(** ** What the computations emit *)

Lemma since_refl (allowed : Event -> Prop) (st : State) :
  since allowed (events st) st.
Proof. exists []. now rewrite app_nil_r. Qed.

Lemma emits_silent {A : Type} (allowed : Event -> Prop) (m : M A) :
  (forall st, events (snd (m st)) = events st) -> emits allowed m.
Proof.
  intros H st. exists []. rewrite app_nil_r. split; [apply H | constructor].
Qed.

Lemma emits_ret {A : Type} (allowed : Event -> Prop) (a : A) :
  emits allowed (ret a).
Proof. now apply emits_silent. Qed.

Lemma emits_throw {A : Type} (allowed : Event -> Prop) (e : JS.JSError) :
  emits allowed (@throw A e).
Proof. now apply emits_silent. Qed.

Lemma emits_lift {A : Type} (allowed : Event -> Prop) (o : Outcome A) :
  emits allowed (lift o).
Proof. now apply emits_silent. Qed.

Lemma emits_log (allowed : Event -> Prop) (ev : Event) :
  allowed ev -> emits allowed (log ev).
Proof. intros H st. exists [ev]. split; [reflexivity | now constructor]. Qed.

Lemma emits_bind {A B : Type} (allowed : Event -> Prop) (m : M A)
    (k : A -> M B) :
  emits allowed m -> (forall a, emits allowed (k a)) ->
  emits allowed (bind m k).
Proof.
  intros Hm Hk st. unfold bind. specialize (Hm st).
  destruct (m st) as [[a|e] st1]; simpl in *.
  - destruct Hm as (evs & Hevs & Hall).
    destruct (Hk a st1) as (evs' & Hevs' & Hall').
    exists (evs ++ evs'). rewrite Hevs', Hevs, app_assoc.
    split; [reflexivity | apply Forall_app; now split].
  - exact Hm.
Qed.

Lemma emits_bind_post {A B : Type} (allowed : Event -> Prop) (m : M A)
    (k : A -> M B) (Q : A -> Prop) :
  emits allowed m ->
  (forall st a, fst (m st) = Ok a -> Q a) ->
  (forall a, Q a -> emits allowed (k a)) ->
  emits allowed (bind m k).
Proof.
  intros Hm HQ Hk st. unfold bind. specialize (Hm st). specialize (HQ st).
  destruct (m st) as [[a|e] st1]; simpl in *; [|exact Hm].
  destruct Hm as (evs & E & Hall).
  destruct (Hk a (HQ a eq_refl) st1) as (evs' & E' & Hall').
  exists (evs ++ evs'). split.
  - now rewrite E', E, app_assoc.
  - apply Forall_app. now split.
Qed.

Lemma emits_try_catch {A : Type} (allowed : Event -> Prop) (m : M A)
    (h : JS.JSError -> M A) :
  emits allowed m -> (forall e, emits allowed (h e)) ->
  emits allowed (try_catch m h).
Proof.
  intros Hm Hh st. unfold try_catch. specialize (Hm st).
  destruct (m st) as [[a|e] st1]; simpl in *.
  - exact Hm.
  - destruct Hm as (evs & Hevs & Hall).
    destruct (Hh e st1) as (evs' & Hevs' & Hall').
    exists (evs ++ evs'). rewrite Hevs', Hevs, app_assoc.
    split; [reflexivity | apply Forall_app; now split].
Qed.

Lemma emits_all {A B : Type} (allowed : Event -> Prop) (f : A -> M B)
    (l : list A) :
  (forall a, In a l -> emits allowed (f a)) -> emits allowed (all f l).
Proof.
  induction l as [|a l IH]; intros Hf; simpl.
  - apply emits_ret.
  - apply emits_bind; [apply Hf; now left|]. intros b.
    apply emits_bind; [apply IH; intros x Hx; apply Hf; now right|].
    intros bs. apply emits_ret.
Qed.

Lemma emits_history {A : Type} (allowed : Event -> Prop)
    (f : list Event -> M A) :
  (forall evs, emits allowed (f evs)) ->
  emits allowed (fun st => f (events st) st).
Proof. intros H st. apply H. Qed.

Lemma emits_weaken {A : Type} (allowed allowed' : Event -> Prop) (m : M A) :
  (forall ev, allowed ev -> allowed' ev) ->
  emits allowed m -> emits allowed' m.
Proof.
  intros Hw Hm st. destruct (Hm st) as (evs & Hevs & Hall).
  exists evs. split; [exact Hevs|].
  revert Hall. apply Forall_impl. exact Hw.
Qed.

Lemma check_parameters_state (args : JS.object) (ps : list ToolParameter)
    (st : State) :
  snd (check_parameters args ps st) = st.
Proof.
  induction ps as [|p ps IH]; simpl; [reflexivity|].
  destruct (check_parameter args p); [reflexivity | exact IH].
Qed.

Lemma execute_connected (env : Env) (t : ToolProvider) (parameters : JS.value)
    (st : State) :
  connect_reply env (events st) (sseUrl (serverUrl t)) = None ->
  execute env t parameters st
  = match tool_reply env (events st ++ [EvConnect (sseUrl (serverUrl t))])
            (sseUrl (serverUrl t)) (toolName t) parameters with
    | Ok result =>
        (result_text result,
         after st [EvConnect (sseUrl (serverUrl t));
                   EvCallTool (sseUrl (serverUrl t)) (toolName t) parameters;
                   EvClose (sseUrl (serverUrl t))])
    | Throw e =>
        (Throw e,
         after st [EvConnect (sseUrl (serverUrl t));
                   EvCallTool (sseUrl (serverUrl t)) (toolName t) parameters])
    end.
Proof.
  intros Hc. unfold execute, Client_connect, bind at 1. rewrite Hc.
  cbn -[result_text sseUrl].
  destruct (tool_reply env _ _ _ _) as [result|e];
    unfold after; cbn -[result_text sseUrl]; now rewrite <- !app_assoc.
Qed.

Lemma emits_execute (env : Env) (t : ToolProvider) (parameters : JS.value) :
  emits (execute_event t) (execute env t parameters).
Proof.
  intros st.
  destruct (connect_reply env (events st) (sseUrl (serverUrl t)))
    as [e|] eqn:Hc.
  - assert (E : execute env t parameters st = (Throw e, st)).
    { unfold execute, bind, Client_connect. now rewrite Hc. }
    rewrite E. apply since_refl.
  - rewrite (execute_connected env t parameters st Hc).
    destruct (tool_reply env _ _ _ _) as [result|e]; simpl.
    + exists [EvConnect (sseUrl (serverUrl t));
              EvCallTool (sseUrl (serverUrl t)) (toolName t) parameters;
              EvClose (sseUrl (serverUrl t))].
      split; [reflexivity | repeat constructor].
    + exists [EvConnect (sseUrl (serverUrl t));
              EvCallTool (sseUrl (serverUrl t)) (toolName t) parameters].
      split; [reflexivity | repeat constructor].
Qed.

Lemma emits_attempt {A : Type} (allowed : Event -> Prop) (m : M A) :
  emits allowed m -> emits allowed (attempt m).
Proof.
  intros H st. specialize (H st). rewrite attempt_ok. exact H.
Qed.

Lemma emits_deliver (allowed : Event -> Prop) (handler : M unit) :
  emits allowed handler -> emits allowed (deliver handler).
Proof.
  intros H. unfold deliver. apply emits_try_catch; [exact H|].
  intros e. apply emits_ret.
Qed.

Lemma tSet_get_In (tools : list ToolProvider) (name' : string)
    (t : ToolProvider) :
  tSet_get tools name' = Some t -> In t tools /\ toolName t = name'.
Proof.
  unfold tSet_get. intros H. apply find_some in H. destruct H as [Hin Hn].
  split; [now apply in_rev | now apply String.eqb_eq].
Qed.

Lemma emits_callTool (env : Env) (tool : ToolProvider) (args : JS.object) :
  emits (tool_event tool args) (callTool env tool args).
Proof.
  intros st.
  destruct (connect_reply env (events st) (sseUrl (serverUrl tool)))
    as [e|] eqn:Hc.
  - assert (E : callTool env tool args st = (Throw e, st)).
    { unfold callTool, bind, Client_connect. now rewrite Hc. }
    rewrite E. apply since_refl.
  - rewrite (callTool_connected env tool args st Hc).
    unfold bind at 1.
    pose proof (check_parameters_state args (parameters tool)
                  (after st [EvConnect (sseUrl (serverUrl tool))])) as Hs.
    destruct (check_parameters args (parameters tool) _) as [[[]|e] st1];
      simpl in Hs; subst st1.
    + unfold bind at 1. rewrite Client_callTool_connected.
      destruct (tool_reply env _ _ _ _) as [result|e]; simpl.
      * exists [EvConnect (sseUrl (serverUrl tool));
                EvCallTool (sseUrl (serverUrl tool)) (toolName tool)
                  (JS.Obj args);
                EvClose (sseUrl (serverUrl tool))].
        split; [simpl; now rewrite <- !app_assoc | repeat constructor].
      * exists [EvConnect (sseUrl (serverUrl tool));
                EvCallTool (sseUrl (serverUrl tool)) (toolName tool)
                  (JS.Obj args)].
        split; [simpl; now rewrite <- !app_assoc | repeat constructor].
    + exists [EvConnect (sseUrl (serverUrl tool))].
      split; [reflexivity | repeat constructor].
Qed.

Lemma hook_state (env : Env) (d : Daemon) (h : IHook) (st : State) :
  snd (hook env d h st) = st.
Proof.
  unfold hook, bind, lift, ret, Client_callTool, new_Client, throw. simpl.
  destruct (String.eqb (daemonTool h) "sign"); [|reflexivity].
  now destruct (sign env d (daemonArgs h)).
Qed.

Lemma emits_hook (allowed : Event -> Prop) (env : Env) (d : Daemon)
    (h : IHook) :
  emits allowed (hook env d h).
Proof. apply emits_silent. intros st. now rewrite hook_state. Qed.

Lemma emits_lifecycle_value (allowed : Event -> Prop) :
  emits allowed lifecycle_value.
Proof.
  apply emits_silent. intros st. unfold lifecycle_value.
  now destruct (lifecycle st).
Qed.

Lemma emits_lifecycle_next (allowed : Event -> Prop) (v : Lifecycle.t) :
  emits allowed (lifecycle_next v).
Proof.
  apply emits_silent. intros st. unfold lifecycle_next.
  now destruct (lifecycle st).
Qed.

Lemma emits_return_lifecycle (allowed : Event -> Prop) :
  emits allowed return_lifecycle.
Proof.
  apply emits_silent. intros st. unfold return_lifecycle.
  now destruct (lifecycle st).
Qed.

Lemma emits_when (allowed : Event -> Prop) (b : bool) (m : M unit) :
  (b = true -> emits allowed m) -> emits allowed (when b m).
Proof. destruct b; simpl; intros H; [now apply H | apply emits_ret]. Qed.

Lemma emits_base_lifecycle (allowed : Event -> Prop) (env : Env) (d : Daemon)
    (msg : string) (opts : option Opts.t) :
  emits allowed (base_lifecycle env d msg opts).
Proof.
  unfold base_lifecycle. apply emits_bind.
  - destruct (keypair d); [apply emits_ret | apply emits_throw].
  - intros pk.
    repeat (apply emits_bind; [now apply emits_silent | intros ?]).
    apply emits_ret.
Qed.

Section StageEvents.

Variable env : Env.
Variable d : Daemon.
Variable opts : option Opts.t.

Lemma emits_callTools (role : string) :
  enabled opts role ->
  emits (stage_event d opts) (callTools env d role opts).
Proof.
  intros Hrole. unfold callTools.
  apply emits_bind; [apply emits_lifecycle_value|]. intros v.
  apply emits_all. intros tool Hin. apply filter_In in Hin.
  destruct Hin as [Hin Hty]. apply String.eqb_eq in Hty.
  eapply emits_weaken; [|apply emits_callTool].
  intros ev Hev. exists tool, v. rewrite Hty. now repeat split.
Qed.

Lemma emits_fetchContext :
  stage opts Stages.context = true ->
  emits (stage_event d opts) (fetchContext env d opts).
Proof.
  intros Hs. unfold fetchContext.
  apply emits_bind; [apply emits_callTools; left; now split|]. intros r.
  apply emits_bind; [apply emits_lifecycle_value|]. intros v.
  apply emits_lifecycle_next.
Qed.

Lemma emits_generatePrompt (allowed : Event -> Prop) :
  emits allowed generatePrompt.
Proof.
  unfold generatePrompt.
  apply emits_bind; [apply emits_lifecycle_value|]. intros v.
  apply emits_lifecycle_next.
Qed.

Lemma emits_takeActions :
  stage opts Stages.actions = true ->
  emits (stage_event d opts) (takeActions env d opts).
Proof.
  intros Hs. unfold takeActions.
  apply emits_bind; [apply emits_callTools; right; left; now split|].
  intros r.
  apply emits_bind; [apply emits_lifecycle_value|]. intros v.
  apply emits_bind; [apply emits_lifecycle_next|]. intros _.
  apply emits_bind; [apply emits_lifecycle_value|]. intros v'.
  apply emits_bind; [apply emits_all; intros h _; apply emits_hook|].
  intros hr.
  apply emits_bind; [apply emits_lifecycle_value|]. intros v''.
  apply emits_lifecycle_next.
Qed.

Lemma emits_postProcessStage :
  stage opts Stages.postProcess = true ->
  emits (stage_event d opts) (postProcessStage env d opts).
Proof.
  intros Hs. unfold postProcessStage.
  apply emits_bind; [apply emits_callTools; right; right; now split|].
  intros r.
  apply emits_bind; [apply emits_lifecycle_value|]. intros v.
  apply emits_lifecycle_next.
Qed.

(** What the subscription of [messageWithTools] may log: the sessions of
    the tools the model asks for, and those of the stages that follow the
    stream. *)
Lemma emits_streamHandler (tools : list ToolProvider)
    (textStream : TextStream) :
  (forall t, In t tools -> In t (d_tools d) /\ type t = "ondemand") ->
  forall output,
    emits (fun ev => stage_event d opts ev \/ ondemand_event d ev)
      (streamHandler env tools (completion_observer env d opts) output
         textStream).
Proof.
  intros Htools.
  induction textStream as [chunk rest IH|name' parameters resume IH|fin];
    intros output; cbn [streamHandler].
  - apply emits_bind.
    + apply emits_deliver. cbn [completion_observer on_next].
      unfold publish_output.
      apply emits_bind; [apply emits_lifecycle_value|]. intros v.
      apply emits_lifecycle_next.
    + intros u. apply emits_bind; [apply IH|]. intros r. apply emits_ret.
  - destruct (tSet_get tools name') as [t|] eqn:Ht; [|apply IH].
    apply tSet_get_In in Ht. destruct Ht as [Hin _].
    apply emits_bind; [|intros result; apply IH].
    apply emits_attempt.
    eapply emits_weaken; [|apply emits_execute].
    intros ev Hev. right. exists t.
    destruct (Htools t Hin) as [Hd Hty]. now repeat split.
  - destruct fin as [|e]; cbn [completion_observer on_complete on_error].
    + apply emits_bind; [|intros u; apply emits_ret].
      apply emits_deliver. apply emits_bind.
      * apply emits_when. intros Hs.
        eapply emits_weaken; [|apply emits_takeActions; exact Hs].
        intros ev Hev. now left.
      * intros u. apply emits_when. intros Hs.
        eapply emits_weaken; [|apply emits_postProcessStage; exact Hs].
        intros ev Hev. now left.
    + apply emits_bind; [|intros u; apply emits_ret].
      apply emits_deliver, emits_ret.
Qed.

Lemma emits_subscribe (outputStream : Observable) :
  (forall t, In t (o_tools outputStream) ->
             In t (d_tools d) /\ type t = "ondemand") ->
  emits (fun ev => stage_event d opts ev \/ ondemand_event d ev)
    (subscribe env d opts outputStream).
Proof.
  intros Htools. unfold subscribe.
  apply emits_bind; [|intros r; apply emits_ret].
  apply (emits_history _
           (fun evs =>
              r <- streamHandler env (o_tools outputStream)
                     (completion_observer env d opts) (o_output outputStream)
                     (stream_reply env evs) ;;
              ret (fst r, mkObservable (o_tools outputStream) (snd r)))).
  intros evs. apply emits_bind; [now apply emits_streamHandler|].
  intros r. apply emits_ret.
Qed.

Lemma emits_await_completion (allowed : Event -> Prop) (completion : M unit) :
  emits allowed completion ->
  emits allowed (await_completion env completion).
Proof.
  intros H.
  apply (emits_history _
           (fun evs => _ <- try_catch completion (fun _ => ret tt) ;;
                       ret (timeout_after env evs))).
  intros evs. apply emits_bind; [|intros u; apply emits_ret].
  apply emits_try_catch; [exact H | intros e; apply emits_ret].
Qed.

Lemma emits_genText (chosen : Chosen) (prompt : string) :
  emits (fun ev =>
           match ev with
           | EvChat p m e k sys _ => chosen_request opts chosen p m e k sys
           | _ => False
           end)
    (genText env (c_provider chosen) (c_model chosen) (c_endpoint chosen)
       (c_apiKey chosen)
       (JS.nullish (opt (opt opts Opts.llm) LLM.systemPrompt) "") prompt).
Proof.
  unfold genText. apply emits_try_catch; [|intros e; apply emits_throw].
  destruct (supported_provider (c_provider chosen)) eqn:Hs;
    [|apply emits_throw].
  apply (emits_history _
           (fun evs => _ <- log _ ;; content <- lift (chat_reply env evs) ;;
                       ret (JS.nullish content ""))).
  intros evs. apply emits_bind.
  - apply emits_log. now repeat split.
  - intros _. apply emits_bind; [apply emits_lift|]. intros c. apply emits_ret.
Qed.

Lemma emits_genTextWithTools (chosen : Chosen) (prompt : string)
    (tools : list ToolProvider) :
  emits (fun ev =>
           match ev with
           | EvStream p m e k sys _ names =>
               chosen_request opts chosen p m e k sys
               /\ names = own_keys (map toolName tools)
           | _ => False
           end)
    (genTextWithTools env (c_provider chosen) (c_model chosen)
       (c_endpoint chosen) (c_apiKey chosen)
       (JS.nullish (opt (opt opts Opts.llm) LLM.systemPrompt) "") prompt
       tools).
Proof.
  unfold genTextWithTools.
  apply emits_try_catch; [|intros e; apply emits_throw].
  destruct (supported_provider (c_provider chosen)) eqn:Hs;
    [|apply emits_throw].
  apply emits_bind; [|intros u; apply emits_ret].
  apply emits_log. now repeat split.
Qed.

End StageEvents.

Lemma try_catch_lift_ok {A B : Type} (a : A) (k : A -> M B)
    (h : JS.JSError -> M B) (st : State) :
  try_catch (bind (lift (Ok a)) k) h st = try_catch (k a) h st.
Proof. reflexivity. Qed.

Lemma try_catch_lift_throw {A B : Type} (e : JS.JSError) (k : A -> M B)
    (h : JS.JSError -> M B) (st : State) :
  try_catch (bind (lift (Throw e)) k) h st = h e st.
Proof. reflexivity. Qed.

(** X9: what [message] can do to the outside.  Every event of a call is
    a session step with a registered tool whose role is context, action or
    postProcess and whose stage is enabled (opened at the tool's endpoint,
    invoked by the tool's name with the lifecycle and the caller's arguments
    for it), or a chat request, made for the chosen provider, model,
    endpoint and key, the provider being a supported one.  So a disabled
    stage calls none of its tools, an [ondemand] tool is never called, no
    streamed generation is started and a hook leaves no trace. *)
Theorem message_emits (env : Env) (d : Daemon) (msg : string)
    (opts : option Opts.t) :
  emits (message_event d opts) (message env d msg opts).
Proof.
  intros st. unfold message.
  destruct (chooseLLM d opts) as [chosen|e] eqn:Hc.
  - rewrite try_catch_lift_ok. revert st. cbv zeta.
    apply emits_try_catch; [|intros e; apply emits_throw].
    apply emits_bind; [now apply emits_silent|]. intros _.
    apply emits_bind; [apply emits_base_lifecycle|]. intros base.
    apply emits_bind; [apply emits_lifecycle_next|]. intros _.
    apply emits_bind.
    { apply emits_when. intros Hs.
      eapply emits_weaken; [|apply emits_fetchContext; exact Hs].
      intros ev Hev. now left. }
    intros _. apply emits_bind; [apply emits_generatePrompt|]. intros _.
    apply emits_bind; [apply emits_lifecycle_value|]. intros v.
    apply emits_bind.
    { eapply emits_weaken; [|apply emits_genText].
      intros ev Hev. right. destruct ev; try contradiction.
      exists chosen. now split. }
    intros output. apply emits_bind; [apply emits_lifecycle_next|]. intros _.
    apply emits_bind.
    { apply emits_when. intros Hs.
      eapply emits_weaken; [|apply emits_takeActions; exact Hs].
      intros ev Hev. now left. }
    intros _. apply emits_bind.
    { apply emits_when. intros Hs.
      eapply emits_weaken; [|apply emits_postProcessStage; exact Hs].
      intros ev Hev. now left. }
    intros _. apply emits_return_lifecycle.
  - rewrite try_catch_lift_throw. apply since_refl.
Qed.

Lemma genTextWithTools_returns (env : Env)
    (p m e k sys prompt : string) (tools : list ToolProvider) (st : State)
    (outputStream : Observable) :
  fst (genTextWithTools env p m e k sys prompt tools st) = Ok outputStream ->
  outputStream = mkObservable tools "".
Proof.
  unfold genTextWithTools, try_catch.
  destruct (supported_provider p); simpl; [|discriminate].
  intros H. now injection H as <-.
Qed.

(** X10: what [messageWithTools] can do to the outside.  Every event of a
    call is a session step with a registered tool of an enabled stage, as
    for [message]; or a session step with a registered tool of type
    [ondemand] (opened at the tool's endpoint, invoked by the tool's name),
    which the model may ask for during the stream; or a streamed
    generation, started for the chosen and supported provider with the keys
    of the object that holds the [ondemand] tools by name.  No chat
    completion is requested, and no other server is contacted. *)
Theorem messageWithTools_emits (env : Env) (d : Daemon) (msg : string)
    (opts : option Opts.t) :
  emits (messageWithTools_event d opts) (messageWithTools env d msg opts).
Proof.
  intros st. unfold messageWithTools.
  destruct (chooseLLM d opts) as [chosen|e] eqn:Hc.
  - rewrite try_catch_lift_ok. revert st.
    apply emits_try_catch; [|intros e; apply emits_throw].
    apply emits_bind; [now apply emits_silent|]. intros _.
    apply emits_bind; [apply emits_base_lifecycle|]. intros base.
    apply emits_bind; [apply emits_lifecycle_next|]. intros _.
    apply emits_bind.
    { apply emits_when. intros Hs.
      eapply emits_weaken; [|apply emits_fetchContext; exact Hs].
      intros ev Hev. now left. }
    intros _. apply emits_bind; [apply emits_generatePrompt|]. intros _.
    apply emits_bind; [apply emits_lifecycle_value|]. intros v.
    apply (emits_bind_post _ _ _
             (fun o => o = mkObservable
                            (filter (fun t => String.eqb (type t) "ondemand")
                               (d_tools d)) "")).
    { eapply emits_weaken; [|apply emits_genTextWithTools].
      intros ev Hev. right. right. destruct ev; try contradiction.
      destruct Hev as [Hreq Hnames]. split; [|exact Hnames].
      exists chosen. now split. }
    { intros st' o Ho. exact (genTextWithTools_returns _ _ _ _ _ _ _ _ _ _ Ho). }
    intros outputStream ->.
    apply emits_bind; [now apply emits_silent|]. intros before.
    apply emits_bind.
    { apply emits_await_completion.
      eapply emits_weaken; [|apply emits_subscribe].
      - intros ev [Hev|Hev]; [now left | right; now left].
      - cbn [o_tools]. intros t Ht. apply filter_In in Ht.
        destruct Ht as [Hin Hty]. split; [exact Hin|].
        now apply String.eqb_eq. }
    intros timeout.
    apply emits_bind; [apply emits_return_lifecycle|]. intros s.
    apply emits_ret.
  - rewrite try_catch_lift_throw. apply since_refl.
Qed.

(* ================================================================== *)
(** ** The container under republication *)

Lemma value_next (s : BehaviorSubject) (v : Lifecycle.t) :
  value (next s v) = v.
Proof. unfold value, next. simpl. apply last_last. Qed.

Lemma value_in (s : BehaviorSubject) :
  published s <> [] -> In (value s) (published s).
Proof.
  intros H. unfold value.
  destruct (exists_last H) as (l & x & E). rewrite E, last_last.
  apply in_or_app. right. now left.
Qed.

Lemma first_next (s : BehaviorSubject) (v base : Lifecycle.t) :
  nth_error (published s) 0 = Some base ->
  nth_error (published (next s v)) 0 = Some base.
Proof. simpl. now destruct (published s). Qed.

Lemma staged_identity (v v' : Lifecycle.t) :
  staged v v' -> identity v' = identity v.
Proof. now destruct 1. Qed.

Lemma staged_output (v v' : Lifecycle.t) :
  staged v v' -> Lifecycle.output v' = Lifecycle.output v.
Proof. now destruct 1. Qed.

Lemma frozen_next (base : Lifecycle.t) (s : BehaviorSubject)
    (v' : Lifecycle.t) :
  frozen base s -> identity v' = identity (value s) ->
  frozen base (next s v').
Proof.
  intros [Hfirst Hall] Hid. split.
  - now apply first_next.
  - simpl. apply Forall_app. split; [exact Hall|].
    constructor; [|constructor]. rewrite Hid.
    assert (Hne : published s <> []).
    { intros E. rewrite E in Hfirst. discriminate. }
    exact (proj1 (Forall_forall _ _) Hall _ (value_in s Hne)).
Qed.

Lemma frozen_stable (base : Lifecycle.t) : stable (frozen base).
Proof.
  intros s v' H Hst. apply frozen_next; [exact H|].
  now apply staged_identity.
Qed.

Lemma output_is_next (s : BehaviorSubject) (v' : Lifecycle.t) (out : string) :
  Lifecycle.output v' = Some out -> output_is out (next s v').
Proof.
  intros H. split.
  - simpl. now destruct (published s).
  - now rewrite value_next.
Qed.

Lemma output_is_stable (out : string) : stable (output_is out).
Proof.
  intros s v' [_ H] Hst. apply output_is_next.
  now rewrite (staged_output _ _ Hst).
Qed.

Lemma stable_conj (K1 K2 : BehaviorSubject -> Prop) :
  stable K1 -> stable K2 -> stable (fun s => K1 s /\ K2 s).
Proof. intros H1 H2 s v' [Hk1 Hk2] Hst. split; auto. Qed.

(* ================================================================== *)
(** ** Specifications of the stages *)

Section StageSpecs.

Variable env : Env.
Variable d : Daemon.
Variable opts : option Opts.t.
Variable K : BehaviorSubject -> Prop.
Hypothesis K_stable : stable K.

(** Reading the container returns its current value. *)
Lemma spec_lifecycle_value :
  triple (on_container K) lifecycle_value
    (fun v st => exists s, lifecycle st = Some s /\ K s /\ v = value s)
    (fun _ => on_container K).
Proof.
  intros st (s & Hs & Hk). unfold lifecycle_value. rewrite Hs.
  exists s. now repeat split.
Qed.

Lemma spec_lifecycle_next (K' : BehaviorSubject -> Prop) (v' : Lifecycle.t)
    (E : JS.JSError -> State -> Prop) :
  triple (fun st => exists s, lifecycle st = Some s /\ K' (next s v'))
    (lifecycle_next v') (fun _ => on_container K') E.
Proof.
  intros st (s & Hs & Hk). unfold lifecycle_next. rewrite Hs.
  exists (next s v'). now split.
Qed.

Lemma spec_republish (f : Lifecycle.t -> Lifecycle.t) :
  (forall v, staged v (f v)) ->
  triple (on_container K) (v <- lifecycle_value ;; lifecycle_next (f v))
    (fun _ => on_container K) (fun _ => on_container K).
Proof.
  intros Hf. eapply triple_bind; [apply spec_lifecycle_value|]. intros v.
  eapply triple_conseq;
    [apply (spec_lifecycle_next K (f v) (fun _ => on_container K))
    | | intros; assumption | intros; assumption].
  intros st (s & Hs & Hk & ->). exists s. split; [exact Hs|].
  now apply K_stable.
Qed.

Lemma spec_callTools (role : string) :
  triple (on_container K) (callTools env d role opts)
    (fun _ => on_container K) (fun _ => on_container K).
Proof. apply triple_quiet_on, quiet_callTools. Qed.

Lemma spec_fetchContext :
  triple (on_container K) (fetchContext env d opts)
    (fun _ => on_container K) (fun _ => on_container K).
Proof.
  unfold fetchContext. eapply triple_bind; [apply spec_callTools|].
  intros results.
  apply (spec_republish (fun v => Lifecycle.with_context v results)).
  intros v. constructor.
Qed.

Lemma spec_generatePrompt :
  triple (on_container K) generatePrompt
    (fun _ => on_container K) (fun _ => on_container K).
Proof.
  unfold generatePrompt.
  apply (spec_republish
           (fun v => Lifecycle.with_generatedPrompt v
                       (createPrompt
                          (JS.nullish (Lifecycle.daemonName v) "")
                          (JS.nullish (Lifecycle.identityPrompt v) "")
                          (JS.nullish (Lifecycle.message v) "")
                          (JS.nullish (Lifecycle.context v) [])
                          (JS.nullish (Lifecycle.tools v) [])))).
  intros v. constructor.
Qed.

Lemma spec_takeActions :
  triple (on_container K) (takeActions env d opts)
    (fun _ => on_container K) (fun _ => on_container K).
Proof.
  unfold takeActions. eapply triple_bind; [apply spec_callTools|].
  intros results.
  eapply triple_bind; [apply spec_lifecycle_value|]. intros v.
  apply (triple_bind _ _ _ (fun _ => on_container K)).
  { eapply triple_conseq;
      [apply (spec_lifecycle_next K (Lifecycle.with_actionsLog v results)
                (fun _ => on_container K)) | | intros; assumption | intros; assumption].
    intros st (s & Hs & Hk & ->). exists s. split; [exact Hs|].
    apply K_stable; [exact Hk | constructor]. }
  intros _. eapply triple_bind; [apply spec_lifecycle_value|]. intros v'.
  apply (triple_bind _ _ _ (fun _ => on_container K)).
  { eapply triple_conseq;
      [apply (triple_quiet_on K
                (all (hook env d) (JS.nullish (Lifecycle.hooks v') [])));
       apply quiet_all; intros h; apply quiet_hook
      | | intros; assumption | intros; assumption].
    intros st (s & Hs & Hk & _). now exists s. }
  intros hookResults.
  apply (spec_republish (fun v => Lifecycle.with_hooksLog v hookResults)).
  intros w. constructor.
Qed.

Lemma spec_postProcessStage :
  triple (on_container K) (postProcessStage env d opts)
    (fun _ => on_container K) (fun _ => on_container K).
Proof.
  unfold postProcessStage. eapply triple_bind; [apply spec_callTools|].
  intros results.
  apply (spec_republish (fun v => Lifecycle.with_postProcessLog v results)).
  intros v. constructor.
Qed.

Lemma spec_return_lifecycle (E : JS.JSError -> State -> Prop) :
  triple (on_container K) return_lifecycle
    (fun s st => lifecycle st = Some s /\ K s) E.
Proof.
  intros st (s & Hs & Hk). unfold return_lifecycle. rewrite Hs. now split.
Qed.

End StageSpecs.

(* ================================================================== *)
(** ** Specifications of the two pipelines *)

Lemma triple_exact {A : Type} (m : M A) (x : State) :
  triple (fun st => st = x) m
    (fun a st' => m x = (Ok a, st')) (fun e st' => m x = (Throw e, st')).
Proof. intros st ->. now destruct (m x) as [[a|e] st']. Qed.

Lemma triple_pure {A : Type} (F : Prop) (P : State -> Prop) (m : M A)
    (Q : A -> State -> Prop) (E : JS.JSError -> State -> Prop) :
  (F -> triple P m Q E) -> triple (fun st => F /\ P st) m Q E.
Proof. intros H st [HF HP]. exact (H HF st HP). Qed.

(** What [genText] returns is the content of the reply, or the empty
    string when the reply has none. *)
Lemma spec_genText_reply (env : Env) (p m e k sys prompt : string) :
  triple (fun _ => True) (genText env p m e k sys prompt)
    (fun out _ =>
       exists history content,
         chat_reply env history = Ok content
         /\ out = JS.nullish content "")
    (fun _ _ => True).
Proof.
  intros st _. unfold genText, try_catch, throw.
  destruct (supported_provider p); [|exact I].
  unfold bind, log, lift, ret. simpl.
  destruct (chat_reply env (events st)) as [content|err] eqn:Hr; [|exact I].
  now exists (events st), content.
Qed.

(** The first publication. *)
Lemma spec_publish_base (env : Env) (d : Daemon) (msg : string)
    (opts : option Opts.t) (st : State) (base : Lifecycle.t)
    (E : JS.JSError -> State -> Prop) :
  triple (fun st1 => base_lifecycle env d msg opts (started st) = (Ok base, st1))
    (lifecycle_next base)
    (fun _ st' =>
       base_of env d msg opts st base
       /\ on_container (fun s => frozen base s /\ output_is "" s) st')
    E.
Proof.
  intros st1 Hb.
  pose proof (quiet_base_lifecycle env d msg opts (started st)) as Hq.
  rewrite Hb in Hq. simpl in Hq.
  unfold lifecycle_next. rewrite Hq. split; [now exists st1|].
  eexists. split; [reflexivity|]. split.
  - split; [reflexivity|]. now repeat constructor.
  - split; [discriminate|].
    unfold base_lifecycle, bind, nanoid, now, lift, ret, throw in Hb.
    destruct (keypair d); [|discriminate].
    destruct (generateApproval _ _ _ _ _ _); [|discriminate].
    injection Hb as <- _. reflexivity.
Qed.

Lemma message_spec (env : Env) (d : Daemon) (msg : string)
    (opts : option Opts.t) (st : State) :
  triple (fun st0 => st0 = st) (message env d msg opts)
    (fun s st' =>
       exists base history content,
         base_of env d msg opts st base
         /\ lifecycle st' = Some s
         /\ frozen base s
         /\ chat_reply env history = Ok content
         /\ output_is (JS.nullish content "") s)
    (fun e st' => wrapped e /\ stopped env d msg opts st st').
Proof.
  unfold message.
  apply (triple_try_catch _ _ _ _ (fun _ => stopped env d msg opts st)).
  2:{ intros e st' H. split; [now exists e | exact H]. }
  apply (triple_bind _ _ _ (fun _ st' => st' = st)).
  { intros st' E. cbv beta in E. subst st'. unfold lift.
    destruct (chooseLLM d opts); [reflexivity | now left]. }
  intros chosen. cbv zeta.
  apply (triple_bind _ _ _ (fun _ st' => st' = started st)).
  { intros st' E. cbv beta in E. now subst st'. }
  intros _.
  apply (triple_bind _ _ _
           (fun base st1 =>
              base_lifecycle env d msg opts (started st) = (Ok base, st1))).
  { eapply triple_conseq; [apply (triple_exact _ (started st)) | | |];
      [intros; assumption | intros; assumption |].
    intros e st1 Hb. right. left.
    pose proof (quiet_base_lifecycle env d msg opts (started st)) as Hq.
    rewrite Hb in Hq. exact Hq. }
  intros base.
  eapply triple_bind; [apply spec_publish_base|]. intros u.
  apply triple_pure. intros Hbase.
  assert (Hstop : forall K,
             (forall s, K s -> frozen base s) ->
             forall (e : JS.JSError) st',
               on_container K st' -> stopped env d msg opts st st').
  { intros K HK e st' (s & Hs & Hk). right. right. exists base.
    split; [exact Hbase|]. exists s. split; [exact Hs | now apply HK]. }
  pose proof (stable_conj _ _ (frozen_stable base) (output_is_stable ""))
    as Hst0.
  apply (triple_bind _ _ _
           (fun _ => on_container (fun s => frozen base s /\ output_is "" s))).
  { eapply triple_conseq;
      [apply triple_when, (spec_fetchContext env d opts _ Hst0) | | |];
      [intros; assumption | intros; assumption |].
    apply Hstop. now intros s [H _]. }
  intros _.
  apply (triple_bind _ _ _
           (fun _ => on_container (fun s => frozen base s /\ output_is "" s))).
  { eapply triple_conseq;
      [apply (spec_generatePrompt _ Hst0) | | |];
      [intros; assumption | intros; assumption |].
    apply Hstop. now intros s [H _]. }
  intros _.
  eapply triple_bind.
  { eapply triple_conseq;
      [apply (spec_lifecycle_value (fun s => frozen base s /\ output_is "" s))
      | | |]; [intros; assumption | intros a st' H; exact H |].
    apply Hstop. now intros s [H _]. }
  intros v.
  apply (triple_bind _ _ _
           (fun out st' =>
              (exists s, lifecycle st' = Some s /\ frozen base s
                         /\ v = value s)
              /\ exists history content,
                   chat_reply env history = Ok content
                   /\ out = JS.nullish content "")).
  { eapply triple_conseq;
      [apply (triple_conj _ _ _ _ _ _ _
                (triple_quiet
                   (fun o => exists s, o = Some s /\ frozen base s
                                       /\ v = value s)
                   _ (quiet_genText env _ _ _ _ _ _))
                (spec_genText_reply env _ _ _ _ _ _)) | | |].
    - intros st' (s & Hs & [Hf _] & Hv). split; [|exact I]. now exists s.
    - intros out st' H. exact H.
    - intros e st' [(s & Hs & Hf & _) _]. right. right. exists base.
      split; [exact Hbase|]. now exists s. }
  intros output.
  apply (triple_bind _ _ _
           (fun _ st' =>
              (exists history content,
                 chat_reply env history = Ok content
                 /\ output = JS.nullish content "")
              /\ on_container
                   (fun s => frozen base s /\ output_is output s) st')).
  { intros st' [(s & Hs & Hf & Hv) Hreply]. unfold lifecycle_next.
    rewrite Hs. split; [exact Hreply|]. eexists. split; [reflexivity|].
    split.
    - apply frozen_next; [exact Hf | now rewrite Hv].
    - now apply output_is_next. }
  intros _. apply triple_pure. intros (history & content & Hreply & ->).
  pose proof (stable_conj _ _ (frozen_stable base)
                (output_is_stable (JS.nullish content ""))) as Hst1.
  apply (triple_bind _ _ _
           (fun _ => on_container
                       (fun s => frozen base s
                                 /\ output_is (JS.nullish content "") s))).
  { eapply triple_conseq;
      [apply triple_when, (spec_takeActions env d opts _ Hst1) | | |];
      [intros; assumption | intros; assumption |].
    apply Hstop. now intros s [H _]. }
  intros _.
  apply (triple_bind _ _ _
           (fun _ => on_container
                       (fun s => frozen base s
                                 /\ output_is (JS.nullish content "") s))).
  { eapply triple_conseq;
      [apply triple_when, (spec_postProcessStage env d opts _ Hst1) | | |];
      [intros; assumption | intros; assumption |].
    apply Hstop. now intros s [H _]. }
  intros _.
  eapply triple_conseq;
    [apply (spec_return_lifecycle
              (fun s => frozen base s /\ output_is (JS.nullish content "") s)
              (fun _ _ => False)) | | |];
    [intros; assumption | | intros e st' []].
  intros s st' [Hs [Hf Ho]]. now exists base, history, content.
Qed.

Lemma triple_with_events {A : Type} (allowed : Event -> Prop)
    (before : list Event) (P : State -> Prop) (m : M A)
    (Q : A -> State -> Prop) (E : JS.JSError -> State -> Prop) :
  triple P m Q E -> emits allowed m ->
  triple (fun st => P st /\ since allowed before st) m
    (fun a st => Q a st /\ since allowed before st)
    (fun e st => E e st /\ since allowed before st).
Proof.
  intros H He. exact (triple_conj _ _ _ _ _ _ _ H (triple_emits _ before m He)).
Qed.

Lemma stage_event_no_generation (d : Daemon) (opts : option Opts.t)
    (ev : Event) :
  stage_event d opts ev -> no_generation ev.
Proof.
  intros (tool & v & _ & _ & H) Hg. destruct ev; simpl in *; contradiction.
Qed.

(** [genTextWithTools] throws before it starts anything; when it returns,
    the observable holds the tools it was given and an empty output. *)
Lemma spec_genTextWithTools (env : Env) (p m e k sys prompt : string)
    (tools : list ToolProvider) (P : State -> Prop)
    (K : option BehaviorSubject -> Prop) :
  triple (fun st => P st /\ K (lifecycle st))
    (genTextWithTools env p m e k sys prompt tools)
    (fun outputStream st' =>
       outputStream = mkObservable tools "" /\ K (lifecycle st'))
    (fun _ st' => P st').
Proof.
  intros st [HP HK]. unfold genTextWithTools, try_catch, throw.
  destruct (supported_provider p); [|exact HP].
  unfold bind, log, ret. simpl. now split.
Qed.

Lemma last_default {A : Type} (l : list A) (d d' : A) :
  l <> [] -> last l d = last l d'.
Proof.
  intros H. destruct (exists_last H) as (l' & x & ->).
  now rewrite !last_last.
Qed.

Lemma totals_snoc (chunks : list string) :
  forall (output chunk : string),
    totals output (chunks ++ [chunk])
    = totals output chunks
      ++ [(output ++ String.concat "" chunks ++ chunk)%string].
Proof.
  induction chunks as [|c cs IH]; intros output chunk.
  - reflexivity.
  - change ((c :: cs) ++ [chunk]) with (c :: (cs ++ [chunk])).
    cbn [totals]. rewrite IH, concat_empty_cons.
    now rewrite !string_app_assoc.
Qed.

Lemma streamed_weaken (base : Lifecycle.t) (pre : list Lifecycle.t)
    (chunks : list string) (s : BehaviorSubject) :
  streamed base pre chunks false s -> streamed base pre chunks true s.
Proof.
  intros (Hf & Ho & mid & post & Hp & Hm & Hpost & Hend).
  split; [exact Hf|]. split; [exact Ho|].
  exists mid, post. repeat split; try assumption. discriminate.
Qed.

Lemma streamed_stable (base : Lifecycle.t) (pre : list Lifecycle.t)
    (chunks : list string) :
  stable (streamed base pre chunks true).
Proof.
  intros s v' (Hf & Ho & mid & post & Hp & Hm & Hpost & _) Hst.
  split; [|split].
  - exact (frozen_stable base s v' Hf Hst).
  - exact (output_is_stable _ s v' Ho Hst).
  - exists mid, (post ++ [v']). repeat split.
    + simpl. rewrite Hp. now rewrite <- !app_assoc.
    + exact Hm.
    + apply Forall_app. split; [exact Hpost|].
      constructor; [|constructor].
      rewrite (staged_output _ _ Hst). exact (proj2 Ho).
    + discriminate.
Qed.

Section Subscription.

Variable env : Env.
Variable d : Daemon.
Variable opts : option Opts.t.
Variable base : Lifecycle.t.
Variable pre : list Lifecycle.t.

(** The [next] handler publishes the total with one more chunk. *)
Lemma spec_on_next (chunks : list string) (chunk : string) :
  triple (on_container (streamed base pre chunks false))
    (deliver (on_next (completion_observer env d opts)
                (String.concat "" chunks ++ chunk)))
    (fun _ => on_container (streamed base pre (chunks ++ [chunk]) false))
    (fun _ _ => False).
Proof.
  intros st (c & Hc & Hf & Ho & mid & post & Hp & Hm & _ & Hend).
  rewrite (Hend eq_refl), app_nil_r in Hp.
  assert (E : String.concat "" (chunks ++ [chunk])
              = (String.concat "" chunks ++ chunk)%string).
  { now rewrite concat_empty_app. }
  assert (Hnext : streamed base pre (chunks ++ [chunk]) false
                    (next c (Lifecycle.with_output (value c)
                               (String.concat "" chunks ++ chunk)))).
  { split; [|split].
    - apply frozen_next; [exact Hf | reflexivity].
    - apply output_is_next. now rewrite E.
    - exists (mid ++ [Lifecycle.with_output (value c)
                        (String.concat "" chunks ++ chunk)]), [].
      split; [|split; [|split; [constructor | reflexivity]]].
      + simpl. rewrite Hp. now rewrite app_nil_r, app_assoc.
      + rewrite map_app, Hm, totals_snoc, map_app. reflexivity. }
  unfold deliver, try_catch, completion_observer, on_next, publish_output,
    bind, lifecycle_value.
  rewrite Hc. unfold lifecycle_next. cbn [lifecycle]. rewrite Hc.
  eexists. split; [reflexivity | exact Hnext].
Qed.

(** The handlers of the end of the stream keep what was streamed. *)
Lemma spec_on_complete (chunks : list string) :
  triple (on_container (streamed base pre chunks true))
    (deliver (on_complete (completion_observer env d opts)))
    (fun _ => on_container (streamed base pre chunks true))
    (fun _ _ => False).
Proof.
  pose proof (streamed_stable base pre chunks) as Hst.
  unfold deliver. cbn [completion_observer on_complete].
  eapply triple_try_catch.
  - eapply triple_bind;
      [apply triple_when, (spec_takeActions env d opts _ Hst)|].
    intros u. apply triple_when, (spec_postProcessStage env d opts _ Hst).
  - intros e st H. exact H.
Qed.

(** A run of [streamHandler] for the subscription of [messageWithTools]:
    it goes one way through the stream and publishes, after the values
    that were there, the totals of the chunks on that way, one value per
    chunk, and then the values of the stages that follow the stream. *)
Lemma spec_streamHandler (tools : list ToolProvider)
    (textStream : TextStream) :
  forall chunks,
    triple (on_container (streamed base pre chunks false))
      (streamHandler env tools (completion_observer env d opts)
         (String.concat "" chunks) textStream)
      (fun _ st' =>
         exists parts fin,
           unfolds textStream parts fin
           /\ on_container (streamed base pre (chunks ++ texts parts) true)
                st')
      (fun _ _ => False).
Proof.
  induction textStream as [chunk rest IH|name' parameters resume IH|fin];
    intros chunks; cbn [streamHandler].
  - eapply triple_bind; [apply spec_on_next|]. intros u.
    apply (triple_bind _ _ _
             (fun _ st' =>
                exists parts fin,
                  unfolds rest parts fin
                  /\ on_container
                       (streamed base pre ((chunks ++ [chunk]) ++ texts parts)
                          true)
                       st')).
    + replace (String.concat "" chunks ++ chunk)%string
        with (String.concat "" (chunks ++ [chunk]))
        by now rewrite concat_empty_app.
      apply IH.
    + intros r st (parts & fin & Hu & Hon).
      exists (Text chunk :: parts), fin. split; [now constructor|].
      cbn [texts]. now rewrite <- app_assoc in Hon.
  - destruct (tSet_get tools name') as [t|].
    + intros st Hon. unfold bind. rewrite attempt_ok.
      assert (Hon' : on_container (streamed base pre chunks false)
                       (snd (execute env t parameters st))).
      { destruct Hon as (c & Hc & Hk). exists c. split; [|exact Hk].
        now rewrite (quiet_execute env t parameters st). }
      pose proof (IH (Some (fst (execute env t parameters st))) chunks _ Hon')
        as H.
      destruct (streamHandler env tools _ _ _ _) as [[r|e] st']; [|exact H].
      destruct H as (parts & fin & Hu & Hk).
      exists (Called name' parameters
                (Some (fst (execute env t parameters st))) :: parts), fin.
      split; [now constructor | exact Hk].
    + intros st Hon. pose proof (IH None chunks st Hon) as H.
      destruct (streamHandler env tools _ _ _ _) as [[r|e] st']; [|exact H].
      destruct H as (parts & fin & Hu & Hk).
      exists (Called name' parameters None :: parts), fin.
      split; [now constructor | exact Hk].
  - assert (Hend : forall st,
               on_container (streamed base pre chunks true) st ->
               exists parts fin',
                 unfolds (Finished fin) parts fin'
                 /\ on_container
                      (streamed base pre (chunks ++ texts parts) true) st).
    { intros st H. exists [], fin. split; [constructor|].
      cbn [texts]. now rewrite app_nil_r. }
    assert (Hw : forall st,
               on_container (streamed base pre chunks false) st ->
               on_container (streamed base pre chunks true) st).
    { intros st (c & Hc & Hk). exists c. split; [exact Hc|].
      now apply streamed_weaken. }
    destruct fin as [|e].
    + eapply triple_bind.
      * eapply triple_conseq; [apply spec_on_complete | exact Hw | |];
          intros; eassumption.
      * intros u st H. exact (Hend st H).
    + apply (triple_bind _ _ _
               (fun _ => on_container (streamed base pre chunks true))).
      * intros st H. exact (Hw st H).
      * intros u st H. exact (Hend st H).
Qed.

End Subscription.

(** The wait of [messageWithTools], from the subscription to the return:
    the container ends with the totals of the chunks of one way through
    the stream, and the caller receives it as it was when the wait
    ended. *)
Lemma spec_wait (env : Env) (d : Daemon) (opts : option Opts.t)
    (base : Lifecycle.t) (tools : list ToolProvider) :
  triple (on_container (fun s => frozen base s /\ output_is "" s))
    (before <- published_count ;;
     timeout <-
       await_completion env
         (subscribe env d opts (mkObservable tools "")) ;;
     lifecycle <- return_lifecycle ;;
     ret (seen before timeout lifecycle))
    (fun returned st' =>
       exists s history parts fin pre,
         lifecycle st' = Some s
         /\ unfolds (stream_reply env history) parts fin
         /\ streamed base pre (texts parts) true s
         /\ output_is "" (mkSubject (initial s) pre)
         /\ returned = seen (length pre) (timeout_after env history) s)
    (fun _ _ => False).
Proof.
  intros st (c & Hc & Hf & Ho).
  assert (Hk : on_container (streamed base (published c) [] false) st).
  { exists c. split; [exact Hc|]. split; [exact Hf|]. split; [exact Ho|].
    exists [], [].
    split; [now rewrite !app_nil_r|].
    split; [reflexivity|]. split; [constructor | reflexivity]. }
  pose proof (spec_streamHandler env d opts base (published c) tools
                (stream_reply env (events st)) [] st Hk) as H.
  unfold bind at 1, published_count. rewrite Hc.
  unfold bind at 1, await_completion, bind at 1, try_catch, subscribe,
    bind at 1, Observable_subscribe, bind at 1.
  cbn [o_tools o_output].
  change (String.concat "" []) with "" in H.
  destruct (streamHandler env tools (completion_observer env d opts) ""
              (stream_reply env (events st)) st) as [[r|e] st1];
    [|contradiction].
  destruct H as (parts & fin & Hu & s & Hs & Hstr).
  cbn [ret]. unfold bind, return_lifecycle, ret. rewrite Hs.
  exists s, (events st), parts, fin, (published c).
  split; [exact Hs|]. split; [exact Hu|]. split; [exact Hstr|].
  split; [|reflexivity].
  destruct Ho as [Hne Ho]. split; [exact Hne|].
  unfold value in *. cbn [published initial].
  now rewrite (last_default _ _ (initial c) Hne).
Qed.

Lemma ondemand_event_no_generation (d : Daemon) (ev : Event) :
  ondemand_event d ev -> no_generation ev.
Proof.
  intros (tool & _ & _ & H) Hg. destruct ev; simpl in *; contradiction.
Qed.

Lemma messageWithTools_spec (env : Env) (d : Daemon) (msg : string)
    (opts : option Opts.t) (st : State) :
  triple (fun st0 => st0 = st) (messageWithTools env d msg opts)
    (fun returned st' =>
       exists base s history parts fin pre,
         base_of env d msg opts st base
         /\ lifecycle st' = Some s
         /\ unfolds (stream_reply env history) parts fin
         /\ streamed base pre (texts parts) true s
         /\ output_is "" (mkSubject (initial s) pre)
         /\ returned = seen (length pre) (timeout_after env history) s)
    (fun e st' =>
       wrapped e
       /\ stopped env d msg opts st st'
       /\ since no_generation (events st) st').
Proof.
  unfold messageWithTools.
  apply (triple_try_catch _ _ _ _
           (fun _ st' => stopped env d msg opts st st'
                         /\ since no_generation (events st) st')).
  2:{ intros e st' H. split; [now exists e | exact H]. }
  apply (triple_bind _ _ _ (fun _ st' => st' = st)).
  { intros st' E. cbv beta in E. subst st'. unfold lift.
    destruct (chooseLLM d opts); [reflexivity|].
    split; [now left | apply since_refl]. }
  intros chosen.
  apply (triple_bind _ _ _ (fun _ st' => st' = started st)).
  { intros st' E. cbv beta in E. now subst st'. }
  intros ?.
  assert (Hsilent : forall o st1,
             base_lifecycle env d msg opts (started st) = (o, st1) ->
             since no_generation (events st) st1).
  { intros o st1 Hb.
    pose proof (emits_base_lifecycle no_generation env d msg opts (started st))
      as H. now rewrite Hb in H. }
  apply (triple_bind _ _ _
           (fun base st1 =>
              base_lifecycle env d msg opts (started st) = (Ok base, st1))).
  { eapply triple_conseq; [apply (triple_exact _ (started st)) | | |];
      [intros; assumption | intros; assumption |].
    intros e st1 Hb. split; [|exact (Hsilent _ _ Hb)]. right. left.
    pose proof (quiet_base_lifecycle env d msg opts (started st)) as Hq.
    rewrite Hb in Hq. exact Hq. }
  intros base.
  apply (triple_bind _ _ _
           (fun _ st' =>
              base_of env d msg opts st base
              /\ on_container (fun s => frozen base s /\ output_is "" s) st'
                 /\ since no_generation (events st) st')).
  { intros st1 Hb.
    pose proof (spec_publish_base env d msg opts st base (fun _ _ => False)
                  st1 Hb) as H1.
    pose proof (emits_lifecycle_next no_generation base st1) as H2.
    destruct (lifecycle_next base st1) as [[[]|e] st2]; [|contradiction].
    destruct H1 as [Hbase Hon]. split; [exact Hbase|]. split; [exact Hon|].
    destruct (Hsilent _ _ Hb) as (evs & Hevs & Hall).
    destruct H2 as (evs' & Hevs' & Hall'). simpl in Hevs'.
    exists (evs ++ evs'). rewrite Hevs', Hevs, app_assoc.
    split; [reflexivity | apply Forall_app; now split]. }
  intros u. apply triple_pure. intros Hbase.
  assert (Hstop : forall K,
             (forall s, K s -> frozen base s) ->
             forall (e : JS.JSError) st',
               on_container K st' /\ since no_generation (events st) st' ->
               stopped env d msg opts st st'
               /\ since no_generation (events st) st').
  { intros K HK e st' [(s & Hs & Hk) Hev]. split; [|exact Hev].
    right. right. exists base.
    split; [exact Hbase|]. exists s. split; [exact Hs | now apply HK]. }
  pose proof (stable_conj _ _ (frozen_stable base) (output_is_stable ""))
    as Hst0.
  apply (triple_bind _ _ _
           (fun _ st' =>
              on_container (fun s => frozen base s /\ output_is "" s) st'
              /\ since no_generation (events st) st')).
  { eapply triple_conseq;
      [apply (triple_with_events no_generation (events st) _ _ _ _
                (triple_when _ _ _ (spec_fetchContext env d opts _ Hst0)))
      | | |]; [ | intros; assumption | intros; assumption | ].
    - apply emits_when. intros Hs.
      eapply emits_weaken; [apply stage_event_no_generation|].
      apply emits_fetchContext. exact Hs.
    - apply Hstop. now intros s [H _]. }
  intros ?.
  apply (triple_bind _ _ _
           (fun _ st' =>
              on_container (fun s => frozen base s /\ output_is "" s) st'
              /\ since no_generation (events st) st')).
  { eapply triple_conseq;
      [apply (triple_with_events no_generation (events st) _ _ _ _
                (spec_generatePrompt _ Hst0)
                (emits_generatePrompt no_generation)) | | |];
      [intros; assumption | intros; assumption |].
    apply Hstop. now intros s [H _]. }
  intros ?.
  apply (triple_bind _ _ _
           (fun _ st' =>
              on_container (fun s => frozen base s /\ output_is "" s) st'
              /\ since no_generation (events st) st')).
  { eapply triple_conseq;
      [apply (triple_with_events no_generation (events st) _ _ _ _
                (triple_quiet_on (fun s => frozen base s /\ output_is "" s)
                   _ quiet_lifecycle_value)
                (emits_lifecycle_value no_generation)) | | |];
      [intros; assumption | intros; assumption |].
    apply Hstop. now intros s [H _]. }
  intros v.
  apply (triple_bind _ _ _
           (fun outputStream st' =>
              outputStream
              = mkObservable
                  (filter (fun t => String.eqb (type t) "ondemand")
                     (d_tools d)) ""
              /\ on_container (fun s => frozen base s /\ output_is "" s) st')).
  { eapply triple_conseq;
      [apply (spec_genTextWithTools env _ _ _ _ _ _ _
                (fun st' =>
                   on_container (fun s => frozen base s /\ output_is "" s) st'
                   /\ since no_generation (events st) st')
                (fun o => exists s, o = Some s
                                    /\ frozen base s /\ output_is "" s))
      | | |].
    - intros st' [Hon Hev]. split; [now split | exact Hon].
    - intros o st' H. exact H.
    - apply Hstop. now intros s [H _]. }
  intros outputStream. apply triple_pure. intros ->.
  eapply triple_conseq; [apply (spec_wait env d opts base) | | |];
    [intros; assumption | | intros e st' []].
  intros returned st' (s & history & parts & fin & pre & H).
  now exists base, s, history, parts, fin, pre.
Qed.

(* ================================================================== *)
(** ** The observable of the streaming strategy *)





(** The sample stream, subscribed once: the totals of its three chunks.
    A second subscription of the same observable starts from the [output]
    the first one left. *)
Example sample_stream_subscribed :
  forall o st1 ns o' st2,
    genTextWithTools sample_env "openai" "gpt-4o-mini"
      "https://api.openai.com/v1" "sk-test" "" "Hello" [hello_tool]
      initial_state = (Ok o, st1) ->
    Observable_subscribe sample_env o
      (mkObserver (fun _ => ret tt) (fun _ => ret tt) (ret tt)) st1
    = (Ok (ns, o'), st2) ->
    ns = [Next "Hel"; Next "Hello "; Next "Hello World"; Complete]
    /\ fst (Observable_subscribe sample_env o'
              (mkObserver (fun _ => ret tt) (fun _ => ret tt) (ret tt)) st2)
       = Ok ([Next "Hello WorldHel"; Next "Hello WorldHello ";
              Next "Hello WorldHello World"; Complete],
             mkObservable [hello_tool] "Hello WorldHello World").
Proof.
  intros o st1 ns o' st2 Hg Hsub.
  vm_compute in Hg. injection Hg as <- <-.
  vm_compute in Hsub. injection Hsub as <- <- <-.
  split; vm_compute; reflexivity.
Qed.

(* ================================================================== *)
(** ** The pipelines, continued *)

Lemma base_lifecycle_identity (env : Env) (d : Daemon) (msg : string)
    (opts : option Opts.t) (st st' : State) (base : Lifecycle.t) :
  base_lifecycle env d msg opts st = (Ok base, st') ->
  Lifecycle.message base = Some msg
  /\ Lifecycle.daemonName base = Some (name (character d))
  /\ Lifecycle.tools base = Some [].
Proof.
  unfold base_lifecycle, bind, nanoid, now, lift, ret, throw.
  destruct (keypair d); [|discriminate].
  destruct (generateApproval _ _ _ _ _ _); [|discriminate].
  intros E. injection E as <- _. now repeat split.
Qed.

Lemma stopped_frozen (env : Env) (d : Daemon) (msg : string)
    (opts : option Opts.t) (st st' : State) (s : BehaviorSubject) :
  lifecycle st = None ->
  stopped env d msg opts st st' ->
  lifecycle st' = Some s ->
  published s = []
  \/ exists base, base_of env d msg opts st base /\ frozen base s.
Proof.
  intros Hnone [->|[Hfresh|(base & Hbase & s' & Hs' & Hf)]] Hs.
  - congruence.
  - left. rewrite Hfresh in Hs. now injection Hs as <-.
  - right. exists base. split; [exact Hbase|]. congruence.
Qed.

(** The container a call leaves behind, whether it returned or failed. *)
Lemma container_frozen (env : Env) (d : Daemon) (msg : string)
    (opts : option Opts.t) (st : State) (s : BehaviorSubject) :
  lifecycle st = None ->
  lifecycle (snd (message env d msg opts st)) = Some s
  \/ lifecycle (snd (messageWithTools env d msg opts st)) = Some s ->
  published s = []
  \/ exists base, base_of env d msg opts st base /\ frozen base s.
Proof.
  intros Hnone [Hs|Hs].
  - pose proof (message_spec env d msg opts st st eq_refl) as H.
    destruct (message env d msg opts st) as [[s0|e] st']; simpl in Hs.
    + destruct H as (base & _ & _ & Hbase & Hs0 & Hf & _).
      right. exists base. split; [exact Hbase|]. congruence.
    + destruct H as [_ Hstop].
      exact (stopped_frozen env d msg opts st st' s Hnone Hstop Hs).
  - pose proof (messageWithTools_spec env d msg opts st st eq_refl) as H.
    destruct (messageWithTools env d msg opts st) as [[s0|e] st'];
      simpl in Hs.
    + destruct H as (base & s1 & _ & _ & _ & _ & Hbase & Hs1 & _ & [Hf _] & _).
      right. exists base. split; [exact Hbase|]. congruence.
    + destruct H as (_ & Hstop & _).
      exact (stopped_frozen env d msg opts st st' s Hnone Hstop Hs).
Qed.

(** X11: the identity of a lifecycle never changes.  In both pipelines,
    every value published to the container of a call carries the input
    message, the character's name and an empty [tools] list, and has the
    same public key, message id, creation time, approval, channel and
    identity prompt as the first value published, whether the call returned
    or failed on the way. *)
Theorem identity_fields_frozen (env : Env) (d : Daemon) (msg : string)
    (opts : option Opts.t) (st : State) (s : BehaviorSubject)
    (v : Lifecycle.t) :
  lifecycle st = None ->
  lifecycle (snd (message env d msg opts st)) = Some s
  \/ lifecycle (snd (messageWithTools env d msg opts st)) = Some s ->
  In v (published s) ->
  Lifecycle.message v = Some msg
  /\ Lifecycle.daemonName v = Some (name (character d))
  /\ Lifecycle.tools v = Some []
  /\ forall first, nth_error (published s) 0 = Some first ->
                   identity v = identity first.
Proof.
  intros Hnone Hs Hv.
  destruct (container_frozen env d msg opts st s Hnone Hs)
    as [E|(base & [st1 Hbase] & Hfirst & Hall)].
  - rewrite E in Hv. contradiction.
  - pose proof (proj1 (Forall_forall _ _) Hall v Hv) as Hid.
    destruct (base_lifecycle_identity env d msg opts _ _ _ Hbase)
      as (Hm & Hn & Ht).
    split; [|split; [|split]].
    + unfold identity in Hid. inversion Hid. congruence.
    + unfold identity in Hid. inversion Hid. congruence.
    + unfold identity in Hid. inversion Hid. congruence.
    + intros first Hf. rewrite Hfirst in Hf. now injection Hf as <-.
Qed.

Lemma identity_fields_frozen_witness :
  Forall (fun v => Lifecycle.message v = Some "Hello"
                   /\ Lifecycle.daemonName v = Some "TestDaemon")
         (published sample_subject).
Proof.
  apply Forall_forall. intros v Hv.
  destruct (identity_fields_frozen sample_env busy_daemon "Hello" sample_opts
              initial_state sample_subject v) as (Hm & Hn & _).
  - reflexivity.
  - left. vm_compute. reflexivity.
  - exact Hv.
  - split; [exact Hm | exact Hn].
Defined.

(** X12: the output [message] returns is the reply of the model.  When
    [message] returns, the output of the container's value is the content of
    a chat reply, or the empty string when the reply has no content; the
    action and post-process stages that run after the generation leave it as
    it is. *)
Theorem message_output_is_reply (env : Env) (d : Daemon) (msg : string)
    (opts : option Opts.t) (st : State) (s : BehaviorSubject) :
  fst (message env d msg opts st) = Ok s ->
  exists history content,
    chat_reply env history = Ok content
    /\ Lifecycle.output (value s) = Some (JS.nullish content "").
Proof.
  intros Hok.
  pose proof (message_spec env d msg opts st st eq_refl) as H.
  destruct (message env d msg opts st) as [[s0|e] st']; simpl in Hok;
    [|discriminate].
  injection Hok as ->.
  destruct H as (base & history & content & _ & _ & _ & Hr & _ & Ho).
  now exists history, content.
Qed.

Lemma message_output_is_reply_witness :
  exists history content,
    chat_reply sample_env history = Ok content
    /\ Lifecycle.output (value sample_subject) = Some (JS.nullish content "").
Proof.
  apply (message_output_is_reply sample_env busy_daemon "Hello" sample_opts
           initial_state sample_subject).
  vm_compute. reflexivity.
Defined.



(** X14: [messageWithTools] fails only before the generation starts.  If
    a call fails, no streamed generation (and no chat completion) was
    started by it; so once the stream is started, a failing stream, action
    tool, hook or post-process tool does not make the call fail: the
    container is returned. *)
Theorem messageWithTools_fails_before_generation (env : Env) (d : Daemon)
    (msg : string) (opts : option Opts.t) (st : State) (e : JS.JSError) :
  fst (messageWithTools env d msg opts st) = Throw e ->
  since no_generation (events st)
    (snd (messageWithTools env d msg opts st)).
Proof.
  intros Hthrow.
  pose proof (messageWithTools_spec env d msg opts st st eq_refl) as H.
  destruct (messageWithTools env d msg opts st) as [[s0|e'] st'];
    simpl in Hthrow; [discriminate|].
  now destruct H as (_ & _ & Hev).
Qed.

(** X15: a failure of either pipeline is one error wrapping its cause: its
    message is "Failed at step: " followed by the cause as a string. *)
Theorem pipeline_errors_wrapped (env : Env) (d : Daemon) (msg : string)
    (opts : option Opts.t) (st : State) (e : JS.JSError) :
  fst (message env d msg opts st) = Throw e
  \/ fst (messageWithTools env d msg opts st) = Throw e ->
  JS.ename e = "Error"
  /\ exists cause,
       JS.emessage e
       = ("Failed at step: " ++ JS.error_toString cause)%string.
Proof.
  intros [Hthrow|Hthrow].
  - pose proof (message_spec env d msg opts st st eq_refl) as H.
    destruct (message env d msg opts st) as [[s0|e'] st'];
      simpl in Hthrow; [discriminate|].
    injection Hthrow as ->. destruct H as [(cause & ->) _].
    split; [reflexivity | now exists cause].
  - pose proof (messageWithTools_spec env d msg opts st st eq_refl) as H.
    destruct (messageWithTools env d msg opts st) as [[s0|e'] st'];
      simpl in Hthrow; [discriminate|].
    injection Hthrow as ->. destruct H as ((cause & ->) & _).
    split; [reflexivity | now exists cause].
Qed.


(** The timer runs out after the first chunk: the caller finds the first
    total in the container, which goes on to the whole text, the result of
    the tool the model asked for included. *)
Example timeout_returns_partial_output :
  Lifecycle.output (value slow_returned) = Some "Hel"
  /\ Lifecycle.output
       (value (container_of
                 (messageWithTools slow_env busy_daemon "Hello" sample_opts
                    initial_state)))
     = Some "Hello Hello World"
  /\ In (EvCallTool hello_session "hello" (JS.Obj good_args))
        (events (snd (messageWithTools slow_env busy_daemon "Hello"
                        sample_opts initial_state))).
Proof.
  split; [vm_compute; reflexivity|]. split; [vm_compute; reflexivity|].
  vm_compute. tauto.
Qed.

Lemma messageWithTools_fails_before_generation_witness :
  since no_generation []
    (snd (messageWithTools sample_env empty_daemon "Hello" None initial_state)).
Proof.
  apply (messageWithTools_fails_before_generation sample_env empty_daemon
           "Hello" None initial_state
           (JS.Error "Failed at step: Error: No model provider added")).
  reflexivity.
Defined.

(** A broken stream and a failing action tool: [messageWithTools] returns,
    [message] fails. *)
Example failing_action_tool :
  (exists s,
     fst (messageWithTools failing_env action_daemon "Hello" sample_opts
            initial_state) = Ok s
     /\ Lifecycle.output (value s) = Some "Par")
  /\ fst (message failing_env action_daemon "Hello" sample_opts initial_state)
     = Throw (JS.Error "Failed at step: Error: tool failed").
Proof.
  split; [|vm_compute; reflexivity].
  eexists. split; vm_compute; reflexivity.
Qed.

Lemma pipeline_errors_wrapped_witness :
  JS.ename (JS.Error "Failed at step: Error: No model provider added")
  = "Error"
  /\ exists cause,
       JS.emessage (JS.Error "Failed at step: Error: No model provider added")
       = ("Failed at step: " ++ JS.error_toString cause)%string.
Proof.
  apply (pipeline_errors_wrapped sample_env empty_daemon "Hello" None
           initial_state).
  left. reflexivity.
Defined.

Lemma bind_throws_l {A B : Type} (m : M A) (k : A -> M B) :
  (forall st, exists e, fst (m st) = Throw e) ->
  forall st, exists e, fst (bind m k st) = Throw e.
Proof.
  intros H st. unfold bind. destruct (H st) as [e He].
  destruct (m st) as [[a|e'] st1]; simpl in *; [discriminate|]. now exists e'.
Qed.

Lemma bind_throws_r {A B : Type} (m : M A) (k : A -> M B) :
  (forall a st, exists e, fst (k a st) = Throw e) ->
  forall st, exists e, fst (bind m k st) = Throw e.
Proof.
  intros H st. unfold bind.
  destruct (m st) as [[a|e'] st1]; simpl; [apply H | now exists e'].
Qed.

Lemma try_catch_throws {A : Type} (m : M A) (h : JS.JSError -> M A) :
  (forall st, exists e, fst (m st) = Throw e) ->
  (forall e st, exists e', fst (h e st) = Throw e') ->
  forall st, exists e, fst (try_catch m h st) = Throw e.
Proof.
  intros Hm Hh st. unfold try_catch. destruct (Hm st) as [e He].
  destruct (m st) as [[a|e'] st1]; simpl in *; [discriminate | apply Hh].
Qed.

(** X16: a provider other than "openai" and "openrouter" is refused, and
    late.  When the chosen provider is not a supported one, [message] and
    [messageWithTools] always fail, whatever the servers and the model
    answer (the refusal is the generation step's: the stages before it
    run, as the example below shows). *)
Theorem unsupported_provider_fails (env : Env) (d : Daemon) (msg : string)
    (opts : option Opts.t) (st : State) (chosen : Chosen) :
  chooseLLM d opts = Ok chosen ->
  supported_provider (c_provider chosen) = false ->
  (exists e, fst (message env d msg opts st) = Throw e)
  /\ (exists e, fst (messageWithTools env d msg opts st) = Throw e).
Proof.
  intros Hc Hs.
  assert (Hh : forall (e : JS.JSError) st',
             exists e', fst (@failed_at_step BehaviorSubject e st') = Throw e').
  { intros e st'. now eexists. }
  split.
  - unfold message. rewrite Hc. rewrite try_catch_lift_ok. revert st.
    cbv zeta. apply try_catch_throws; [|exact Hh].
    do 5 (apply bind_throws_r; intros ?). apply bind_throws_r. intros v.
    apply bind_throws_l. intros st.
    unfold genText, try_catch. rewrite Hs. now eexists.
  - unfold messageWithTools. rewrite Hc. rewrite try_catch_lift_ok. revert st.
    apply try_catch_throws; [|exact Hh].
    do 5 (apply bind_throws_r; intros ?). apply bind_throws_r. intros v.
    apply bind_throws_l. intros st.
    unfold genTextWithTools, try_catch. rewrite Hs. now eexists.
Qed.

Lemma unsupported_provider_fails_witness :
  (exists e,
     fst (message sample_env busy_daemon "Hello" anthropic_opts initial_state)
     = Throw e)
  /\ (exists e,
        fst (messageWithTools sample_env busy_daemon "Hello" anthropic_opts
               initial_state) = Throw e).
Proof.
  apply (unsupported_provider_fails sample_env busy_daemon "Hello"
           anthropic_opts initial_state
           (mkChosen "anthropic" "claude-3" "sk-test"
              "https://api.anthropic.com")).
  - reflexivity.
  - reflexivity.
Defined.

Example unsupported_provider_after_context :
  fst (message sample_env busy_daemon "Hello" anthropic_opts initial_state)
  = Throw (JS.Error
             "Failed at step: Error: Error generating text: Error: Unsupported provider: anthropic")
  /\ events (snd (message sample_env busy_daemon "Hello" anthropic_opts
                    initial_state))
     <> [].
Proof.
  split; [vm_compute; reflexivity|]. vm_compute. discriminate.
Qed.

(** X17: a daemon without a keypair fails at the base stage.  Once the
    model is chosen, [message] and [messageWithTools] fail on reading the
    public key, before [generateApproval] is reached: the container has been
    created, nothing has been published, no identifier was drawn and the
    clock was not read. *)
Theorem keyless_daemon_fails_at_base (env : Env) (d : Daemon) (msg : string)
    (opts : option Opts.t) (st : State) (chosen : Chosen) :
  keypair d = None ->
  chooseLLM d opts = Ok chosen ->
  exists cause,
    JS.ename cause = "TypeError"
    /\ message env d msg opts st
       = (Throw (JS.Error ("Failed at step: " ++ JS.error_toString cause)),
          started st)
    /\ messageWithTools env d msg opts st
       = (Throw (JS.Error ("Failed at step: " ++ JS.error_toString cause)),
          started st).
Proof.
  intros Hk Hc.
  exists (JS.TypeError "Cannot read properties of null (reading 'publicKey')").
  split; [reflexivity|].
  unfold message, messageWithTools. rewrite Hc, !try_catch_lift_ok.
  unfold try_catch, bind, new_lifecycle, base_lifecycle. rewrite Hk.
  split; reflexivity.
Qed.

Lemma keyless_daemon_fails_at_base_witness :
  exists cause,
    JS.ename cause = "TypeError"
    /\ message sample_env keyless_daemon "Hello" sample_opts initial_state
       = (Throw (JS.Error ("Failed at step: " ++ JS.error_toString cause)),
          started initial_state)
    /\ messageWithTools sample_env keyless_daemon "Hello" sample_opts
         initial_state
       = (Throw (JS.Error ("Failed at step: " ++ JS.error_toString cause)),
          started initial_state).
Proof.
  apply (keyless_daemon_fails_at_base sample_env keyless_daemon "Hello"
           sample_opts initial_state
           (mkChosen "openai" "gpt-4o-mini" "sk-test"
              "https://api.openai.com/v1")).
  - reflexivity.
  - reflexivity.
Defined.

(* ------------------------------------------------------------------ *)
(** ** Tool discovery: [addAllToolsByProvider] *)

Lemma includes_app (before sub after' : string) :
  sub <> "" -> includes (before ++ sub ++ after') sub = true.
Proof.
  intros Hsub. unfold includes.
  destruct (index 0 sub (before ++ sub ++ after')) eqn:E; [reflexivity|].
  exfalso.
  apply (index_correct3 0 (String.length before) _ _ E Hsub); [lia|].
  clear E Hsub.
  induction before as [|c before IH]; simpl.
  - clear. induction sub as [|c sub IH]; simpl.
    + now destruct after'.
    + now rewrite IH.
  - exact IH.
Qed.

Lemma addAllToolsByProvider_connected (env : Env)
    (JSON_parse : string -> Outcome (list ToolProvider)) (d : Daemon)
    (url : string) (st : State) (result : JS.value) :
  connect_reply env (events st) (sseUrl url) = None ->
  tool_reply env (events st ++ [EvConnect (sseUrl url)]) (sseUrl url)
    "getDaemonServerInfo" (JS.Obj []) = Ok result ->
  addAllToolsByProvider env JSON_parse d url st
  = (text <- lift (first_text result) ;;
     isError <- lift (includes_Error text) ;;
     if (isError : bool) then throw (JS.Error (toString text))
     else
       toolsList <- lift (JSON_parse (toString text)) ;;
       ret (fold_left (fun d tool => addSingleToolFromProvider tool d)
              toolsList d))
      (after st [EvConnect (sseUrl url);
                 EvCallTool (sseUrl url) "getDaemonServerInfo" (JS.Obj [])]).
Proof.
  intros Hc Ht.
  unfold addAllToolsByProvider, Client_connect, bind at 1. rewrite Hc.
  cbn -[first_text includes_Error toString sseUrl].
  unfold bind at 1. cbn -[first_text includes_Error toString sseUrl].
  rewrite Ht. unfold after. cbn -[first_text includes_Error toString sseUrl].
  now rewrite <- app_assoc.
Qed.

Lemma fold_addSingleToolFromProvider (tools : list ToolProvider) (d : Daemon) :
  fold_left (fun d tool => addSingleToolFromProvider tool d) tools d
  = mkDaemon (character d) (keypair d) (d_models d) (d_tools d ++ tools).
Proof.
  revert d. induction tools as [|t tools IH]; intros d; simpl.
  - rewrite app_nil_r. now destruct d.
  - rewrite IH. simpl. now rewrite <- app_assoc.
Qed.

(** X18: [addAllToolsByProvider] never closes the session it opens.  In
    every ending the call either failed to connect and left no trace, or
    left exactly the connect and the one [getDaemonServerInfo] invocation:
    no close follows, on success or on failure. *)
Theorem addAllToolsByProvider_leaves_session_open (env : Env)
    (JSON_parse : string -> Outcome (list ToolProvider)) (d : Daemon)
    (url : string) (st : State) :
  (exists e,
     connect_reply env (events st) (sseUrl url) = Some e
     /\ addAllToolsByProvider env JSON_parse d url st = (Throw e, st))
  \/ snd (addAllToolsByProvider env JSON_parse d url st)
     = after st [EvConnect (sseUrl url);
                 EvCallTool (sseUrl url) "getDaemonServerInfo" (JS.Obj [])].
Proof.
  destruct (connect_reply env (events st) (sseUrl url)) as [e|] eqn:Hc.
  - left. exists e. split; [reflexivity|].
    unfold addAllToolsByProvider, Client_connect, bind. now rewrite Hc.
  - right.
    destruct (tool_reply env (events st ++ [EvConnect (sseUrl url)])
                (sseUrl url) "getDaemonServerInfo" (JS.Obj []))
      as [result|e] eqn:Ht.
    + rewrite (addAllToolsByProvider_connected _ _ _ _ _ _ Hc Ht).
      unfold bind, lift, throw, ret.
      destruct (first_text result) as [text|e]; [|reflexivity].
      destruct (includes_Error text) as [[|]|e]; try reflexivity.
      now destruct (JSON_parse (toString text)).
    + unfold addAllToolsByProvider, Client_connect, bind at 1. rewrite Hc.
      cbn -[sseUrl]. unfold bind at 1. cbn -[sseUrl]. rewrite Ht.
      unfold after. cbn -[sseUrl]. now rewrite <- app_assoc.
Qed.

(** X19: a server text that contains "Error" anywhere is taken for a
    failure report.  When the first block of the answer is a text with the
    substring "Error", the call throws an error with that text as message,
    whatever the text parses to: a well-formed tool list that has the word
    in a description is refused as well, and no tool is registered. *)
Theorem addAllToolsByProvider_refuses_Error_text (env : Env)
    (JSON_parse : string -> Outcome (list ToolProvider)) (d : Daemon)
    (url : string) (st : State) (result : JS.value)
    (before after' : string) :
  connect_reply env (events st) (sseUrl url) = None ->
  tool_reply env (events st ++ [EvConnect (sseUrl url)]) (sseUrl url)
    "getDaemonServerInfo" (JS.Obj []) = Ok result ->
  first_text result = Ok (JS.Str (before ++ "Error" ++ after')) ->
  fst (addAllToolsByProvider env JSON_parse d url st)
  = Throw (JS.Error (before ++ "Error" ++ after')).
Proof.
  intros Hc Ht Htext.
  rewrite (addAllToolsByProvider_connected _ _ _ _ _ _ Hc Ht).
  unfold bind, lift. rewrite Htext. unfold includes_Error.
  rewrite includes_app by discriminate. reflexivity.
Qed.

Lemma addAllToolsByProvider_refuses_Error_text_witness :
  fst (addAllToolsByProvider refusing_env sample_parse empty_daemon
         "http://localhost:3000" initial_state)
  = Throw (JS.Error ("Internal " ++ "Error" ++ ": no tools")).
Proof.
  apply (addAllToolsByProvider_refuses_Error_text refusing_env sample_parse
           empty_daemon "http://localhost:3000" initial_state
           (text_result "Internal Error: no tools") "Internal " ": no tools").
  - reflexivity.
  - reflexivity.
  - reflexivity.
Defined.

(** X20: discovery appends and never replaces.  When the answer is a text
    without "Error" that parses to a list of tools, the call succeeds and
    the daemon's tools are the former ones followed by the listed ones, in
    the listed order; nothing is compared with what is registered already
    (a second discovery of the same server registers every tool twice), and
    character, keypair and model providers are untouched. *)
Theorem addAllToolsByProvider_appends (env : Env)
    (JSON_parse : string -> Outcome (list ToolProvider)) (d : Daemon)
    (url : string) (st : State) (result : JS.value) (text : string)
    (toolsList : list ToolProvider) :
  connect_reply env (events st) (sseUrl url) = None ->
  tool_reply env (events st ++ [EvConnect (sseUrl url)]) (sseUrl url)
    "getDaemonServerInfo" (JS.Obj []) = Ok result ->
  first_text result = Ok (JS.Str text) ->
  includes text "Error" = false ->
  JSON_parse text = Ok toolsList ->
  fst (addAllToolsByProvider env JSON_parse d url st)
  = Ok (mkDaemon (character d) (keypair d) (d_models d)
          (d_tools d ++ toolsList)).
Proof.
  intros Hc Ht Htext Hinc Hparse.
  rewrite (addAllToolsByProvider_connected _ _ _ _ _ _ Hc Ht).
  unfold bind, lift. rewrite Htext. unfold includes_Error. rewrite Hinc.
  unfold toString. rewrite Hparse. unfold ret.
  now rewrite fold_addSingleToolFromProvider.
Qed.

Lemma addAllToolsByProvider_appends_witness :
  fst (addAllToolsByProvider listing_env sample_parse busy_daemon
         "http://localhost:3000" initial_state)
  = Ok (mkDaemon (character busy_daemon) (keypair busy_daemon)
          (d_models busy_daemon) (d_tools busy_daemon ++ listed_tools)).
Proof.
  apply (addAllToolsByProvider_appends listing_env sample_parse busy_daemon
           "http://localhost:3000" initial_state
           (text_result "[hello, recall]") "[hello, recall]" listed_tools).
  - reflexivity.
  - reflexivity.
  - reflexivity.
  - reflexivity.
  - reflexivity.
Defined.

(* ------------------------------------------------------------------ *)
(** ** The tools given to the model: [execute] *)

Lemma callTool_checked (env : Env) (tool : ToolProvider) (args : JS.object)
    (st : State) :
  connect_reply env (events st) (sseUrl (serverUrl tool)) = None ->
  Forall (fun q => accepted args q = true) (parameters tool) ->
  callTool env tool args st
  = match tool_reply env (events st ++ [EvConnect (sseUrl (serverUrl tool))])
            (sseUrl (serverUrl tool)) (toolName tool) (JS.Obj args) with
    | Ok result =>
        (Ok result,
         after st [EvConnect (sseUrl (serverUrl tool));
                   EvCallTool (sseUrl (serverUrl tool)) (toolName tool)
                     (JS.Obj args);
                   EvClose (sseUrl (serverUrl tool))])
    | Throw e =>
        (Throw e,
         after st [EvConnect (sseUrl (serverUrl tool));
                   EvCallTool (sseUrl (serverUrl tool)) (toolName tool)
                     (JS.Obj args)])
    end.
Proof.
  intros Hc Hok. rewrite (callTool_connected env tool args st Hc).
  unfold bind at 1. rewrite (check_parameters_pass _ _ _ Hok).
  unfold bind at 1. rewrite Client_callTool_connected. cbn -[sseUrl].
  destruct (tool_reply env _ _ _ _) as [result|e];
    unfold after; cbn -[sseUrl]; now rewrite <- !app_assoc.
Qed.

Lemma all_accepted_or_rejected (args : JS.object) (ps : list ToolParameter) :
  Forall (fun q => accepted args q = true) ps
  \/ exists p, In p ps /\ accepted args p = false.
Proof.
  induction ps as [|q ps [IH|(p & Hin & Hp)]].
  - left. constructor.
  - destruct (accepted args q) eqn:Eq.
    + left. now constructor.
    + right. exists q. split; [now left | exact Eq].
  - right. exists p. split; [now right | exact Hp].
Qed.

Lemma callTool_rejected_throws (env : Env) (tool : ToolProvider) (args : JS.object)
    (st : State) :
  (exists p, In p (parameters tool) /\ accepted args p = false) ->
  exists e, fst (callTool env tool args st) = Throw e.
Proof.
  intros Hrej.
  destruct (first_rejected args (parameters tool) Hrej)
    as (pre & p & post & Hps & Hpre & Hp).
  destruct (connect_reply env (events st) (sseUrl (serverUrl tool)))
    as [e|] eqn:Hc.
  - assert (E : callTool env tool args st = (Throw e, st)).
    { unfold callTool, bind, Client_connect. now rewrite Hc. }
    rewrite E. now exists e.
  - destruct (check_parameters_first args pre post p
                (after st [EvConnect (sseUrl (serverUrl tool))]) Hpre Hp)
      as [what Hwhat].
    assert (E : callTool env tool args st
                = (Throw (JS.Error (pname p ++ " must be " ++ what)),
                   after st [EvConnect (sseUrl (serverUrl tool))])).
    { rewrite (callTool_connected env tool args st Hc).
      unfold bind at 1. now rewrite Hps, Hwhat. }
    rewrite E. now eexists.
Qed.

(** X21: the tools given to the model are not checked.  For arguments that
    [callTool] rejects, [execute] of the same tool (its server reachable)
    sends the invocation all the same: the remote tool receives the
    arguments that the daemon's own check refuses. *)
Theorem execute_skips_validation (env : Env) (t : ToolProvider)
    (args : JS.object) (st : State) :
  connect_reply env (events st) (sseUrl (serverUrl t)) = None ->
  (exists p, In p (parameters t) /\ accepted args p = false) ->
  snd (callTool env t args st) = after st [EvConnect (sseUrl (serverUrl t))]
  /\ exists evs,
       snd (execute env t (JS.Obj args) st)
       = after st (EvConnect (sseUrl (serverUrl t))
                   :: EvCallTool (sseUrl (serverUrl t)) (toolName t)
                        (JS.Obj args)
                   :: evs).
Proof.
  intros Hc Hrej. split.
  - destruct (first_rejected args (parameters t) Hrej)
      as (pre & p & post & Hps & Hpre & Hp).
    destruct (check_parameters_first args pre post p
                (after st [EvConnect (sseUrl (serverUrl t))]) Hpre Hp)
      as [what Hwhat].
    rewrite (callTool_connected env t args st Hc).
    unfold bind at 1. now rewrite Hps, Hwhat.
  - rewrite (execute_connected env t (JS.Obj args) st Hc).
    destruct (tool_reply env _ _ _ _) as [result|e].
    + now exists [EvClose (sseUrl (serverUrl t))].
    + now exists [].
Qed.

Lemma execute_skips_validation_witness :
  snd (callTool sample_env hello_tool bad_args initial_state)
  = after initial_state [EvConnect (sseUrl (serverUrl hello_tool))]
  /\ exists evs,
       snd (execute sample_env hello_tool (JS.Obj bad_args) initial_state)
       = after initial_state
           (EvConnect (sseUrl (serverUrl hello_tool))
            :: EvCallTool (sseUrl (serverUrl hello_tool))
                 (toolName hello_tool) (JS.Obj bad_args)
            :: evs).
Proof.
  apply (execute_skips_validation sample_env hello_tool bad_args
           initial_state).
  - reflexivity.
  - exists (mkToolParameter "name" "string" "The name to say hello to").
    split; [now left | reflexivity].
Defined.

(** X22: [execute] is [callTool] without the check, followed by a test of
    the result.  Whenever [callTool] succeeds with a result, [execute] on
    the same arguments leaves the same events (connect, invocation, close)
    and returns the text of the first block of that result, or fails when
    the result has no such text; the session is closed before the result is
    looked at. *)
Theorem execute_agrees_with_callTool (env : Env) (t : ToolProvider)
    (args : JS.object) (st st' : State) (result : JS.value) :
  callTool env t args st = (Ok result, st') ->
  execute env t (JS.Obj args) st = (result_text result, st')
  /\ exists url, events st'
                 = events st ++ [EvConnect url;
                                 EvCallTool url (toolName t) (JS.Obj args);
                                 EvClose url].
Proof.
  intros H.
  destruct (connect_reply env (events st) (sseUrl (serverUrl t)))
    as [e|] eqn:Hc.
  { unfold callTool, bind, Client_connect in H. now rewrite Hc in H. }
  destruct (all_accepted_or_rejected args (parameters t)) as [Hok|Hrej].
  - rewrite (callTool_checked env t args st Hc Hok) in H.
    rewrite (execute_connected env t (JS.Obj args) st Hc).
    destruct (tool_reply env _ _ _ _) as [r|e]; [|discriminate].
    injection H as <- <-. split; [reflexivity|].
    now exists (sseUrl (serverUrl t)).
  - destruct (callTool_rejected_throws env t args st Hrej) as (e & He).
    rewrite H in He. discriminate.
Qed.

Lemma execute_agrees_with_callTool_witness :
  execute sample_env hello_tool (JS.Obj good_args) initial_state
  = (result_text (hello_reply (JS.Obj good_args)),
     after initial_state [EvConnect hello_session;
                          EvCallTool hello_session "hello" (JS.Obj good_args);
                          EvClose hello_session])
  /\ exists url,
       events (after initial_state
                 [EvConnect hello_session;
                  EvCallTool hello_session "hello" (JS.Obj good_args);
                  EvClose hello_session])
       = events initial_state
         ++ [EvConnect url;
             EvCallTool url (toolName hello_tool) (JS.Obj good_args);
             EvClose url].
Proof.
  apply (execute_agrees_with_callTool sample_env hello_tool good_args
           initial_state).
  reflexivity.
Defined.

(* ------------------------------------------------------------------ *)
(** ** The results of a fan-out *)

Lemma all_results {A B : Type} (f : A -> M B) (l : list A) (st st' : State)
    (rs : list B) :
  all f l st = (Ok rs, st') ->
  Forall2 (fun a r => exists st1 st2, f a st1 = (Ok r, st2)) l rs.
Proof.
  revert st st' rs. induction l as [|a l IH]; intros st st' rs H; simpl in H.
  - injection H as <- _. constructor.
  - unfold bind at 1 in H. destruct (f a st) as [[b|e] st1] eqn:Ea;
      [|discriminate].
    unfold bind at 1 in H. destruct (all f l st1) as [[bs|e] st2] eqn:El;
      [|discriminate].
    injection H as <- _. constructor; [now exists st, st1 | eapply IH, El].
Qed.

Lemma callTool_result (env : Env) (tool : ToolProvider) (args : JS.object)
    (st st' : State) (r : JS.value) :
  callTool env tool args st = (Ok r, st') ->
  tool_reply env (events st ++ [EvConnect (sseUrl (serverUrl tool))])
    (sseUrl (serverUrl tool)) (toolName tool) (JS.Obj args) = Ok r.
Proof.
  intros H.
  destruct (connect_reply env (events st) (sseUrl (serverUrl tool)))
    as [e|] eqn:Hc.
  { unfold callTool, bind, Client_connect in H. now rewrite Hc in H. }
  destruct (all_accepted_or_rejected args (parameters tool)) as [Hok|Hrej].
  - rewrite (callTool_checked env tool args st Hc Hok) in H.
    destruct (tool_reply env _ _ _ _) as [r'|e]; [|discriminate].
    now injection H as <- _.
  - destruct (callTool_rejected_throws env tool args st Hrej) as (e & He).
    rewrite H in He. discriminate.
Qed.

(** X23: the context of a lifecycle has one entry per context tool.  When
    [fetchContext] succeeds on a container, the value it publishes holds, in
    the order of registration, one result for each registered tool of type
    "context": what that tool's server answered to an invocation with the
    lifecycle as it stood before the stage and the caller's arguments for the
    tool. *)
Theorem fetchContext_one_result_per_tool (env : Env) (d : Daemon)
    (opts : option Opts.t) (st : State) (s : BehaviorSubject) :
  lifecycle st = Some s ->
  fst (fetchContext env d opts st) = Ok tt ->
  exists results,
    lifecycle (snd (fetchContext env d opts st))
    = Some (next s (Lifecycle.with_context (value s) results))
    /\ Forall2
         (fun tool r =>
            exists history,
              tool_reply env history (sseUrl (serverUrl tool)) (toolName tool)
                (JS.Obj [ ("lifecycle", Lifecycle.to_js (value s));
                          ("args", args_for opts tool) ])
              = Ok r)
         (filter (fun tool => String.eqb (type tool) "context") (d_tools d))
         results.
Proof.
  intros Hs H. unfold fetchContext in *.
  pose proof (quiet_callTools env d "context" opts st) as Hq.
  unfold bind at 1 in H. unfold bind at 1.
  destruct (callTools env d "context" opts st) as [[results|e] st1] eqn:Ec;
    [|discriminate].
  simpl in Hq. rewrite Hs in Hq.
  exists results. split.
  - unfold bind, lifecycle_value, lifecycle_next.
    rewrite Hq. cbv beta iota. rewrite Hq. reflexivity.
  - unfold callTools, bind at 1, lifecycle_value in Ec. rewrite Hs in Ec.
    apply all_results in Ec. clear H Hq.
    induction Ec as [|tool r tools rs (st2 & st3 & Hr) _ IH]; constructor.
    + eexists. exact (callTool_result _ _ _ _ _ _ Hr).
    + exact IH.
Qed.

Lemma fetchContext_one_result_per_tool_witness :
  exists results,
    lifecycle (snd (fetchContext sample_env busy_daemon sample_opts
                      (mkState [] (Some sample_subject) 0 0)))
    = Some (next sample_subject
              (Lifecycle.with_context (value sample_subject) results))
    /\ Forall2
         (fun tool r =>
            exists history,
              tool_reply sample_env history (sseUrl (serverUrl tool))
                (toolName tool)
                (JS.Obj [ ("lifecycle", Lifecycle.to_js (value sample_subject));
                          ("args", args_for sample_opts tool) ])
              = Ok r)
         (filter (fun tool => String.eqb (type tool) "context")
            (d_tools busy_daemon))
         results.
Proof.
  apply (fetchContext_one_result_per_tool sample_env busy_daemon sample_opts
           (mkState [] (Some sample_subject) 0 0) sample_subject).
  - reflexivity.
  - vm_compute. reflexivity.
Defined.
